(** * Seating planner: a shallow embedding of [scripts.js]

    The development follows the layout of the script: numeric and string
    helpers, the room model, the assignment builder, the rule engine and the
    scorer, the annealing solver, and the repair routine, then the handlers
    around them (clicks, resize, import and export, adding a pupil, the
    default map).  Theorems come after the definitions. *)

From Stdlib Require Import ZArith Lia Ascii String List Sorted.
From stdpp Require Import base decidable option list strings pretty gmap fin_maps fin_sets.

Local Open Scope string_scope.
Local Open Scope Z_scope.

(** ** JavaScript numbers

    Every number the core handles is an integer held as a double.
    Integers up to [2^53] are exact doubles, so numbers are modelled by [Z];
    a sum or product whose exact value needs more than 53 bits is rounded
    ([round53]), and the 32-bit operators are written out. *)
Module JS.

Definition two32 : Z := 4294967296.

(** [x >>> 0]: the unsigned 32-bit reading of an integer. *)
Definition toUint32 (x : Z) : Z := x mod two32.

(** [x | 0]: the signed 32-bit reading of an integer. *)
Definition toInt32 (x : Z) : Z := (x + 2147483648) mod two32 - 2147483648.

(** [Math.imul x y], kept as an unsigned bit pattern. *)
Definition imul (x y : Z) : Z := toUint32 (x * y).

(** Round a non-negative integer to the nearest double (ties to even):
    what a double addition or multiplication does with an exact result
    that needs more than 53 bits. *)
Definition round53 (x : Z) : Z :=
  let len := Z.log2 x + 1 in
  if len <=? 53 then x
  else
    let sh := len - 53 in
    let q := Z.shiftr x sh in
    let r := Z.land x (Z.ones sh) in
    let half := Z.shiftl 1 (sh - 1) in
    let q' := if (half <? r) || ((r =? half) && Z.odd q) then q + 1 else q in
    Z.shiftl q' sh.

(** [Math.floor(u * k)] where [u = n / 2^32] is a generator output and [k]
    a non-negative integer: the product is rounded to a double first. *)
Definition floorMul (n k : Z) : Z := round53 (n * k) / two32.

(** [x + y] and [x * y] on non-negative integers held as doubles, and
    [x - y] on such integers: the exact result, rounded.  (Every number
    the script reaches is far below the largest double.) *)
Definition dadd (x y : Z) : Z := round53 (x + y).

Definition dmul (x y : Z) : Z := round53 (x * y).

Definition dsub (x y : Z) : Z :=
  if x <? y then - round53 (y - x) else round53 (x - y).

(** [String(n)] for an integer. *)
Definition toString (n : Z) : string := pretty n.

(** [s.padStart(n, c)] with a one-character filler. *)
Definition padStart (n : nat) (c : ascii) (s : string) : string :=
  string_of_list_ascii (replicate (n - String.length s) c) +:+ s.

(** A string is truthy when it is not empty. *)
Definition truthy (s : string) : bool :=
  match s with EmptyString => false | _ => true end.

(** [\d] *)
Definition isDigit (c : ascii) : bool :=
  let n := nat_of_ascii c in (48 <=? n)%nat && (n <=? 57)%nat.

Definition digitVal (c : ascii) : Z := Z.of_nat (nat_of_ascii c) - 48.

End JS.

(** ** Model: seat identifiers *)

(** [keyRC(r,c)] renders the pair as the text [r,c] to key a [Set] or a
    [Map]; the rendering is one-to-one on integers, and the pair itself is
    used as the key here. *)
Definition tileKey : Type := Z * Z.

Definition keyRC (r c : Z) : tileKey := (r, c).

Definition seatIdFor (r c : Z) : string :=
  "S" +:+ JS.padStart 2 "0" (JS.toString r) +:+ "_" +:+ JS.padStart 2 "0" (JS.toString c).

Record pos := { pos_r : Z; pos_c : Z }.

(** [/^S(\d{2})_(\d{2})$/.exec(seatId)], then [parseInt(_, 10)] on both
    groups; [None] is the script's [null]. *)
Definition seatPosById (seatId : string) : option pos :=
  match seatId with
  | String "S" (String d1 (String d2 (String "_" (String d3 (String d4 EmptyString))))) =>
      if JS.isDigit d1 && JS.isDigit d2 && JS.isDigit d3 && JS.isDigit d4
      then Some {| pos_r := 10 * JS.digitVal d1 + JS.digitVal d2;
                   pos_c := 10 * JS.digitVal d3 + JS.digitVal d4 |}
      else None
  | _ => None
  end.

(** ** Outcomes

    A call returns, throws, or runs past the bound put on the one loop of
    the script that has no bound of its own. *)
Inductive error :=
  | FixedSeatNotInMap (sid : string)
  | SeatFixedTwice (sid : string)
  | FixedNotASeat (r c : Z)
  | NotEnoughSeats
  | NoPupils
  | NoSeats
  | NotEnoughSeatsToRepair.

Inductive outcome (A : Type) :=
  | Ok (a : A)
  | Throw (e : error)
  | OutOfFuel.
Arguments Ok {A} a.
Arguments Throw {A} e.
Arguments OutOfFuel {A}.

#[global] Instance outcome_ret : MRet outcome := @Ok.
#[global] Instance outcome_bind : MBind outcome := fun A B f x =>
  match x with
  | Ok a => f a
  | Throw e => Throw e
  | OutOfFuel => OutOfFuel
  end.

(** [for (const x of l) { ... }] over a state, stopping at the first throw. *)
Fixpoint forEach {A S : Type} (body : A -> S -> outcome S) (l : list A) (s : S)
  : outcome S :=
  match l with
  | [] => Ok s
  | x :: l' => s' ← body x s; forEach body l' s'
  end.

(** ** [Set] and [Map] in insertion order *)
Section Containers.
Context {K V : Type} `{EqDecision K}.

Definition setHas (k : K) (s : list K) : bool := bool_decide (k ∈ s).

Definition setAdd (k : K) (s : list K) : list K :=
  if setHas k s then s else (s ++ [k])%list.

Definition setDelete (k : K) (s : list K) : list K :=
  filter (fun x => x ≠ k) s.

Definition mapHas (k : K) (m : list (K * V)) : bool := bool_decide (k ∈ m.*1).

Fixpoint mapGet (k : K) (m : list (K * V)) : option V :=
  match m with
  | [] => None
  | (k', v) :: m' => if decide (k' = k) then Some v else mapGet k m'
  end.

Fixpoint mapSet (k : K) (v : V) (m : list (K * V)) : list (K * V) :=
  match m with
  | [] => [(k, v)]
  | (k', v') :: m' =>
      if decide (k' = k) then (k, v) :: m' else (k', v') :: mapSet k v m'
  end.

Definition mapDelete (k : K) (m : list (K * V)) : list (K * V) :=
  filter (fun kv => kv.1 ≠ k) m.

Definition mapValues (m : list (K * V)) : list V := m.*2.

End Containers.

(** ** Model: room *)
Record Room := {
  rows : Z;
  cols : Z;
  cell : Z;
  blocked : list tileKey;
  teacher : list tileKey;
  seats : list (tileKey * string)   (* key "r,c" => seatId string *)
}.

Definition isBlocked (room : Room) (r c : Z) : bool := setHas (keyRC r c) (blocked room).
Definition isTeacher (room : Room) (r c : Z) : bool := setHas (keyRC r c) (teacher room).
Definition isSeat (room : Room) (r c : Z) : bool := mapHas (keyRC r c) (seats room).

Definition ensureSeat (r c : Z) (room : Room) : Room :=
  let k := keyRC r c in
  let blocked' := if isBlocked room r c then setDelete k (blocked room) else blocked room in
  {| rows := rows room; cols := cols room; cell := cell room;
     blocked := blocked';
     teacher := teacher room;
     seats := mapSet k (seatIdFor r c) (seats room) |}.

Definition ensureBlocked (r c : Z) (room : Room) : Room :=
  let k := keyRC r c in
  {| rows := rows room; cols := cols room; cell := cell room;
     blocked := setAdd k (blocked room);
     teacher := setDelete k (teacher room);
     seats := mapDelete k (seats room) |}.

Definition ensureTeacher (r c : Z) (room : Room) : Room :=
  let k := keyRC r c in
  let blocked' := if isBlocked room r c then setDelete k (blocked room) else blocked room in
  {| rows := rows room; cols := cols room; cell := cell room;
     blocked := blocked';
     teacher := setAdd k (teacher room);
     seats := seats room |}.

Definition ensureEmpty (r c : Z) (room : Room) : Room :=
  let k := keyRC r c in
  {| rows := rows room; cols := cols room; cell := cell room;
     blocked := setDelete k (blocked room);
     teacher := setDelete k (teacher room);
     seats := mapDelete k (seats room) |}.

(** The four tools of [onCellClick]. *)
Inductive tool := ToolSeat | ToolBlocked | ToolTeacher | ToolEmpty.

Definition classify (t : tool) (r c : Z) (room : Room) : Room :=
  match t with
  | ToolSeat => ensureSeat r c room
  | ToolBlocked => ensureBlocked r c room
  | ToolTeacher => ensureTeacher r c room
  | ToolEmpty => ensureEmpty r c room
  end.

Definition allSeatIds (room : Room) : list string := mapValues (seats room).

(** ** Model: pupils and assignments *)
Inductive Fixed :=
  | FixedSeat (seat : string)     (* {seat} *)
  | FixedRC (r c : Z).            (* {r,c} *)

Module Pupil.
Record t := mk {
  id : string;
  tags : list string;
  fixed : option Fixed          (* null | {seat} | {r,c} *)
}.
End Pupil.

(** An assignment is a plain object used as a dictionary from pupil id to
    seat id: the finite map of its own entries.  A plain object also
    inherits the members of [Object.prototype]: reading one of these names
    on an object that has no entry of its own for it gives a function (or,
    for [__proto__], the prototype), which is truthy and is no string. *)
Definition protoNames : list string :=
  ["constructor"; "__defineGetter__"; "__defineSetter__"; "hasOwnProperty";
   "__lookupGetter__"; "__lookupSetter__"; "isPrototypeOf"; "propertyIsEnumerable";
   "toString"; "valueOf"; "__proto__"; "toLocaleString"].

(** [obj[k] = v] for a string [v], on an object made by the script
    ([{}] or a copy): it makes or overwrites the entry, but for
    [__proto__], where the inherited setter takes the value and, for a
    string, does nothing. *)
Definition objSet (k v : string) (obj : gmap string string) : gmap string string :=
  if decide (k = "__proto__") then obj else <[k:=v]> obj.

(** [assign[pid]] as a condition: an entry that is not the empty string,
    or an inherited member. *)
Definition seated (assign : gmap string string) (pid : string) : bool :=
  match assign !! pid with
  | Some sid => JS.truthy sid
  | None => bool_decide (pid ∈ protoNames)
  end.

(** ** Random helpers *)

(** The generator returned by [mulberry32(a)] is its captured variable [a];
    a call yields the numerator [n] of the result [n / 4294967296] and the
    new value of [a].  [a] stays a double: the sum is rounded, not wrapped. *)
Definition mulberry32 (a : Z) : Z := a.

Definition rngNext (a : Z) : Z * Z :=
  let a := JS.round53 (a + 1831565813) in                      (* 0x6D2B79F5 *)
  let t := JS.toUint32 a in
  let t := JS.imul (Z.lxor t (Z.shiftr t 15)) (Z.lor t 1) in
  let t := Z.lxor t (JS.toUint32 (t + JS.imul (Z.lxor t (Z.shiftr t 7)) (Z.lor t 61))) in
  (Z.lxor t (Z.shiftr t 14), a).

(** [[arr[i],arr[j]] = [arr[j],arr[i]]]; both indices are inside the array
    wherever the script swaps. *)
Definition swapAt {A : Type} (i j : nat) (arr : list A) : list A :=
  match arr !! i, arr !! j with
  | Some x, Some y => <[j:=x]> (<[i:=y]> arr)
  | _, _ => arr
  end.

Fixpoint shuffleFrom {A : Type} (i : nat) (arr : list A) (rng : Z) : list A * Z :=
  match i with
  | O => (arr, rng)
  | S i' =>
      let '(u, rng) := rngNext rng in
      let j := Z.to_nat (JS.floorMul u (Z.of_nat i + 1)) in
      shuffleFrom i' (swapAt i j arr) rng
  end.

Definition shuffleInPlace {A : Type} (arr : list A) (rng : Z) : list A * Z :=
  shuffleFrom (length arr - 1) arr rng.

(** ** Rules *)
Inductive metric := manhattan | chebyshev | euclidean2.

Definition dist (m : metric) (a b : pos) : Z :=
  match m with
  | manhattan => Z.abs (pos_r a - pos_r b) + Z.abs (pos_c a - pos_c b)
  | chebyshev => Z.max (Z.abs (pos_r a - pos_r b)) (Z.abs (pos_c a - pos_c b))
  | euclidean2 =>
      let dr := pos_r a - pos_r b in
      let dc := pos_c a - pos_c b in
      dr * dr + dc * dc
  end.

(** A rule object: the fields the engine reads.  A numeric field that is
    absent reads as [0] under [|0]; [weight] keeps the difference because
    the engine floors it at [1]; an absent [metric] is [None]. *)
Module Rule.
Record t := mk {
  type : string;
  hard : bool;
  weight : option Z;
  a : string;
  b : string;
  d : Z;
  metric : option metric;
  pupil_id : string;
  k : Z;
  min_d : Z;
  r_min : Z;
  r_max : Z;
  allowed_seat_ids : list string;
  tag : string
}.
End Rule.

Definition HARD_MULT : Z := 1000000.

Record Score := { total : Z; hardBreaks : Z }.

(** [bestScore] and [bestHard] start at [Infinity], [bestGlobal] at [null]:
    the three are [None] until a restart has ended. *)
Record SolveResult := {
  assignment : option (gmap string string);
  bestScore : option Z;
  bestHard : option Z
}.

(** ** The core, over one snapshot of the room, the pupils and the rules *)
Section Core.

Variable room : Room.
Variable pupils : list Pupil.t.     (* getPupils() *)
Variable rules : list Rule.t.       (* getRules() *)

(** *** Assignment *)

Definition rcToSeatId (r c : Z) : outcome string :=
  match mapGet (keyRC r c) (seats room) with
  | Some sid => Ok sid
  | None => Throw (FixedNotASeat r c)
  end.

Definition claimFixed (pid sid : string) (st : gmap string string * gset string)
  : outcome (gmap string string * gset string) :=
  let '(assign, used) := st in
  if bool_decide (sid ∈ used) then Throw (SeatFixedTwice sid)
  else Ok (objSet pid sid assign, {[sid]} ∪ used).

(** Body of the loop over the fixed placements. *)
Definition placeFixed (seatIds : list string) (p : Pupil.t)
    (st : gmap string string * gset string)
  : outcome (gmap string string * gset string) :=
  match Pupil.fixed p with
  | Some (FixedSeat sid) =>
      if JS.truthy sid then
        if setHas sid seatIds then claimFixed (Pupil.id p) sid st
        else Throw (FixedSeatNotInMap sid)
      else Ok st
  | Some (FixedRC r c) =>
      sid ← rcToSeatId r c; claimFixed (Pupil.id p) sid st
  | None => Ok st
  end.

(** [for (const pid of pids) assign[pid] = free[idx++]]; the capacity
    check before it keeps [idx] inside [free]. *)
Fixpoint assignInOrder (pids free : list string) (assign : gmap string string)
  : gmap string string :=
  match pids, free with
  | pid :: pids', sid :: free' => assignInOrder pids' free' (objSet pid sid assign)
  | _, _ => assign
  end.

(** The comparator handed to [free2.sort]. *)
Definition seatCompare (sa sb : string) : Z :=
  match seatPosById sa, seatPosById sb with
  | None, None => 0
  | None, Some _ => 1
  | Some _, None => -1
  | Some a, Some b =>
      if negb (pos_r a =? pos_r b) then pos_r a - pos_r b else pos_c a - pos_c b
  end.

(** [Array.prototype.sort] is stable; the comparator is a total preorder,
    so every stable sort returns this array. *)
Fixpoint insertSeat (x : string) (l : list string) : list string :=
  match l with
  | [] => [x]
  | y :: l' => if seatCompare x y <=? 0 then x :: l else y :: insertSeat x l'
  end.

Definition sortSeats (l : list string) : list string := foldr insertSeat [] l.

(** How far [i1] runs past [i0 + 1]: the seats that follow in the row of
    [free2[i0]]. *)
Fixpoint rowRun (p0 : option pos) (l : list string) : nat :=
  match l with
  | [] => O
  | s :: l' =>
      match p0, seatPosById s with
      | Some a, Some b => if pos_r b =? pos_r a then S (rowRun p0 l') else O
      | _, _ => O
      end
  end.

(** The [while (i0 < free2.length)] loop; every round takes at least one
    seat, so [length free2] rounds are enough. *)
Fixpoint shuffleRows (rounds : nat) (free2 : list string) (rng : Z)
  : list string * Z :=
  match rounds, free2 with
  | S rounds', s0 :: rest =>
      let n := S (rowRun (seatPosById s0) rest) in
      let '(slice, rng) := shuffleInPlace (take n free2) rng in
      let '(tail, rng) := shuffleRows rounds' (drop n free2) rng in
      ((slice ++ tail)%list, rng)
  | _, _ => (free2, rng)
  end.

Definition hasTags (p : Pupil.t) : bool :=
  match Pupil.tags p with [] => false | _ => true end.

Definition buildInitialAssignment (seed : Z) : outcome (gmap string string) :=
  let rng := mulberry32 (JS.toUint32 seed) in
  let seatIds := allSeatIds room in
  '(assign, used) ← forEach (placeFixed seatIds) pupils (∅, ∅);
  let free := filter (fun s => s ∉ used) seatIds in
  let remainingPupils := filter (fun p => seated assign (Pupil.id p) = false) pupils in
  let tagged := Pupil.id <$> filter (fun p => hasTags p = true) remainingPupils in
  let untagged := Pupil.id <$> filter (fun p => hasTags p = false) remainingPupils in
  if (length free <? length tagged + length untagged)%nat then Throw NotEnoughSeats
  else
    let '(free, rng) := shuffleInPlace free rng in
    let assign := assignInOrder tagged free assign in
    let free2 := sortSeats (drop (length tagged) free) in
    let '(free2, rng) := shuffleRows (length free2) free2 rng in
    Ok (assignInOrder untagged free2 assign).

Definition isFixedPupil (p : Pupil.t) : bool :=
  match Pupil.fixed p with
  | Some (FixedSeat sid) => JS.truthy sid
  | Some (FixedRC _ _) => true
  | None => false
  end.

(** *** Repair *)

(** Body of the "apply fixed" loop. *)
Definition resolveFixed (p : Pupil.t) (fixed : gmap string string)
  : outcome (gmap string string) :=
  match Pupil.fixed p with
  | Some (FixedSeat sid) =>
      if JS.truthy sid then Ok (<[Pupil.id p:=sid]> fixed) else Ok fixed
  | Some (FixedRC r c) =>
      match mapGet (keyRC r c) (seats room) with
      | Some sid => Ok (<[Pupil.id p:=sid]> fixed)
      | None => Throw (FixedNotASeat r c)
      end
  | None => Ok fixed
  end.

(** Body of the "clear duplicates & invalid seats" loop.  A prior seat
    is kept when it is an entry of [assign], not empty, a seat of the room
    and not in use; an inherited member is no seat of the room. *)
Definition keepSeat (seatIds : list string) (fixed assign : gmap string string)
    (p : Pupil.t) (st : gmap string string * gset string)
  : outcome (gmap string string * gset string) :=
  let '(clean, used) := st in
  let pid := Pupil.id p in
  match fixed !! pid with
  | Some sid =>
      if bool_decide (sid ∈ used) then Throw (SeatFixedTwice sid)
      else Ok (objSet pid sid clean, {[sid]} ∪ used)
  | None =>
      match assign !! pid with
      | Some sid =>
          if JS.truthy sid && setHas sid seatIds && negb (bool_decide (sid ∈ used))
          then Ok (objSet pid sid clean, {[sid]} ∪ used)
          else Ok st
      | None => Ok st
      end
  end.

(** Body of the "fill rest" loop. *)
Definition fillSeat (free : list string) (p : Pupil.t) (st : gmap string string * nat)
  : outcome (gmap string string * nat) :=
  let '(clean, idx) := st in
  if seated clean (Pupil.id p) then Ok st
  else
    match free !! idx with
    | None => Throw NotEnoughSeatsToRepair
    | Some sid => Ok (objSet (Pupil.id p) sid clean, S idx)
    end.

Definition repairAssignment (assign : gmap string string) (seed : Z)
  : outcome (gmap string string) :=
  let rng := mulberry32 (JS.toUint32 seed) in
  let seatIds := allSeatIds room in
  fixed ← forEach resolveFixed pupils ∅;
  '(clean, used) ← forEach (keepSeat seatIds fixed assign) pupils (∅, ∅);
  let free := filter (fun s => s ∉ used) seatIds in
  let '(free, rng) := shuffleInPlace free rng in
  '(clean, idx) ← forEach (fillSeat free) pupils (clean, O);
  Ok clean.

(** *** Constraints / rules engine *)

Definition posOf (assign : gmap string string) (pid : string) : option pos :=
  match assign !! pid with
  | Some sid => if JS.truthy sid then seatPosById sid else None
  | None => None
  end.

Definition metricOf (rule : Rule.t) : metric :=
  default manhattan (Rule.metric rule).

(** A key that reads as an array index: the decimal numeral, without
    leading zeros, of a number below [2^32 - 1]. *)
Definition arrayIndex (s : string) : option Z :=
  let cs := list_ascii_of_string s in
  match cs with
  | [] => None
  | c :: cs' =>
      if forallb JS.isDigit cs && (negb (Ascii.eqb c "0") || bool_decide (cs' = [])) then
        let n := foldl (fun n c => 10 * n + JS.digitVal c) 0 cs in
        if n <? 4294967295 then Some n else None
      else None
  end.

Fixpoint insertIndexed {A} (e : Z * A) (l : list (Z * A)) : list (Z * A) :=
  match l with
  | [] => [e]
  | e' :: l' => if e.1 <? e'.1 then e :: l else e' :: insertIndexed e l'
  end.

(** [Object.values(obj)] for an object given by its entries in the order
    they were made: the array-index keys first, by ascending number, then
    the other keys as made. *)
Definition objectValues {A} (entries : list (string * A)) : list A :=
  let indexed := omap (fun e => (fun n => (n, e.2)) <$> arrayIndex e.1) entries in
  let others := filter (fun e => arrayIndex e.1 = None) entries in
  ((foldr insertIndexed [] indexed).*2 ++ others.*2)%list.

(** [Object.values(pupilsById)], where [pupilsById] is
    [Object.fromEntries(pupils.map(p => [p.id, p]))]: one record per id,
    the last one given, at the place of the first.  ([Object.fromEntries]
    defines the entries, so one named [__proto__] is an entry like the
    others.) *)
Definition pupilsByIdValues (ps : list Pupil.t) : list Pupil.t :=
  objectValues (foldl (fun m p => mapSet (Pupil.id p) p m) [] ps).

(** The two nested loops of [TagSeparation], over the one accumulator
    [pen]; [g x y] is the amount added for the pair, if any. *)
Fixpoint pairPenalty (g : string -> string -> option Z) (l : list string) (pen : Z) : Z :=
  match l with
  | [] => pen
  | x :: l' =>
      pairPenalty g l'
        (foldl (fun pen y => match g x y with Some v => JS.dadd pen v | None => pen end)
               pen l')
  end.

(** The value of [p] when [rulePenalty] reaches its last two lines. *)
Definition rawPenalty (rule : Rule.t) (assign : gmap string string)
    (pupilsById : list Pupil.t) (teacherTiles : list pos) : Z :=
  let type := Rule.type rule in
  if String.eqb type "MinDistance" then
    let dNeed := JS.toInt32 (Rule.d rule) in
    match posOf assign (Rule.a rule), posOf assign (Rule.b rule) with
    | Some pa, Some pb =>
        let d := dist (metricOf rule) pa pb in
        if dNeed <=? d then 0 else dNeed - d
    | _, _ => 0
    end
  else if String.eqb type "MaxDistance" then
    let dMax := JS.toInt32 (Rule.d rule) in
    match posOf assign (Rule.a rule), posOf assign (Rule.b rule) with
    | Some pa, Some pb =>
        let d := dist (metricOf rule) pa pb in
        if d <=? dMax then 0 else d - dMax
    | _, _ => 0
    end
  else if String.eqb type "NotAdjacent" then
    match posOf assign (Rule.a rule), posOf assign (Rule.b rule) with
    | Some pa, Some pb => if 2 <=? dist chebyshev pa pb then 0 else 1
    | _, _ => 0
    end
  else if String.eqb type "PreferFront" then
    let k := JS.toInt32 (Rule.k rule) in
    match posOf assign (Rule.pupil_id rule) with
    | Some pp => if pos_r pp <? k then 0 else 1
    | None => 0
    end
  else if String.eqb type "PreferAwayFromTeacher" then
    let minD := JS.toInt32 (Rule.min_d rule) in
    match posOf assign (Rule.pupil_id rule), teacherTiles with
    | Some pp, t :: ts =>
        let best :=
          foldl (fun best t => Z.min best (dist (metricOf rule) pp t))
                (dist (metricOf rule) pp t) ts in
        if minD <=? best then 0 else minD - best
    | _, _ => 0
    end
  else if String.eqb type "MustBeInRows" then
    let rMin := JS.toInt32 (Rule.r_min rule) in
    let rMax := JS.toInt32 (Rule.r_max rule) in
    match posOf assign (Rule.pupil_id rule) with
    | Some pp => if (rMin <=? pos_r pp) && (pos_r pp <=? rMax) then 0 else 1
    | None => 0
    end
  else if String.eqb type "MustBeInSeats" then
    match assign !! Rule.pupil_id rule with
    | Some sid =>
        if JS.truthy sid then
          if setHas sid (Rule.allowed_seat_ids rule) then 0 else 1
        else 0
    | None => if bool_decide (Rule.pupil_id rule ∈ protoNames) then 1 else 0
    end
  else if String.eqb type "TagSeparation" then
    let minD := JS.toInt32 (Rule.min_d rule) in
    let tagged :=
      Pupil.id <$>
        filter (fun p0 => setHas (Rule.tag rule) (Pupil.tags p0) && seated assign (Pupil.id p0) = true)
               pupilsById in
    pairPenalty
      (fun x y =>
         match posOf assign x, posOf assign y with
         | Some pa, Some pb =>
             let d := dist (metricOf rule) pa pb in
             if d <? minD then Some (minD - d) else None
         | _, _ => None
         end)
      tagged 0
  else 0.

Definition ruleWeight (rule : Rule.t) : Z :=
  Z.max 1 (JS.toInt32 (default 0 (Rule.weight rule))).

Definition rulePenalty (rule : Rule.t) (assign : gmap string string)
    (pupilsById : list Pupil.t) (teacherTiles : list pos) : Z :=
  let p := rawPenalty rule assign pupilsById teacherTiles in
  if p <=? 0 then 0
  else if Rule.hard rule then JS.dmul p HARD_MULT else JS.dmul p (ruleWeight rule).

Definition teacherTilesOf : list pos :=
  (fun k : tileKey => {| pos_r := k.1; pos_c := k.2 |}) <$> teacher room.

(** Body of the loop over the rules.  [total] is a double; [hardBreaks]
    counts rules and stays exact. *)
Definition addRule (assign : gmap string string) (sc : Score) (rule : Rule.t) : Score :=
  let pen := rulePenalty rule assign (pupilsByIdValues pupils) teacherTilesOf in
  {| total := JS.dadd (total sc) pen;
     hardBreaks :=
       if (HARD_MULT <=? pen) && Rule.hard rule then hardBreaks sc + 1 else hardBreaks sc |}.

Definition scoreAssignment (assign : gmap string string) : Score :=
  foldl (addRule assign) {| total := 0; hardBreaks := 0 |} rules.

(** *** Solver (simulated annealing + restarts) *)

(** The temperature is a double and the acceptance test goes through
    [Math.pow] and [Math.exp]: [metropolis i delta u] stands for
    [u / 4294967296 < Math.exp(-delta / Math.max(1e-9, T))] with [T] the
    temperature of iteration [i].  [whileBound] bounds the rounds of
    [while (b === a)]. *)
Variable metropolis : Z -> Z -> Z -> bool.
Variable whileBound : nat.

Definition fixedSet : gset string :=
  list_to_set (Pupil.id <$> filter (fun p => isFixedPupil p = true) pupils).

Definition movableIds : list string :=
  Pupil.id <$> filter (fun p => Pupil.id p ∉ fixedSet) pupils.

(** [movable[Math.floor(rng() * movable.length)]]; the index is inside
    the array. *)
Definition pick (movable : list string) (u : Z) : string :=
  movable !!! Z.to_nat (JS.floorMul u (Z.of_nat (length movable))).

(** [let b = a; while (b === a) b = movable[...]]. *)
Fixpoint pickOther (rounds : nat) (movable : list string) (a : string) (rng : Z)
  : outcome (string * Z) :=
  match rounds with
  | O => OutOfFuel
  | S rounds' =>
      let '(u, rng) := rngNext rng in
      let b := pick movable u in
      if String.eqb b a then pickOther rounds' movable a rng else Ok (b, rng)
  end.

(** [assign[pid] = v] where [v] may be [undefined]; an [undefined] entry
    reads like a missing one.  The swap is modelled for pupil ids that
    are no member of [protoNames]: for those, what [cur[a]] reads is an
    entry or [undefined]. *)
Definition setSeat (pid : string) (v : option string) (assign : gmap string string)
  : gmap string string :=
  match v with
  | Some sid => <[pid:=sid]> assign
  | None => delete pid assign
  end.

Definition swapSeats (a b : string) (cur : gmap string string) : gmap string string :=
  let sa := cur !! a in
  let sb := cur !! b in
  setSeat b sa (setSeat a sb cur).

(** The proposal: two picks and the swapped copy. *)
Definition propose (movable : list string) (cur : gmap string string) (rng : Z)
  : outcome (string * string * gmap string string * Z) :=
  let '(u, rng) := rngNext rng in
  let a := pick movable u in
  '(b, rng) ← pickOther whileBound movable a rng;
  Ok (a, b, swapSeats a b cur, rng).

Definition acceptMove (i delta : Z) (rng : Z) : bool * Z :=
  if delta <=? 0 then (true, rng)
  else let '(u, rng) := rngNext rng in (metropolis i delta u, rng).

Record annealState := {
  cur : gmap string string;
  curSc : Score;
  best : gmap string string;
  bestSc : Score;
  rngOf : Z
}.

(** The inner loop of [solve], [left] iterations from iteration [i]. *)
Fixpoint annealRestart (left : nat) (i : Z) (st : annealState) : outcome annealState :=
  match left with
  | O => Ok st
  | S left' =>
      let movable := movableIds in
      if (length movable <? 2)%nat then Ok st
      else
        '(a, b, next, rng) ← propose movable (cur st) (rngOf st);
        let nextSc := scoreAssignment next in
        let delta := JS.dsub (total nextSc) (total (curSc st)) in
        let '(accept, rng) := acceptMove i delta rng in
        if accept then
          if total nextSc <? total (bestSc st) then
            let st' := {| cur := next; curSc := nextSc; best := next; bestSc := nextSc;
                          rngOf := rng |} in
            if total nextSc =? 0 then Ok st' else annealRestart left' (i + 1) st'
          else
            annealRestart left' (i + 1)
              {| cur := next; curSc := nextSc; best := best st; bestSc := bestSc st;
                 rngOf := rng |}
        else
          annealRestart left' (i + 1)
            {| cur := cur st; curSc := curSc st; best := best st; bestSc := bestSc st;
               rngOf := rng |}
  end.

(** [x < bestScore] where [bestScore] may still be [Infinity]. *)
Definition belowBest (x : Z) (bestScore : option Z) : bool :=
  match bestScore with
  | None => true
  | Some y => x <? y
  end.

(** The loop over the restarts, [left] of them still to run.  The progress
    callback takes no part in the search and is left out. *)
Fixpoint restartLoop (itersPerRestart : Z) (left : nat) (masterRng : Z) (res : SolveResult)
  : outcome SolveResult :=
  match left with
  | O => Ok res
  | S left' =>
      let '(u, masterRng) := rngNext masterRng in
      let restartSeed := JS.toUint32 (JS.floorMul u 4294967295) in
      let rng := mulberry32 restartSeed in
      cur0 ← buildInitialAssignment restartSeed;
      let sc0 := scoreAssignment cur0 in
      st ← annealRestart (Z.to_nat itersPerRestart) 0
             {| cur := cur0; curSc := sc0; best := cur0; bestSc := sc0; rngOf := rng |};
      let res' :=
        if belowBest (total (bestSc st)) (bestScore res)
        then {| assignment := Some (best st);
                bestScore := Some (total (bestSc st));
                bestHard := Some (hardBreaks (bestSc st)) |}
        else res in
      if bool_decide (bestScore res' = Some 0) then Ok res'
      else restartLoop itersPerRestart left' masterRng res'
  end.

Definition solve (restarts itersPerRestart seed : Z) : outcome SolveResult :=
  if bool_decide (length pupils = O) then Throw NoPupils
  else
    let seatIds := allSeatIds room in
    if bool_decide (length seatIds = O) then Throw NoSeats
    else if (length seatIds <? length pupils)%nat then Throw NotEnoughSeats
    else
      restartLoop itersPerRestart (Z.to_nat restarts) (mulberry32 (JS.toUint32 seed))
        {| assignment := None; bestScore := None; bestHard := None |}.

(** The loop of [quickImprove]; [movable] is computed once, before it. *)
Fixpoint improveLoop (movable : list string) (left : nat) (i : Z) (st : annealState)
  : outcome annealState :=
  match left with
  | O => Ok st
  | S left' =>
      if (length movable <? 2)%nat then Ok st
      else
        '(a, b, next, rng) ← propose movable (cur st) (rngOf st);
        let nextSc := scoreAssignment next in
        let delta := JS.dsub (total nextSc) (total (curSc st)) in
        let '(accept, rng) := acceptMove i delta rng in
        if accept then
          if total nextSc <? total (bestSc st) then
            improveLoop movable left' (i + 1)
              {| cur := next; curSc := nextSc; best := next; bestSc := nextSc; rngOf := rng |}
          else
            improveLoop movable left' (i + 1)
              {| cur := next; curSc := nextSc; best := best st; bestSc := bestSc st;
                 rngOf := rng |}
        else
          improveLoop movable left' (i + 1)
            {| cur := cur st; curSc := curSc st; best := best st; bestSc := bestSc st;
               rngOf := rng |}
  end.

(** [stateAssignment] is [state.assignment]. *)
Definition quickImprove (stateAssignment : gmap string string) (iters seed : Z)
  : outcome SolveResult :=
  cur0 ← (if bool_decide (stateAssignment = ∅) then buildInitialAssignment seed
          else Ok stateAssignment);
  cur0 ← repairAssignment cur0 seed;
  let sc0 := scoreAssignment cur0 in
  st ← improveLoop movableIds (Z.to_nat iters) 0
         {| cur := cur0; curSc := sc0; best := cur0; bestSc := sc0;
            rngOf := mulberry32 (JS.toUint32 seed) |};
  Ok {| assignment := Some (best st);
        bestScore := Some (total (bestSc st));
        bestHard := Some (hardBreaks (bestSc st)) |}.

End Core.

(** ** Around the core: utilities, map edits, import and export *)

(** [clamp(x, a, b)]. *)
Definition clamp (x a b : Z) : Z := Z.max a (Z.min b x).

(** [invertAssignment]: [Object.entries(assign)] is handed in as the list
    of its pairs, in the order the object lists them. *)
Definition invertAssignment (entries : list (string * string)) : gmap string string :=
  foldl (fun inv e => objSet e.2 e.1 inv) ∅ entries.

(** [try { state.assignment = repairAssignment(...) } catch { state.assignment = {} }]:
    what every edit of the map does with the stored assignment. *)
Definition repairOrClear (room : Room) (pupils : list Pupil.t)
    (assign : gmap string string) (seed : Z) : gmap string string :=
  match repairAssignment room pupils assign seed with
  | Ok clean => clean
  | _ => ∅
  end.

(** [onCellClick]: the tool is applied to the tile, then the assignment is
    repaired.  The new room and the new assignment are returned. *)
Definition onCellClick (pupils : list Pupil.t) (seed : Z) (t : tool) (r c : Z)
    (st : Room * gmap string string) : Room * gmap string string :=
  let room := classify t r c st.1 in
  (room, repairOrClear room pupils st.2 seed).

(** [new Set(array)], and a [Map] filled entry by entry with [set]. *)
Definition setOfArray {K} `{EqDecision K} (l : list K) : list K :=
  foldl (fun s k => setAdd k s) [] l.

Definition mapOfEntries {K V} `{EqDecision K} (l : list (K * V)) : list (K * V) :=
  foldl (fun m kv => mapSet kv.1 kv.2 m) [] l.

(** [inBoundsKey] of the resize handler. *)
Definition inBoundsKey (newR newC : Z) (k : tileKey) : bool :=
  (0 <=? k.1) && (k.1 <? newR) && (0 <=? k.2) && (k.2 <? newC).

(** The rows and columns asked for: an empty input field ([None]) reads as
    8 and 10. *)
Definition resizeRows (inpRows : option Z) : Z := clamp (default 8 inpRows) 1 40.
Definition resizeCols (inpCols : option Z) : Z := clamp (default 10 inpCols) 1 40.

(** The room part of the [btnResize] handler. *)
Definition resizeRoom (inpRows inpCols : option Z) (room : Room) : Room :=
  let newR := resizeRows inpRows in
  let newC := resizeCols inpCols in
  {| rows := newR; cols := newC; cell := cell room;
     blocked := setOfArray (filter (fun k => inBoundsKey newR newC k = true) (blocked room));
     teacher := setOfArray (filter (fun k => inBoundsKey newR newC k = true) (teacher room));
     seats := foldl (fun newSeats kv =>
                       if inBoundsKey newR newC kv.1 then mapSet kv.1 kv.2 newSeats
                       else newSeats)
                    [] (seats room) |}.

(** The [btnResize] handler: prune, then repair. *)
Definition onResize (pupils : list Pupil.t) (seed : Z) (inpRows inpCols : option Z)
    (st : Room * gmap string string) : Room * gmap string string :=
  let room := resizeRoom inpRows inpCols st.1 in
  (room, repairOrClear room pupils st.2 seed).

(** The [room] object of the exported document: the sets and the map as
    arrays.  A size that the document lacks reads as [0] under [|0], an
    array that it lacks as the empty one. *)
Record RoomDoc := {
  doc_rows : Z;
  doc_cols : Z;
  doc_cell : Z;
  doc_blocked : list tileKey;
  doc_teacher : list tileKey;
  doc_seats : list (tileKey * string)
}.

(** The room part of [exportJSON]. *)
Definition exportRoom (room : Room) : RoomDoc :=
  {| doc_rows := rows room; doc_cols := cols room; doc_cell := cell room;
     doc_blocked := blocked room; doc_teacher := teacher room; doc_seats := seats room |}.

(** [x|0 || d]. *)
Definition int32Or (x d : Z) : Z := if JS.toInt32 x =? 0 then d else JS.toInt32 x.

(** The room part of [importJSON]. *)
Definition importRoom (doc : RoomDoc) : Room :=
  {| rows := clamp (int32Or (doc_rows doc) 8) 1 40;
     cols := clamp (int32Or (doc_cols doc) 10) 1 40;
     cell := clamp (int32Or (doc_cell doc) 42) 28 64;
     blocked := setOfArray (doc_blocked doc);
     teacher := setOfArray (doc_teacher doc);
     seats := mapOfEntries (doc_seats doc) |}.

(** [importJSON]: the room is read, then the imported assignment is
    repaired against the imported pupils. *)
Definition importJSON (doc : RoomDoc) (pupils : list Pupil.t) (assign : gmap string string)
    (seed : Z) : Room * gmap string string :=
  let room := importRoom doc in
  (room, repairOrClear room pupils assign seed).

(** The score [updateKPIs] shows, and its message; [msg] is the empty
    string when the caller gives none. *)
Definition kpiScore (room : Room) (pupils : list Pupil.t) (rules : list Rule.t)
    (assign : gmap string string) : Score :=
  if bool_decide (assign = ∅) then {| total := 0; hardBreaks := 0 |}
  else scoreAssignment room pupils rules assign.

Definition kpiMsg (msg : string) (sc : Score) (nPupils : nat) : string :=
  if JS.truthy msg then msg
  else if (total sc =? 0) && (0 <? nPupils)%nat then "Perfect score." else "Ready.".


(** The room with nothing on it, as the script starts. *)
Definition emptyRoom : Room :=
  {| rows := 8; cols := 10; cell := 42; blocked := []; teacher := []; seats := [] |}.

(** The map part of [initDefaultMap]: teacher tiles at the top, seats in
    rows 1 to 6 but for the aisle in column 5, the back row blocked. *)
Definition initDefaultMap (inpRows inpCols inpCell : option Z) (room : Room) : Room :=
  let room :=
    {| rows := default 8 inpRows; cols := default 10 inpCols; cell := default 42 inpCell;
       blocked := blocked room;
       teacher := setAdd (keyRC 0 5) (setAdd (keyRC 0 4) (teacher room));
       seats := seats room |} in
  let room :=
    foldl (fun room r =>
             foldl (fun room c => if c =? 5 then room else ensureSeat r c room)
                   room (seqZ 0 (cols room)))
          room (seqZ 1 6) in
  foldl (fun room c => ensureBlocked 7 c room) room (seqZ 0 (cols room)).

(** * Vocabulary of the properties *)

(** No two pupils share a seat. *)
Definition injective (assign : gmap string string) : Prop :=
  ∀ p q sid, assign !! p = Some sid → assign !! q = Some sid → p = q.

(** The seat a fixed pupil declares: the identifier it names, or the
    identifier of the seat at the coordinate it names. *)
Definition resolvedSeat (room : Room) (p : Pupil.t) : option string :=
  match Pupil.fixed p with
  | Some (FixedSeat sid) => if JS.truthy sid then Some sid else None
  | Some (FixedRC r c) => mapGet (keyRC r c) (seats room)
  | None => None
  end.

(** Every entry is a used seat of the room, and no seat is used twice. *)
Definition placedInv (room : Room) (st : gmap string string * gset string) : Prop :=
  injective st.1 ∧
  (∀ p s, st.1 !! p = Some s → s ∈ st.2) ∧
  (∀ s, s ∈ st.2 → s ∈ allSeatIds room).

(** Every entry is a seat in use, and no seat is handed out twice. *)
Definition keptInv (st : gmap string string * gset string) : Prop :=
  injective st.1 ∧ (∀ k s, st.1 !! k = Some s → s ∈ st.2).

(** Where an entry of the cleaned map comes from. *)
Definition keptFrom (room : Room) (fixed assign : gmap string string) (k s : string) : Prop :=
  fixed !! k = Some s ∨
  (fixed !! k = None ∧ assign !! k = Some s ∧ s ≠ "" ∧ s ∈ allSeatIds room).

(** The seat a pupil asks the second loop of repair for: the one it
    declares, else the one it had. *)
Definition claimOf (fixed assign : gmap string string) (k : string) : option string :=
  match fixed !! k with
  | Some sid => Some sid
  | None => assign !! k
  end.

(** No seat is handed out twice while the free seats are dealt. *)
Definition filledInv (free : list string) (used : gset string)
    (st : gmap string string * nat) : Prop :=
  injective st.1 ∧ (∀ k s, st.1 !! k = Some s → s ∈ used ∨ s ∈ take st.2 free).

(** Every fixed pupil sits on the seat it declares. *)
Definition fixedInPlace (room : Room) (pupils : list Pupil.t) (m : gmap string string) : Prop :=
  ∀ p, p ∈ pupils → isFixedPupil p = true →
       ∃ sid, resolvedSeat room p = Some sid ∧ m !! Pupil.id p = Some sid.

(** An assignment as the specification calls it valid: every pupil has a
    seat, no two pupils have the same, and every fixed pupil has the seat
    it declares. *)
Definition validAssignment (room : Room) (pupils : list Pupil.t) (a : gmap string string)
  : Prop :=
  (∀ p, p ∈ pupils → is_Some (a !! Pupil.id p)) ∧
  injective a ∧
  fixedInPlace room pupils a.

(** The seats of the pupils that are not fixed are seats of the room. *)
Definition seatsInRoom (room : Room) (pupils : list Pupil.t) (a : gmap string string)
  : Prop :=
  ∀ p sid, p ∈ pupils → isFixedPupil p = false → a !! Pupil.id p = Some sid →
           sid ∈ allSeatIds room.

(** The two characters of a number below 100. *)
Definition twoDigits (n : Z) : string :=
  String (ascii_of_nat (48 + Z.to_nat (n / 10)))
    (String (ascii_of_nat (48 + Z.to_nat (n mod 10))) EmptyString).

(** The seats of a room drawn tile by tile inside rows and columns 0..99:
    one entry per coordinate, each with the identifier of its coordinate. *)
Definition drawnRoom (room : Room) : Prop :=
  NoDup (seats room).*1 ∧
  ∀ k v, (k, v) ∈ seats room →
         (0 <= k.1 <= 99 ∧ 0 <= k.2 <= 99) ∧ v = seatIdFor k.1 k.2.

Definition sumZ (l : list Z) : Z := foldr Z.add 0 l.

(** What a rule adds to the total, and the value of [p] behind it. *)
Definition contribution (room : Room) (pupils : list Pupil.t) (assign : gmap string string)
    (rule : Rule.t) : Z :=
  rulePenalty rule assign (pupilsByIdValues pupils) (teacherTilesOf room).

Definition violation (room : Room) (pupils : list Pupil.t) (assign : gmap string string)
    (rule : Rule.t) : Z :=
  rawPenalty rule assign (pupilsByIdValues pupils) (teacherTilesOf room).

(** The room of [initDefaultMap], cut down to two rows of three tiles: a
    teacher tile in front, seats behind. *)
Definition frontRoom : Room :=
  ensureSeat 1 2 (ensureSeat 1 1 (ensureSeat 1 0
    {| rows := 2; cols := 3; cell := 42; blocked := []; teacher := [keyRC 0 1]; seats := [] |})).

(** Two rows of three tiles: a teacher tile at (1,0), four seats. *)
Definition demoRoom : Room :=
  ensureSeat 0 2 (ensureSeat 1 1 (ensureSeat 0 0 (ensureSeat 0 1
    {| rows := 2; cols := 3; cell := 42; blocked := []; teacher := [keyRC 1 0]; seats := [] |}))).

Definition demoPupils : list Pupil.t :=
  [Pupil.mk "A" ["x"] None; Pupil.mk "B" [] (Some (FixedRC 0 1)); Pupil.mk "C" [] None].

Definition demoRules : list Rule.t :=
  [Rule.mk "MinDistance" true None "A" "C" 2 None "" 0 0 0 0 [] "";
   Rule.mk "PreferFront" false (Some 3) "" "" 0 None "A" 1 0 0 0 [] ""].

(** A room with the single seat (0,0). *)
Definition oneSeatRoom : Room :=
  ensureSeat 0 0
    {| rows := 1; cols := 1; cell := 42; blocked := []; teacher := []; seats := [] |}.

(** A soft rule of weight zero. *)
Definition lateRule : Rule.t :=
  Rule.mk "PreferFront" false (Some 0) "" "" 0 None "A" 1 0 0 0 [] "".

(** Two pupils side by side in the front row. *)
Definition abPupils : list Pupil.t := [Pupil.mk "A" [] None; Pupil.mk "B" [] None].

Definition abPlan : gmap string string := {[ "A" := "S00_00"; "B" := "S00_01" ]}.

(** Rules that want them as far apart as a 32-bit number allows: a hard
    one, and a soft one of the largest weight. *)
Definition farApartHard : Rule.t :=
  Rule.mk "MinDistance" true None "A" "B" 2147483647 None "" 0 0 0 0 [] "".

Definition farApartSoft : Rule.t :=
  Rule.mk "MinDistance" false (Some 2147483647) "A" "B" 2147483647 None "" 0 0 0 0 [] "".

Definition notAdjacentSoft : Rule.t :=
  Rule.mk "NotAdjacent" false None "A" "B" 0 None "" 0 0 0 0 [] "".

Definition farApartRules : list Rule.t :=
  [farApartHard; farApartHard; farApartHard; farApartHard; farApartHard; notAdjacentSoft].

(** The generator state after [n] draws. *)
Definition draws (n : nat) (rng : Z) : Z := Nat.iter n (fun a => (rngNext a).2) rng.

(** A run of clicks, each with its tool and tile. *)
Definition applyClicks (clicks : list (tool * Z * Z)) (room : Room) : Room :=
  foldl (fun room click => classify click.1.1 click.1.2 click.2 room) room clicks.

(** A blocked tile is neither a seat nor a teacher tile. *)
Definition blockedApart (room : Room) : Prop :=
  ∀ k, k ∈ blocked room → (k ∉ (seats room).*1) ∧ (k ∉ teacher room).

(** The two sets and the map hold every key once, as a [Set] and a [Map]
    do. *)
Definition keysOnce (room : Room) : Prop :=
  NoDup (blocked room) ∧ NoDup (teacher room) ∧ NoDup (seats room).*1.

(** The rule types the engine knows. *)
Definition ruleTypes : list string :=
  ["MinDistance"; "MaxDistance"; "NotAdjacent"; "PreferFront"; "PreferAwayFromTeacher";
   "MustBeInRows"; "MustBeInSeats"; "TagSeparation"].

(** Front to back, then left to right; an identifier that is not of the
    form [Srr_cc] comes after every one that is. *)
Definition seatBefore (x y : string) : Prop :=
  match seatPosById x, seatPosById y with
  | Some a, Some b => pos_r a < pos_r b ∨ (pos_r a = pos_r b ∧ pos_c a <= pos_c b)
  | Some _, None => True
  | None, Some _ => False
  | None, None => True
  end.

(** No two fixed pupils declare the same seat, and every fixed pupil
    declares a seat of the room. *)
Definition fixedConsistent (room : Room) (pupils : list Pupil.t) : Prop :=
  NoDup (omap (resolvedSeat room) pupils) ∧
  ∀ p, p ∈ pupils → isFixedPupil p = true →
       ∃ sid, resolvedSeat room p = Some sid ∧ sid ∈ allSeatIds room.

(** A fixed pupil, as the specification has it: a pupil that declares a
    seat, by its identifier or by its coordinate. *)
Definition declaresSeat (p : Pupil.t) : Prop :=
  match Pupil.fixed p with
  | Some (FixedSeat sid) => sid ≠ ""
  | Some (FixedRC _ _) => True
  | None => False
  end.

(** Every pupil that declares a seat sits on it. *)
Definition declaredInPlace (room : Room) (pupils : list Pupil.t) (m : gmap string string)
  : Prop :=
  ∀ p, p ∈ pupils → declaresSeat p →
       ∃ sid, resolvedSeat room p = Some sid ∧ m !! Pupil.id p = Some sid.

(** A room as a file can describe it: two tiles with one identifier. *)
Definition twinRoom : Room :=
  importRoom {| doc_rows := 1; doc_cols := 2; doc_cell := 42; doc_blocked := [];
                doc_teacher := [];
                doc_seats := [(keyRC 0 0, "S00_00"); (keyRC 0 1, "S00_00")] |}.

(** A room as a file can describe it: a tile with the empty identifier. *)
Definition blankRoom : Room :=
  importRoom {| doc_rows := 1; doc_cols := 2; doc_cell := 42; doc_blocked := [];
                doc_teacher := [];
                doc_seats := [(keyRC 0 0, ""); (keyRC 0 1, "S00_01")] |}.

(** The row a seat identifier names, if it names a tile. *)
Definition rowOf (s : string) : option Z := pos_r <$> seatPosById s.

(** Four pupils with nothing fixed and no tags. *)
Definition fourPupils : list Pupil.t :=
  [Pupil.mk "A" [] None; Pupil.mk "B" [] None; Pupil.mk "C" [] None; Pupil.mk "D" [] None].


(** The assignment seats every pupil of the list, and nobody else. *)
Definition seatsThePupils (pupils : list Pupil.t) (m : gmap string string) : Prop :=
  (∀ p, p ∈ pupils → seated m (Pupil.id p) = true) ∧
  (∀ k, is_Some (m !! k) → k ∈ Pupil.id <$> pupils).

(** * Properties *)

(** ** Numbers *)
Module JSFacts.
Import JS.

Lemma toUint32_range x : 0 <= toUint32 x < two32.
Proof. unfold toUint32, two32. apply Z.mod_pos_bound. lia. Qed.

(** [x | 0] leaves a 32-bit integer as it is. *)
Lemma toInt32_small x : -2147483648 <= x < 2147483648 → toInt32 x = x.
Proof.
  intros Hx. unfold toInt32, two32. rewrite Z.mod_small by lia. lia.
Qed.

Lemma imul_range x y : 0 <= imul x y < two32.
Proof. apply toUint32_range. Qed.

Lemma lt_two32_log2 x : 0 < x -> (x < two32 <-> Z.log2 x < 32).
Proof.
  intros Hx. change two32 with (2 ^ 32). split; intros H.
  - apply Z.log2_lt_pow2; lia.
  - apply Z.log2_lt_pow2 in H; lia.
Qed.

Lemma lxor_range x y :
  0 <= x < two32 -> 0 <= y < two32 -> 0 <= Z.lxor x y < two32.
Proof.
  intros Hx Hy.
  assert (Hnn : 0 <= Z.lxor x y) by (apply Z.lxor_nonneg; lia).
  split; [exact Hnn|].
  destruct (Z.eq_dec (Z.lxor x y) 0) as [->|Hne]; [reflexivity|].
  apply lt_two32_log2; [lia|].
  pose proof (Z.log2_lxor x y ltac:(lia) ltac:(lia)) as Hl.
  assert (Z.log2 x < 32).
  { destruct (Z.eq_dec x 0) as [->|]; [simpl; lia|]. apply lt_two32_log2; lia. }
  assert (Z.log2 y < 32).
  { destruct (Z.eq_dec y 0) as [->|]; [simpl; lia|]. apply lt_two32_log2; lia. }
  lia.
Qed.

Lemma shiftr_range x n : 0 <= n -> 0 <= x < two32 -> 0 <= Z.shiftr x n < two32.
Proof.
  intros Hn Hx. rewrite Z.shiftr_div_pow2 by lia.
  assert (0 < 2 ^ n) by (apply Z.pow_pos_nonneg; lia).
  split; [apply Z.div_pos; lia|].
  apply Z.le_lt_trans with x; [|lia].
  apply Z.div_le_upper_bound; [lia|]. nia.
Qed.

Lemma round53_small x : Z.log2 x + 1 <= 53 -> round53 x = x.
Proof. intros H. unfold round53. cbv zeta. destruct (Z.leb_spec (Z.log2 x + 1) 53); [reflexivity|lia]. Qed.

(** Rounding moves a value by at most half the spacing of the doubles
    around it, and never below zero. *)
Lemma round53_bounds x :
  0 <= x ->
  53 < Z.log2 x + 1 ->
  0 <= round53 x <= x + 2 ^ (Z.log2 x - 53).
Proof.
  intros Hx Hlen. unfold round53. cbv zeta.
  destruct (Z.leb_spec (Z.log2 x + 1) 53) as [|_]; [lia|].
  set (sh := Z.log2 x + 1 - 53).
  assert (Hsh : 1 <= sh) by (unfold sh; lia).
  rewrite Z.shiftr_div_pow2 by lia.
  rewrite Z.land_ones by lia.
  rewrite !Z.shiftl_mul_pow2 by lia.
  assert (Hp : 0 < 2 ^ sh) by (apply Z.pow_pos_nonneg; lia).
  assert (Hhalf : 2 ^ sh = 2 * 2 ^ (sh - 1)).
  { replace sh with (Z.succ (sh - 1)) at 1 by lia. rewrite Z.pow_succ_r by lia. reflexivity. }
  replace (Z.log2 x - 53) with (sh - 1) by (unfold sh; lia).
  pose proof (Z.div_mod x (2 ^ sh) ltac:(lia)) as Hdm.
  pose proof (Z.mod_pos_bound x (2 ^ sh) Hp) as Hm.
  assert (0 <= x / 2 ^ sh) by (apply Z.div_pos; lia).
  rewrite Z.mul_1_l.
  destruct ((2 ^ (sh - 1) <? x mod 2 ^ sh) || ((x mod 2 ^ sh =? 2 ^ (sh - 1)) && Z.odd (x / 2 ^ sh)))
    eqn:Hup.
  - assert (2 ^ (sh - 1) <= x mod 2 ^ sh).
    { apply orb_prop in Hup as [Hup|Hup].
      - apply Z.ltb_lt in Hup. lia.
      - apply andb_prop in Hup as [Hup _]. apply Z.eqb_eq in Hup. lia. }
    nia.
  - nia.
Qed.

Lemma round53_nonneg x : 0 <= x -> 0 <= round53 x.
Proof.
  intros Hx. destruct (Z_le_gt_dec (Z.log2 x + 1) 53).
  - rewrite round53_small; lia.
  - apply round53_bounds; lia.
Qed.

(** [Math.floor(rng() * k)] is an index below [k]. *)
Lemma floorMul_range n k :
  0 <= n < two32 -> 1 <= k -> 0 <= floorMul n k < k.
Proof.
  intros Hn Hk. unfold floorMul.
  assert (Hx : 0 <= n * k <= k * two32 - k) by (unfold two32 in *; nia).
  split.
  { apply Z.div_pos; [apply round53_nonneg; lia | unfold two32; lia]. }
  apply Z.div_lt_upper_bound; [unfold two32; lia|].
  destruct (Z_le_gt_dec (Z.log2 (n * k) + 1) 53) as [Hs|Hl].
  { rewrite round53_small by exact Hs. unfold two32 in *. lia. }
  pose proof (round53_bounds (n * k) ltac:(lia) ltac:(lia)) as [_ Hr].
  assert (Hlog : Z.log2 (n * k) <= Z.log2 k + 32).
  { transitivity (Z.log2 (k * 2 ^ 32)).
    - apply Z.log2_le_mono. change (2 ^ 32) with two32. lia.
    - rewrite Z.log2_mul_pow2 by lia. lia. }
  assert (Hpow : 2 ^ (Z.log2 (n * k) - 53) < k).
  { apply Z.le_lt_trans with (2 ^ (Z.log2 k - 21)).
    - apply Z.pow_le_mono_r; lia.
    - apply Z.lt_le_trans with (2 ^ Z.log2 k).
      + apply Z.pow_lt_mono_r; lia.
      + apply Z.log2_spec. lia. }
  lia.
Qed.

(** A value below [2^53] is a double. *)
Lemma round53_lt x : x < 2 ^ 53 -> round53 x = x.
Proof.
  intros Hx. apply round53_small.
  destruct (Z_le_gt_dec x 0) as [Hn|Hp].
  - rewrite Z.log2_nonpos by lia. lia.
  - assert (Z.log2 x < 53) by (apply Z.log2_lt_pow2; lia). lia.
Qed.

(** Rounding does not go below the power of two under the value. *)
Lemma round53_lower x : 0 <= x -> 53 < Z.log2 x + 1 -> 2 ^ Z.log2 x <= round53 x.
Proof.
  intros Hx Hlen.
  assert (Hpos : 0 < x).
  { destruct (Z_le_gt_dec x 0); [|lia]. rewrite Z.log2_nonpos in Hlen by lia. lia. }
  unfold round53. cbv zeta.
  destruct (Z.leb_spec (Z.log2 x + 1) 53) as [|_]; [lia|].
  set (sh := Z.log2 x + 1 - 53).
  assert (Hsh : 1 <= sh) by (unfold sh; lia).
  rewrite Z.shiftr_div_pow2 by lia.
  rewrite !Z.shiftl_mul_pow2 by lia.
  assert (Hp : 0 < 2 ^ sh) by (apply Z.pow_pos_nonneg; lia).
  assert (Hl : 2 ^ Z.log2 x = 2 ^ 52 * 2 ^ sh).
  { rewrite <-Z.pow_add_r by lia. f_equal. unfold sh. lia. }
  assert (Hq : 2 ^ 52 <= x / 2 ^ sh).
  { apply Z.div_le_lower_bound; [lia|]. rewrite Z.mul_comm, <-Hl. apply Z.log2_spec. lia. }
  rewrite Hl. destruct (_ || _); nia.
Qed.

(** A value that is at most some double below [2^53] stays so. *)
Lemma round53_ge m y : m <= 2 ^ 53 -> m <= y -> m <= round53 y.
Proof.
  intros Hm Hy. destruct (Z_le_gt_dec (Z.log2 y + 1) 53) as [Hs|Hl].
  - by rewrite round53_small.
  - destruct (Z_le_gt_dec y 0) as [Hn|Hp].
    { rewrite Z.log2_nonpos in Hl by lia. lia. }
    pose proof (round53_lower y ltac:(lia) ltac:(lia)) as Hr.
    assert (2 ^ 53 <= 2 ^ Z.log2 y) by (apply Z.pow_le_mono_r; lia).
    lia.
Qed.

Lemma round53_0 : round53 0 = 0.
Proof. reflexivity. Qed.

Lemma round53_pos x : 0 < x -> 0 < round53 x.
Proof. intros Hx. pose proof (round53_ge 1 x ltac:(lia) ltac:(lia)). lia. Qed.

Lemma round53_zero_iff x : 0 <= x -> round53 x = 0 ↔ x = 0.
Proof.
  intros Hx. split; [|by intros ->].
  intros H0. destruct (Z.eq_dec x 0) as [|Hne]; [done|].
  pose proof (round53_pos x ltac:(lia)). lia.
Qed.

(** A number with at most 53 significant bits is a double. *)
Lemma round53_multiple m e : 0 <= m < 2 ^ 53 -> 0 <= e -> round53 (m * 2 ^ e) = m * 2 ^ e.
Proof.
  intros Hm He. destruct (Z.eq_dec m 0) as [->|Hne]; [reflexivity|].
  assert (Hlm : Z.log2 m < 53) by (apply Z.log2_lt_pow2; lia).
  pose proof (Z.log2_nonneg m) as Hl0.
  assert (Hlog : Z.log2 (m * 2 ^ e) = e + Z.log2 m) by (apply Z.log2_mul_pow2; lia).
  unfold round53. cbv zeta. rewrite Hlog.
  destruct (Z.leb_spec (e + Z.log2 m + 1) 53) as [|Hlen]; [reflexivity|].
  set (sh := e + Z.log2 m + 1 - 53).
  assert (Hsh : 1 <= sh <= e) by (unfold sh; lia).
  assert (Hp : 0 < 2 ^ sh) by (apply Z.pow_pos_nonneg; lia).
  assert (Hx : m * 2 ^ e = (m * 2 ^ (e - sh)) * 2 ^ sh).
  { rewrite <-Z.mul_assoc, <-Z.pow_add_r by lia. do 2 f_equal. lia. }
  assert (Hdiv : m * 2 ^ e / 2 ^ sh = m * 2 ^ (e - sh)) by (rewrite Hx; apply Z.div_mul; lia).
  assert (Hmod : (m * 2 ^ e) mod 2 ^ sh = 0) by (rewrite Hx; apply Z.mod_mul; lia).
  rewrite Z.shiftr_div_pow2, Z.land_ones, !Z.shiftl_mul_pow2 by lia.
  rewrite Hdiv, Hmod.
  assert (0 < 2 ^ (sh - 1)) by (apply Z.pow_pos_nonneg; lia).
  rewrite Z.mul_1_l.
  destruct (Z.ltb_spec (2 ^ (sh - 1)) 0); [lia|].
  destruct (Z.eqb_spec 0 (2 ^ (sh - 1))); [lia|]. cbn [orb andb]. lia.
Qed.

(** What rounding gives is a double. *)
Lemma round53_idem x : 0 <= x -> round53 (round53 x) = round53 x.
Proof.
  intros Hx. destruct (Z_le_gt_dec (Z.log2 x + 1) 53) as [Hs|Hlen].
  { by rewrite !(round53_small x). }
  assert (Hshape : exists m e, 0 <= m < 2 ^ 53 ∧ 0 <= e ∧ round53 x = m * 2 ^ e).
  { unfold round53. cbv zeta.
    destruct (Z.leb_spec (Z.log2 x + 1) 53) as [|_]; [lia|].
    set (sh := Z.log2 x + 1 - 53).
    assert (Hsh : 1 <= sh) by (unfold sh; lia).
    assert (Hp : 0 < 2 ^ sh) by (apply Z.pow_pos_nonneg; lia).
    rewrite Z.shiftr_div_pow2, !Z.shiftl_mul_pow2 by lia.
    assert (Hq : 0 <= x / 2 ^ sh < 2 ^ 53).
    { split; [apply Z.div_pos; lia|].
      apply Z.div_lt_upper_bound; [lia|].
      rewrite Z.mul_comm, <-Z.pow_add_r by lia.
      replace (53 + sh) with (Z.succ (Z.log2 x)) by (unfold sh; lia).
      apply Z.log2_spec. destruct (Z_le_gt_dec x 0); [|lia].
      rewrite Z.log2_nonpos in Hlen by lia. lia. }
    destruct (_ || _).
    - destruct (Z.eq_dec (x / 2 ^ sh + 1) (2 ^ 53)) as [Heq|Hne].
      + exists (2 ^ 52), (sh + 1). split; [lia|]. split; [lia|].
        rewrite Heq, Z.pow_add_r by lia. lia.
      + exists (x / 2 ^ sh + 1), sh. lia.
    - exists (x / 2 ^ sh), sh. lia. }
  destruct Hshape as (m & e & Hm & He & ->). by apply round53_multiple.
Qed.

Lemma dadd_nonneg x y : 0 <= x -> 0 <= y -> 0 <= dadd x y.
Proof. intros. apply round53_nonneg. lia. Qed.

Lemma dmul_nonneg x y : 0 <= x -> 0 <= y -> 0 <= dmul x y.
Proof. intros. apply round53_nonneg. nia. Qed.

Lemma dmul_ge x y : 0 < x -> 1 <= y <= 2147483647 -> y <= dmul x y.
Proof. intros. apply round53_ge; [lia|nia]. Qed.

Lemma dadd_zero_iff x y : 0 <= x -> 0 <= y -> dadd x y = 0 ↔ x = 0 ∧ y = 0.
Proof. intros. unfold dadd. rewrite round53_zero_iff by lia. lia. Qed.

End JSFacts.

Lemma rngNext_range a : 0 <= (rngNext a).1 < JS.two32.
Proof.
  unfold rngNext. cbv zeta. simpl.
  apply JSFacts.lxor_range.
  - apply JSFacts.lxor_range; [apply JSFacts.imul_range | apply JSFacts.toUint32_range].
  - apply JSFacts.shiftr_range; [lia|].
    apply JSFacts.lxor_range; [apply JSFacts.imul_range | apply JSFacts.toUint32_range].
Qed.

(** ** Shuffling and sorting rearrange, and nothing else *)

(** The index drawn for position [i] is a position up to [i]. *)
Lemma shuffle_index_le rng (i : nat) :
  (Z.to_nat (JS.floorMul (rngNext rng).1 (Z.of_nat i + 1)) <= i)%nat.
Proof.
  pose proof (JSFacts.floorMul_range (rngNext rng).1 (Z.of_nat i + 1)
                (rngNext_range rng) ltac:(lia)).
  lia.
Qed.

Section Rearrange.
Context {A : Type}.

Lemma swapAt_perm (i j : nat) (arr : list A) : swapAt i j arr ≡ₚ arr.
Proof.
  unfold swapAt.
  destruct (arr !! i) as [x|] eqn:Hi; [|reflexivity].
  destruct (arr !! j) as [y|] eqn:Hj; [|reflexivity].
  by apply Permutation_insert_swap.
Qed.

Lemma shuffleFrom_perm (i : nat) (arr : list A) (rng : Z) :
  (shuffleFrom i arr rng).1 ≡ₚ arr.
Proof.
  revert arr rng. induction i as [|i IH]; intros arr rng; [reflexivity|].
  cbn [shuffleFrom]. destruct (rngNext rng) as [u rng'].
  rewrite IH. apply swapAt_perm.
Qed.

Lemma shuffleInPlace_perm (arr : list A) (rng : Z) :
  (shuffleInPlace arr rng).1 ≡ₚ arr.
Proof. apply shuffleFrom_perm. Qed.

End Rearrange.

Lemma insertSeat_perm x l : insertSeat x l ≡ₚ x :: l.
Proof.
  induction l as [|y l IH]; [reflexivity|].
  cbn [insertSeat]. destruct (seatCompare x y <=? 0); [reflexivity|].
  rewrite IH. apply Permutation_swap.
Qed.

Lemma sortSeats_perm l : sortSeats l ≡ₚ l.
Proof.
  induction l as [|x l IH]; [reflexivity|].
  cbn [sortSeats foldr]. fold (sortSeats l). by rewrite insertSeat_perm, IH.
Qed.

Lemma shuffleRows_perm rounds free2 rng : (shuffleRows rounds free2 rng).1 ≡ₚ free2.
Proof.
  revert free2 rng. induction rounds as [|rounds IH]; intros free2 rng; [reflexivity|].
  destruct free2 as [|s0 rest]; [reflexivity|].
  cbn [shuffleRows].
  set (n := S (rowRun (seatPosById s0) rest)).
  pose proof (shuffleInPlace_perm (take n (s0 :: rest)) rng) as Hs.
  destruct (shuffleInPlace (take n (s0 :: rest)) rng) as [slice rng1].
  pose proof (IH (drop n (s0 :: rest)) rng1) as Ht.
  destruct (shuffleRows rounds (drop n (s0 :: rest)) rng1) as [tl rng2].
  cbn [fst] in *. rewrite Hs, Ht. by rewrite take_drop.
Qed.

(** ** Loops *)
Section ForEach.
Context {A S : Type} (body : A -> S -> outcome S).

Lemma forEach_app l1 l2 s :
  forEach body (l1 ++ l2) s = (s' ← forEach body l1 s; forEach body l2 s').
Proof.
  revert s. induction l1 as [|x l1 IH]; intros s; [reflexivity|].
  cbn [forEach app]. destruct (body x s) as [s1| |]; cbn; [apply IH|done..].
Qed.

(** An invariant kept by every round that returns holds at the end. *)
Lemma forEach_invariant (I : S -> Prop) l s s' :
  (∀ x t t', x ∈ l → I t → body x t = Ok t' → I t') →
  I s → forEach body l s = Ok s' → I s'.
Proof.
  revert s. induction l as [|x l IH]; intros s Hstep Hs Hrun.
  - cbn in Hrun. by simplify_eq.
  - cbn [forEach] in Hrun. destruct (body x s) as [t| |] eqn:Hb; cbn in Hrun; [|done..].
    apply (IH t); [|by eapply Hstep; [left|..]|done].
    intros y u u' Hy. apply Hstep. by right.
Qed.

(** A throw of the loop is the throw of one of its rounds. *)
Lemma forEach_Throw l s e :
  forEach body l s = Throw e → ∃ x t, x ∈ l ∧ body x t = Throw e.
Proof.
  revert s. induction l as [|x l IH]; intros s; [done|].
  cbn [forEach]. destruct (body x s) as [t| |] eqn:Hx; cbn.
  - intros (y & u & Hy & Hu)%IH. exists y, u. split; [by right|done].
  - intros ?; simplify_eq. exists x, s. split; [left|done].
  - done.
Qed.

(** A round that cannot return once [I] holds stops the loop, when [I]
    holds from the start and is kept. *)
Lemma forEach_blocked (I : S -> Prop) l s x :
  (∀ y t t', body y t = Ok t' → I t → I t') →
  (∀ t t', I t → body x t = Ok t' → False) →
  x ∈ l → I s → ∀ s', forEach body l s ≠ Ok s'.
Proof.
  intros Hkeep Hblock. revert s. induction l as [|y l IH]; intros s Hx Hs s' Hrun.
  { by apply elem_of_nil in Hx. }
  cbn [forEach] in Hrun. destruct (body y s) as [t| |] eqn:Hy; cbn in Hrun; [|done..].
  apply elem_of_cons in Hx as [->|Hx]; [by eapply Hblock|].
  eapply IH; [done| |done]. by eapply Hkeep.
Qed.

(** Two rounds that each bring [I] about and cannot return once it
    holds: the loop does not return. *)
Lemma forEach_clash (I : S -> Prop) l s p q :
  (∀ y t t', body y t = Ok t' → I t → I t') →
  (∀ t t', body p t = Ok t' → I t') →
  (∀ t t', body q t = Ok t' → I t') →
  (∀ t t', I t → body p t = Ok t' → False) →
  (∀ t t', I t → body q t = Ok t' → False) →
  p ∈ l → q ∈ l → p ≠ q → ∀ s', forEach body l s ≠ Ok s'.
Proof.
  intros Hkeep Hp Hq Hbp Hbq. revert s.
  induction l as [|y l IH]; intros s Hpl Hql Hpq s' Hrun.
  { by apply elem_of_nil in Hpl. }
  cbn [forEach] in Hrun. destruct (body y s) as [t| |] eqn:Hy; cbn in Hrun; [|done..].
  apply elem_of_cons in Hpl as [->|Hpl], Hql as [->|Hql]; [done| | |by eapply IH].
  - eapply (forEach_blocked I l t q); [done..| |done]. by eapply Hp.
  - eapply (forEach_blocked I l t p); [done..| |done]. by eapply Hq.
Qed.

Lemma forEach_never_out_of_fuel l s :
  (∀ x t, body x t ≠ OutOfFuel) → forEach body l s ≠ OutOfFuel.
Proof.
  intros Hb. revert s. induction l as [|x l IH]; intros s; [done|].
  cbn [forEach]. destruct (body x s) as [t| |] eqn:Hx; cbn; [apply IH|done|].
  by destruct (Hb x s).
Qed.

End ForEach.

(** ** Assignments as maps *)

Lemma injective_empty : injective ∅.
Proof. intros p q sid Hp. by rewrite lookup_empty in Hp. Qed.

Lemma injective_insert_fresh (assign : gmap string string) pid sid :
  injective assign →
  (∀ q, assign !! q ≠ Some sid) →
  injective (<[pid:=sid]> assign).
Proof.
  intros Hinj Hfresh p q s Hp Hq.
  rewrite lookup_insert in Hp. rewrite lookup_insert in Hq.
  destruct (decide (pid = p)), (decide (pid = q)); simplify_eq;
    first [done | by edestruct Hfresh | by eapply Hinj].
Qed.

(** *** Writing an entry of a plain object *)

Lemma objSet_cases k v (obj : gmap string string) :
  (k = "__proto__" ∧ objSet k v obj = obj) ∨ (k ≠ "__proto__" ∧ objSet k v obj = <[k:=v]> obj).
Proof. unfold objSet. case_decide; [by left|by right]. Qed.

Lemma objSet_plain k v (obj : gmap string string) :
  k ≠ "__proto__" → objSet k v obj = <[k:=v]> obj.
Proof. intros Hk. unfold objSet. by rewrite decide_False. Qed.

Lemma objSet_lookup_eq k v (obj : gmap string string) :
  k ≠ "__proto__" → objSet k v obj !! k = Some v.
Proof. intros Hk. rewrite objSet_plain by done. apply lookup_insert_eq. Qed.

Lemma objSet_lookup_ne k v (obj : gmap string string) q :
  k ≠ q → objSet k v obj !! q = obj !! q.
Proof. intros Hk. destruct (objSet_cases k v obj) as [[_ ->]|[_ ->]]; [done|by rewrite lookup_insert_ne]. Qed.

(** An entry of the object after the write is the one written or one
    it had. *)
Lemma objSet_lookup_Some k v (obj : gmap string string) q s :
  objSet k v obj !! q = Some s → (q = k ∧ s = v ∧ k ≠ "__proto__") ∨ (obj !! q = Some s).
Proof.
  destruct (objSet_cases k v obj) as [[_ ->]|[Hk ->]]; [by right|].
  rewrite lookup_insert. case_decide; intros ?; simplify_eq; [by left|by right].
Qed.

(** No write makes an entry named [__proto__]. *)
Lemma objSet_proto k v (obj : gmap string string) :
  objSet k v obj !! "__proto__" = obj !! "__proto__".
Proof.
  destruct (objSet_cases k v obj) as [[_ ->]|[Hk ->]]; [done|by rewrite lookup_insert_ne].
Qed.

Lemma injective_objSet_fresh (assign : gmap string string) pid sid :
  injective assign →
  (∀ q, assign !! q ≠ Some sid) →
  injective (objSet pid sid assign).
Proof.
  intros Hinj Hfresh. destruct (objSet_cases pid sid assign) as [[_ ->]|[_ ->]]; [done|].
  by apply injective_insert_fresh.
Qed.

(** A name that no object inherits is seated when it has an entry that
    is not empty. *)
Lemma seated_plain (assign : gmap string string) pid :
  pid ∉ protoNames →
  seated assign pid = true ↔ ∃ sid, assign !! pid = Some sid ∧ sid ≠ "".
Proof.
  intros Hp. unfold seated. destruct (assign !! pid) as [sid|].
  - destruct sid; cbn; split; [done|intros (? & ? & ?); by simplify_eq|intros _; by eexists|done].
  - rewrite bool_decide_eq_true. split; [done|]. by intros (? & ? & _).
Qed.

Lemma seated_false (assign : gmap string string) pid :
  seated assign pid = false →
  assign !! pid = Some "" ∨ (assign !! pid = None ∧ pid ∉ protoNames).
Proof.
  unfold seated. destruct (assign !! pid) as [sid|].
  - destruct sid; [by left|done].
  - rewrite bool_decide_eq_false. by right.
Qed.

Lemma proto_in_protoNames : "__proto__" ∈ protoNames.
Proof. apply (bool_decide_unpack _). by vm_compute. Qed.

Lemma not_protoNames_proto k : k ∉ protoNames → k ≠ "__proto__".
Proof. intros Hk ->. apply Hk, proto_in_protoNames. Qed.

Lemma swapSeats_lookup a b (cur : gmap string string) p :
  swapSeats a b cur !! p =
    if decide (p = b) then cur !! a else if decide (p = a) then cur !! b else cur !! p.
Proof.
  unfold swapSeats, setSeat.
  destruct (cur !! a) as [sa|] eqn:Ha, (cur !! b) as [sb|] eqn:Hb;
    repeat case_decide; simplify_eq;
    rewrite ?lookup_insert, ?lookup_delete; repeat case_decide; simplify_eq;
    rewrite ?lookup_insert, ?lookup_delete; repeat case_decide; simplify_eq; done.
Qed.

Lemma swapSeats_injective a b cur : injective cur → injective (swapSeats a b cur).
Proof.
  intros Hinj p q s. rewrite !swapSeats_lookup.
  repeat case_decide; simplify_eq; intros Hp Hq; try done;
    pose proof (Hinj _ _ _ Hp Hq); by simplify_eq.
Qed.

(** ** Fixed placements *)

Lemma truthy_nonempty s : JS.truthy s = true ↔ s ≠ "".
Proof. destruct s; cbn; split; congruence. Qed.

Lemma mapGet_values {K V} `{EqDecision K} (k : K) (m : list (K * V)) v :
  mapGet k m = Some v → v ∈ mapValues m.
Proof.
  unfold mapValues. induction m as [|[k' v'] m IH]; cbn; [done|].
  case_decide; intros ?; simplify_eq; [left|right; auto].
Qed.

Lemma setHas_true {K} `{EqDecision K} (k : K) s : setHas k s = true ↔ k ∈ s.
Proof. unfold setHas. apply bool_decide_eq_true. Qed.

Lemma resolvedSeat_fixed room p sid : resolvedSeat room p = Some sid → isFixedPupil p = true.
Proof.
  unfold resolvedSeat, isFixedPupil.
  destruct (Pupil.fixed p) as [[s|r c]|]; try done. by destruct (JS.truthy s).
Qed.

Lemma resolvedSeat_nonempty room p sid :
  "" ∉ allSeatIds room → resolvedSeat room p = Some sid → sid ≠ "".
Proof.
  intros Hne. unfold resolvedSeat.
  destruct (Pupil.fixed p) as [[s|r c]|]; [| |done].
  - destruct (JS.truthy s) eqn:Ht; [|done]. intros ?; simplify_eq. by apply truthy_nonempty.
  - intros Hg%mapGet_values ->. by apply Hne.
Qed.

Section BuilderFacts.
Variable room : Room.
#[local] Abbreviation seatIds := (allSeatIds room).

(** What one round of the loop over the fixed placements does when it
    does not throw. *)
Lemma placeFixed_Ok p st st' :
  placeFixed room seatIds p st = Ok st' →
  (isFixedPupil p = true ∧
     ∃ sid, resolvedSeat room p = Some sid ∧ sid ∈ seatIds ∧ (sid ∉ st.2) ∧
            st' = (objSet (Pupil.id p) sid st.1, {[sid]} ∪ st.2))
  ∨ (isFixedPupil p = false ∧ st' = st).
Proof.
  unfold placeFixed, isFixedPupil, resolvedSeat, rcToSeatId, claimFixed.
  destruct st as [assign used].
  destruct (Pupil.fixed p) as [[sid|r c]|]; cbn.
  - destruct (JS.truthy sid) eqn:Ht; [|intros; simplify_eq; by right].
    destruct (setHas sid seatIds) eqn:Hs; [|done].
    case_bool_decide; [done|]. intros; simplify_eq. left. split; [done|].
    exists sid. by apply setHas_true in Hs.
  - destruct (mapGet (keyRC r c) (seats room)) as [sid|] eqn:Hg; cbn; [|done].
    case_bool_decide; [done|]. intros; simplify_eq. left. split; [done|].
    exists sid. split_and!; try done. by eapply mapGet_values.
  - intros; simplify_eq. by right.
Qed.

Lemma placeFixed_fuel p st : placeFixed room seatIds p st ≠ OutOfFuel.
Proof.
  unfold placeFixed, rcToSeatId, claimFixed. destruct st as [assign used].
  destruct (Pupil.fixed p) as [[sid|r c]|]; cbn; try done.
  - repeat case_match; done.
  - destruct (mapGet _ _); cbn; [case_bool_decide|]; done.
Qed.

Lemma placedInv_empty : placedInv room (∅, ∅).
Proof.
  split_and!; cbn.
  - apply injective_empty.
  - intros p s. by rewrite lookup_empty.
  - set_solver.
Qed.

Lemma placeFixed_inv p st st' :
  placedInv room st → placeFixed room seatIds p st = Ok st' → placedInv room st'.
Proof.
  intros (Hinj & Hval & Hsub) [(_ & sid & _ & Hin & Hnew & ->)|[_ ->]]%placeFixed_Ok;
    [|done].
  split_and!; cbn.
  - apply injective_objSet_fresh; [done|]. intros q Hq. apply Hnew. by eapply Hval.
  - intros q s [(_ & -> & _)|Hq]%objSet_lookup_Some.
    + apply elem_of_union_l. by apply elem_of_singleton.
    + apply elem_of_union_r. by eapply Hval.
  - intros s [->%elem_of_singleton|?]%elem_of_union; auto.
Qed.

Lemma placeFixed_loop l st st' :
  NoDup (Pupil.id <$> l) →
  forEach (placeFixed room seatIds) l st = Ok st' →
  (∀ p, p ∈ l → isFixedPupil p = true → Pupil.id p ≠ "__proto__" →
        ∃ sid, resolvedSeat room p = Some sid ∧ st'.1 !! Pupil.id p = Some sid) ∧
  (∀ k, k ∉ Pupil.id <$> l → st'.1 !! k = st.1 !! k) ∧
  (∀ p, p ∈ l → isFixedPupil p = false → st'.1 !! Pupil.id p = st.1 !! Pupil.id p) ∧
  size st'.2 = (size st.2 + length (filter (fun p => isFixedPupil p = true) l))%nat.
Proof.
  revert st. induction l as [|p l IH]; intros st Hnd Hrun.
  { cbn in Hrun. simplify_eq. split_and!; try done.
    intros p Hp. by apply elem_of_nil in Hp. }
  cbn [forEach] in Hrun.
  destruct (placeFixed room seatIds p st) as [st1| |] eqn:Hp; cbn in Hrun; [|done..].
  rewrite fmap_cons in Hnd. apply NoDup_cons in Hnd as [Hpl Hnd].
  destruct (IH st1 Hnd Hrun) as (Hfix & Hother & Hfree & Hsize).
  apply placeFixed_Ok in Hp as [(Hf & sid & Hres & Hin & Hnew & ->)|[Hf ->]].
  - split_and!.
    + intros q [->|Hq]%elem_of_cons Hqf Hqn; [|by apply Hfix].
      exists sid. split; [done|]. rewrite Hother by done. cbn. by apply objSet_lookup_eq.
    + intros k Hk. rewrite fmap_cons, not_elem_of_cons in Hk. destruct Hk as [Hk1 Hk2].
      rewrite Hother by done. cbn. by rewrite objSet_lookup_ne.
    + intros q [->|Hq]%elem_of_cons Hqf; [congruence|].
      rewrite Hfree by done. cbn. rewrite objSet_lookup_ne; [done|].
      intros Heq. apply Hpl. rewrite Heq. by apply list_elem_of_fmap_2.
    + rewrite Hsize. cbn [snd]. rewrite filter_cons_True by done. cbn [length].
      rewrite size_union by (by apply disjoint_singleton_l). rewrite size_singleton. lia.
  - split_and!.
    + intros q [->|Hq]%elem_of_cons Hqf Hqn; [congruence|by apply Hfix].
    + intros k Hk. rewrite fmap_cons, not_elem_of_cons in Hk. destruct Hk as [Hk1 Hk2].
      by apply Hother.
    + intros q [->|Hq]%elem_of_cons Hqf; [|by apply Hfree].
      by apply Hother.
    + rewrite Hsize. rewrite filter_cons_False by congruence. done.
Qed.

End BuilderFacts.

(** ** Handing out free seats in order *)

Lemma assignInOrder_other pids free (assign : gmap string string) k :
  k ∉ pids → assignInOrder pids free assign !! k = assign !! k.
Proof.
  revert free assign. induction pids as [|pid pids IH]; intros free assign Hk; [done|].
  apply not_elem_of_cons in Hk as [Hk1 Hk2].
  destruct free as [|sid free]; [done|]. cbn [assignInOrder].
  rewrite IH by done. by rewrite objSet_lookup_ne.
Qed.

Lemma assignInOrder_lookup pids free (assign : gmap string string) k s :
  assignInOrder pids free assign !! k = Some s →
  assign !! k = Some s ∨ (k ∈ pids ∧ s ∈ take (length pids) free).
Proof.
  revert free assign. induction pids as [|pid pids IH]; intros free assign Hk; [by left|].
  destruct free as [|sid free]; [by left|]. cbn [assignInOrder] in Hk.
  apply IH in Hk as [Hk|[Hk1 Hk2]].
  - apply objSet_lookup_Some in Hk as [(-> & -> & _)|Hk].
    + right. split; [left|cbn; left].
    + by left.
  - right. split; [by right|cbn; by right].
Qed.

Lemma assignInOrder_injective pids free (assign : gmap string string) :
  NoDup free →
  injective assign →
  (∀ k s, assign !! k = Some s → s ∉ free) →
  injective (assignInOrder pids free assign).
Proof.
  revert free assign. induction pids as [|pid pids IH]; intros free assign Hnd Hinj Hfresh;
    [done|].
  destruct free as [|sid free]; [done|]. cbn [assignInOrder].
  apply NoDup_cons in Hnd as [Hsid Hnd].
  apply IH; [done| |].
  - apply injective_objSet_fresh; [done|].
    intros q Hq. apply (Hfresh _ _ Hq). left.
  - intros k s [(_ & -> & _)|Hk]%objSet_lookup_Some; [done|].
    intros Hin. apply (Hfresh _ _ Hk). by right.
Qed.

(** With enough seats, everybody in the list gets one. *)
Lemma assignInOrder_seated pids free (assign : gmap string string) k :
  (length pids <= length free)%nat →
  k ∈ pids → k ≠ "__proto__" →
  ∃ s, assignInOrder pids free assign !! k = Some s ∧ s ∈ take (length pids) free.
Proof.
  revert free assign. induction pids as [|pid pids IH]; intros free assign Hlen Hk Hkn.
  { by apply elem_of_nil in Hk. }
  destruct free as [|sid free]; [cbn in Hlen; lia|]. cbn [assignInOrder].
  destruct (decide (k ∈ pids)) as [Hin|Hnin].
  - destruct (IH free (objSet pid sid assign) ltac:(cbn in Hlen; lia) Hin Hkn) as (s & Hs & Hs').
    exists s. split; [done|]. cbn. by right.
  - apply elem_of_cons in Hk as [->|]; [|done].
    exists sid. rewrite assignInOrder_other by done.
    rewrite objSet_lookup_eq by done. split; [done|]. cbn. left.
Qed.

(** ** The builder *)
Section BuilderResults.
Variable room : Room.
Variable pupils : list Pupil.t.
#[local] Abbreviation seatIds := (allSeatIds room).

Lemma buildInitialAssignment_injective seed assign :
  NoDup seatIds →
  buildInitialAssignment room pupils seed = Ok assign →
  injective assign.
Proof.
  intros Hnd. unfold buildInitialAssignment.
  destruct (forEach _ pupils (∅, ∅)) as [[assign0 used]| |] eqn:Hloop; cbn; [|done..].
  pose proof (forEach_invariant _ (placedInv room) pupils _ _
                (fun p t t' _ => placeFixed_inv room p t t') (placedInv_empty room) Hloop)
    as (Hinj & Hval & Hsub). cbn in Hinj, Hval, Hsub.
  set (free := filter (fun s => s ∉ used) seatIds).
  set (remaining := filter (fun p => seated assign0 (Pupil.id p) = false) pupils).
  set (tagged := Pupil.id <$> filter (fun p => hasTags p = true) remaining).
  set (untagged := Pupil.id <$> filter (fun p => hasTags p = false) remaining).
  case_match; [done|].
  pose proof (shuffleInPlace_perm free (mulberry32 (JS.toUint32 seed))) as Hperm.
  destruct (shuffleInPlace free _) as [free1 rng1]. cbn [fst] in Hperm.
  set (free2 := sortSeats (drop (length tagged) free1)).
  pose proof (shuffleRows_perm (length free2) free2 rng1) as Hperm2.
  destruct (shuffleRows (length free2) free2 rng1) as [free3 rng2]. cbn [fst] in Hperm2.
  intros ?; simplify_eq.
  assert (Hfree : NoDup free) by (by apply NoDup_filter).
  assert (Hfree1 : NoDup free1) by (by rewrite Hperm).
  assert (Hnu : ∀ s, s ∈ free1 → s ∉ used).
  { intros s Hs. rewrite Hperm in Hs. by apply list_elem_of_filter in Hs as [? _]. }
  rewrite <-(take_drop (length tagged) free1) in Hfree1.
  apply NoDup_app in Hfree1 as (Htake & Hdisj & Hdrop).
  assert (Hfree3 : free3 ≡ₚ drop (length tagged) free1).
  { rewrite Hperm2. apply sortSeats_perm. }
  apply assignInOrder_injective.
  - by rewrite Hfree3.
  - apply assignInOrder_injective; [by rewrite Hperm|done|].
    intros k s Hk Hs. by apply (Hnu s), (Hval k).
  - intros k s Hk. rewrite Hfree3. intros Hs.
    apply assignInOrder_lookup in Hk as [Hk|[_ Hk]].
    + apply (Hnu s); [|by eapply Hval].
      rewrite <-(take_drop (length tagged) free1). apply elem_of_app. by right.
    + by apply (Hdisj s).
Qed.

Lemma buildInitialAssignment_fixed seed assign p :
  NoDup (Pupil.id <$> pupils) →
  "" ∉ seatIds →
  buildInitialAssignment room pupils seed = Ok assign →
  p ∈ pupils → isFixedPupil p = true → Pupil.id p ≠ "__proto__" →
  ∃ sid, resolvedSeat room p = Some sid ∧ assign !! Pupil.id p = Some sid.
Proof.
  intros Hids Hne. unfold buildInitialAssignment.
  destruct (forEach _ pupils (∅, ∅)) as [[assign0 used]| |] eqn:Hloop; cbn; [|done..].
  destruct (placeFixed_loop room pupils _ _ Hids Hloop) as (Hfix & _ & _ & _).
  pose proof (forEach_invariant _ (placedInv room) pupils _ _
                (fun p t t' _ => placeFixed_inv room p t t') (placedInv_empty room) Hloop)
    as (_ & Hval & Hsub). cbn in Hfix, Hval, Hsub.
  case_match; [done|].
  destruct (shuffleInPlace _ _) as [free1 rng1].
  destruct (shuffleRows _ _ rng1) as [free3 rng2].
  intros ? Hp Hpf Hpn; simplify_eq.
  destruct (Hfix p Hp Hpf Hpn) as (sid & Hres & Hsid). exists sid. split; [done|].
  assert (Hseated : seated assign0 (Pupil.id p) = true).
  { unfold seated. rewrite Hsid. apply truthy_nonempty. intros ->.
    apply Hne, Hsub. by eapply Hval. }
  assert (Hout : ∀ P : Pupil.t → Prop, ∀ HP : ∀ x, Decision (P x),
    Pupil.id p ∉ Pupil.id <$>
      filter P (filter (fun p => seated assign0 (Pupil.id p) = false) pupils)).
  { intros P HP (q & Hq & [_ [Hq' _]%list_elem_of_filter]%list_elem_of_filter)%list_elem_of_fmap.
    congruence. }
  rewrite !assignInOrder_other by apply Hout. done.
Qed.

(** The capacity check leaves a seat for every pupil: the two loops that
    hand out free seats never run past them. *)
Lemma buildInitialAssignment_total seed assign p :
  "" ∉ seatIds →
  buildInitialAssignment room pupils seed = Ok assign →
  p ∈ pupils → seated assign (Pupil.id p) = true.
Proof.
  intros Hne. unfold buildInitialAssignment.
  destruct (forEach _ pupils (∅, ∅)) as [[assign0 used]| |] eqn:Hloop; cbn -[Nat.ltb]; [|done..].
  pose proof (forEach_invariant _ (placedInv room) pupils _ _
                (fun p t t' _ => placeFixed_inv room p t t') (placedInv_empty room) Hloop)
    as (_ & Hval & Hsub). cbn in Hval, Hsub.
  set (free := filter (fun s => s ∉ used) seatIds).
  set (remaining := filter (fun p => seated assign0 (Pupil.id p) = false) pupils).
  set (tagged := Pupil.id <$> filter (fun p => hasTags p = true) remaining).
  set (untagged := Pupil.id <$> filter (fun p => hasTags p = false) remaining).
  destruct (length free <? length tagged + length untagged)%nat eqn:Hcap; [done|].
  apply Nat.ltb_ge in Hcap.
  pose proof (shuffleInPlace_perm free (mulberry32 (JS.toUint32 seed))) as Hperm.
  destruct (shuffleInPlace free _) as [free1 rng1]. cbn [fst] in Hperm.
  set (free2 := sortSeats (drop (length tagged) free1)).
  pose proof (shuffleRows_perm (length free2) free2 rng1) as Hperm2.
  destruct (shuffleRows (length free2) free2 rng1) as [free3 rng2]. cbn [fst] in Hperm2.
  intros ? Hp; simplify_eq.
  assert (Hlen1 : length free1 = length free) by (by rewrite Hperm).
  assert (Hlen3 : length free3 = (length free1 - length tagged)%nat).
  { rewrite Hperm2. unfold free2. rewrite sortSeats_perm. apply length_drop. }
  assert (Hin1 : ∀ s, s ∈ free1 → s ≠ "").
  { intros s Hs ->. rewrite Hperm in Hs. apply list_elem_of_filter in Hs as [_ Hs]. done. }
  assert (Hin3 : ∀ s, s ∈ free3 → s ≠ "").
  { intros s Hs. apply Hin1. rewrite Hperm2 in Hs. unfold free2 in Hs.
    rewrite sortSeats_perm in Hs. by eapply subseteq_drop. }
  assert (Htake : ∀ (x : string) n l, x ∈ take n l → x ∈ l).
  { intros x n l Hx. by eapply subseteq_take. }
  (* after the tagged pupils *)
  set (assign1 := assignInOrder tagged free1 assign0).
  assert (H1 : seated assign0 (Pupil.id p) = true ∨ Pupil.id p ∈ tagged ∨ Pupil.id p ∈ untagged).
  { destruct (seated assign0 (Pupil.id p)) eqn:Hs; [by left|right].
    destruct (hasTags p) eqn:Ht; [left|right];
      apply list_elem_of_fmap_2; apply list_elem_of_filter; split; try done;
      by apply list_elem_of_filter. }
  (* a pupil still to place has a name of its own *)
  assert (Hrem : ∀ (P : Pupil.t → Prop) (HP : ∀ x, Decision (P x)) k,
            k ∈ Pupil.id <$> filter P remaining → k ≠ "__proto__").
  { intros P HP k (q & -> & [_ [Hq _]%list_elem_of_filter]%list_elem_of_filter)%list_elem_of_fmap.
    apply seated_false in Hq as [Hq|[_ Hq]]; [|by apply not_protoNames_proto].
    destruct Hne. apply Hsub. by eapply Hval. }
  assert (Hseat1 : Pupil.id p ∉ untagged → seated assign1 (Pupil.id p) = true).
  { intros Hnu. destruct (decide (Pupil.id p ∈ tagged)) as [Hin|Hnin].
    - destruct (assignInOrder_seated tagged free1 assign0 _ ltac:(lia) Hin (Hrem _ _ _ Hin))
        as (s & Hs & Hs').
      unfold seated, assign1. rewrite Hs. apply truthy_nonempty, Hin1. by eapply Htake.
    - unfold seated, assign1. rewrite assignInOrder_other by done.
      destruct H1 as [?|[?|?]]; done. }
  destruct (decide (Pupil.id p ∈ untagged)) as [Hin|Hnin].
  - destruct (assignInOrder_seated untagged free3 assign1 _ ltac:(lia) Hin (Hrem _ _ _ Hin))
      as (s & Hs & Hs').
    unfold seated. fold assign1. rewrite Hs. apply truthy_nonempty, Hin3. by eapply Htake.
  - unfold seated. fold assign1. rewrite assignInOrder_other by done. by apply Hseat1.
Qed.

End BuilderResults.

(** ** Repair, loop by loop *)
Section RepairFacts.
Variable room : Room.
#[local] Abbreviation seatIds := (allSeatIds room).

(** *** The "apply fixed" loop *)

Lemma resolveFixed_Ok p fixed fixed' :
  resolveFixed room p fixed = Ok fixed' →
  match resolvedSeat room p with
  | Some sid => fixed' = <[Pupil.id p:=sid]> fixed
  | None => isFixedPupil p = false ∧ fixed' = fixed
  end.
Proof.
  unfold resolveFixed, resolvedSeat, isFixedPupil.
  destruct (Pupil.fixed p) as [[sid|r c]|].
  - destruct (JS.truthy sid); intros; by simplify_eq.
  - destruct (mapGet _ _); intros; by simplify_eq.
  - intros; by simplify_eq.
Qed.

Lemma resolveFixed_fuel p fixed : resolveFixed room p fixed ≠ OutOfFuel.
Proof. unfold resolveFixed. repeat case_match; done. Qed.

Lemma resolveFixed_loop l fixed fixed' :
  NoDup (Pupil.id <$> l) →
  forEach (resolveFixed room) l fixed = Ok fixed' →
  (∀ p, p ∈ l → fixed' !! Pupil.id p = resolvedSeat room p ∨
                 (resolvedSeat room p = None ∧ isFixedPupil p = false ∧
                  fixed' !! Pupil.id p = fixed !! Pupil.id p)) ∧
  (∀ k, k ∉ Pupil.id <$> l → fixed' !! k = fixed !! k).
Proof.
  revert fixed. induction l as [|p l IH]; intros fixed Hnd Hrun.
  { cbn in Hrun. simplify_eq. split; [|done]. intros p Hp. by apply elem_of_nil in Hp. }
  cbn [forEach] in Hrun.
  destruct (resolveFixed room p fixed) as [fixed1| |] eqn:Hp; cbn in Hrun; [|done..].
  rewrite fmap_cons in Hnd. apply NoDup_cons in Hnd as [Hpl Hnd].
  destruct (IH fixed1 Hnd Hrun) as (Hin & Hout).
  apply resolveFixed_Ok in Hp. split.
  - intros q [->|Hq]%elem_of_cons.
    + rewrite Hout by done. destruct (resolvedSeat room p) as [sid|].
      * subst. left. apply lookup_insert_eq.
      * destruct Hp as [? ->]. by right.
    + destruct (Hin q Hq) as [?|(? & ? & Hsame)]; [by left|right].
      split_and!; try done. rewrite Hsame.
      assert (Pupil.id p ≠ Pupil.id q).
      { intros Heq. apply Hpl. rewrite Heq. by apply list_elem_of_fmap_2. }
      destruct (resolvedSeat room p); [subst; by rewrite lookup_insert_ne|by destruct Hp as [_ ->]].
  - intros k Hk. rewrite fmap_cons, not_elem_of_cons in Hk. destruct Hk as [Hk1 Hk2].
    rewrite Hout by done.
    destruct (resolvedSeat room p); [subst; by rewrite lookup_insert_ne|by destruct Hp as [_ ->]].
Qed.

(** The map of the fixed pupils, read off the pupil list. *)
Lemma resolveFixed_all pupils fixed :
  NoDup (Pupil.id <$> pupils) →
  forEach (resolveFixed room) pupils ∅ = Ok fixed →
  (∀ p, p ∈ pupils → fixed !! Pupil.id p = resolvedSeat room p) ∧
  (∀ p, p ∈ pupils → isFixedPupil p = true → is_Some (resolvedSeat room p)) ∧
  (∀ k, k ∉ Pupil.id <$> pupils → fixed !! k = None).
Proof.
  intros Hnd Hrun. destruct (resolveFixed_loop _ _ _ Hnd Hrun) as [Hin Hout].
  split_and!.
  - intros p Hp. destruct (Hin p Hp) as [?|(-> & _ & ->)]; [done|apply lookup_empty].
  - intros p Hp Hf. destruct (Hin p Hp) as [Heq|(_ & ? & _)]; [|congruence].
    destruct (resolvedSeat room p) eqn:Hr; [done|].
    (* a fixed pupil that does not resolve stops the loop *)
    exfalso. clear Hin Hout Heq. revert fixed Hrun. generalize (∅ : gmap string string).
    induction pupils as [|q l IH]; intros f0 fixed Hrun; [by apply elem_of_nil in Hp|].
    cbn [forEach] in Hrun.
    destruct (resolveFixed room q f0) as [f1| |] eqn:Hq; cbn in Hrun; [|done..].
    rewrite fmap_cons in Hnd. apply NoDup_cons in Hnd as [_ Hnd].
    apply elem_of_cons in Hp as [->|Hp]; [|by eapply IH].
    apply resolveFixed_Ok in Hq. rewrite Hr in Hq. destruct Hq. congruence.
  - intros k Hk. rewrite Hout by done. apply lookup_empty.
Qed.

(** *** The "clear duplicates & invalid seats" loop *)
Variables fixed assign : gmap string string.

Lemma keepSeat_Ok p st st' :
  keepSeat seatIds fixed assign p st = Ok st' →
  (∃ sid, (sid ∉ st.2) ∧ st' = (objSet (Pupil.id p) sid st.1, {[sid]} ∪ st.2) ∧
          (fixed !! Pupil.id p = Some sid ∨
           (fixed !! Pupil.id p = None ∧ assign !! Pupil.id p = Some sid ∧
            sid ≠ "" ∧ sid ∈ seatIds)))
  ∨ (st' = st ∧ fixed !! Pupil.id p = None ∧
     ∀ sid, assign !! Pupil.id p = Some sid → sid ≠ "" → sid ∈ seatIds → sid ∈ st.2).
Proof.
  unfold keepSeat. destruct st as [clean used]. cbn [fst snd].
  destruct (fixed !! Pupil.id p) as [sid|] eqn:Hf.
  { case_bool_decide; [done|]. intros; simplify_eq. left. exists sid. auto. }
  destruct (assign !! Pupil.id p) as [sid|] eqn:Ha.
  2:{ intros; simplify_eq. right. split_and!; try done. }
  destruct (JS.truthy sid) eqn:Ht; cbn.
  2:{ intros; simplify_eq. right. split_and!; try done.
      intros s ? Hs; simplify_eq. apply truthy_nonempty in Hs. congruence. }
  destruct (setHas sid seatIds) eqn:Hs; cbn.
  2:{ intros; simplify_eq. right. split_and!; try done.
      intros s ? _ Hin; simplify_eq. apply setHas_true in Hin. congruence. }
  case_bool_decide as Hu; cbn; intros; simplify_eq.
  - right. split_and!; try done. by intros s ? _ _; simplify_eq.
  - left. exists sid. split_and!; try done. right.
    split_and!; try done; [by apply truthy_nonempty|by apply setHas_true].
Qed.

Lemma keepSeat_fuel p st : keepSeat seatIds fixed assign p st ≠ OutOfFuel.
Proof. unfold keepSeat. destruct st. repeat case_match; done. Qed.

Lemma keptInv_empty : keptInv (∅, ∅).
Proof.
  split; cbn; [apply injective_empty|]. intros k s. by rewrite lookup_empty.
Qed.

Lemma keepSeat_inv p st st' :
  keptInv st → keepSeat seatIds fixed assign p st = Ok st' → keptInv st'.
Proof.
  intros (Hinj & Hval) [(sid & Hnew & -> & _)|(-> & _)]%keepSeat_Ok; [|done].
  split; cbn.
  - apply injective_objSet_fresh; [done|]. intros q Hq. apply Hnew. by eapply Hval.
  - intros q s [(_ & -> & _)|Hq]%objSet_lookup_Some.
    + apply elem_of_union_l. by apply elem_of_singleton.
    + apply elem_of_union_r. by eapply Hval.
Qed.

(** The loop makes no entry named [__proto__]. *)
Lemma keepSeat_proto p st st' :
  keepSeat seatIds fixed assign p st = Ok st' → st'.1 !! "__proto__" = st.1 !! "__proto__".
Proof. intros [(sid & _ & -> & _)|(-> & _)]%keepSeat_Ok; [apply objSet_proto|done]. Qed.

(** A seat in use that no entry holds stays so. *)
Lemma keepSeat_claimed sid p st st' :
  (sid ∈ st.2 ∧ ∀ k, st.1 !! k ≠ Some sid) →
  keepSeat seatIds fixed assign p st = Ok st' →
  sid ∈ st'.2 ∧ ∀ k, st'.1 !! k ≠ Some sid.
Proof.
  intros [Hin Hno] [(s & Hnew & -> & _)|(-> & _)]%keepSeat_Ok; [|done]. cbn. split.
  - by apply elem_of_union_r.
  - intros k [(_ & -> & _)|Hk]%objSet_lookup_Some; [done|by eapply Hno].
Qed.

(** The seat of a fixed pupil named [__proto__] is taken, and nobody
    has it. *)
Lemma keepSeat_proto_claim l st st' p sid :
  keptInv st →
  forEach (keepSeat seatIds fixed assign) l st = Ok st' →
  p ∈ l → Pupil.id p = "__proto__" → fixed !! "__proto__" = Some sid →
  sid ∈ st'.2 ∧ ∀ k, st'.1 !! k ≠ Some sid.
Proof.
  intros Hinv Hrun Hp Hid Hf.
  apply list_elem_of_split in Hp as (l1 & l2 & ->).
  rewrite forEach_app in Hrun.
  destruct (forEach _ l1 st) as [st1| |] eqn:H1; cbn in Hrun; [|done..].
  cbn [forEach] in Hrun.
  destruct (keepSeat seatIds fixed assign p st1) as [st2| |] eqn:H2; cbn in Hrun; [|done..].
  pose proof (forEach_invariant _ keptInv l1 _ _
                (fun p t t' _ => keepSeat_inv p t t') Hinv H1) as [_ Hval1].
  apply (forEach_invariant (keepSeat seatIds fixed assign)
           (fun st => sid ∈ st.2 ∧ ∀ k, st.1 !! k ≠ Some sid) l2 st2 st');
    [intros x t t' _; apply keepSeat_claimed| |done].
  apply keepSeat_Ok in H2 as [(s & Hnew & -> & Hsrc)|(-> & Hnf & _)].
  - rewrite Hid in *. destruct Hsrc as [?|[? _]]; [|congruence]. simplify_eq. cbn. split.
    + apply elem_of_union_l. by apply elem_of_singleton.
    + unfold objSet. cbn. intros k Hk. apply Hnew. by eapply Hval1.
  - rewrite Hid in Hnf. congruence.
Qed.

Lemma keepSeat_loop l st st' :
  NoDup (Pupil.id <$> l) →
  forEach (keepSeat seatIds fixed assign) l st = Ok st' →
  (∀ k, k ∉ Pupil.id <$> l → st'.1 !! k = st.1 !! k) ∧
  (∀ k s, st'.1 !! k = Some s → st.1 !! k = Some s ∨ (k ∈ Pupil.id <$> l ∧ keptFrom room fixed assign k s)) ∧
  (∀ p sid, p ∈ l → fixed !! Pupil.id p = Some sid → Pupil.id p ≠ "__proto__" →
            st'.1 !! Pupil.id p = Some sid) ∧
  (∀ s, s ∈ st'.2 →
        s ∈ st.2 ∨ ∃ q, q ∈ l ∧ keptFrom room fixed assign (Pupil.id q) s ∧
                        (Pupil.id q ≠ "__proto__" → st'.1 !! Pupil.id q = Some s)).
Proof.
  revert st. induction l as [|p l IH]; intros st Hnd Hrun.
  { cbn in Hrun. simplify_eq. split_and!; auto.
    intros p sid Hp. by apply elem_of_nil in Hp. }
  cbn [forEach] in Hrun.
  destruct (keepSeat seatIds fixed assign p st) as [st1| |] eqn:Hp; cbn in Hrun; [|done..].
  rewrite fmap_cons in Hnd. apply NoDup_cons in Hnd as [Hpl Hnd].
  destruct (IH st1 Hnd Hrun) as (Hout & Hfrom & Hfix & Hused).
  assert (Hne : ∀ q, q ∈ l → Pupil.id p ≠ Pupil.id q).
  { intros q Hq Heq. apply Hpl. rewrite Heq. by apply list_elem_of_fmap_2. }
  apply keepSeat_Ok in Hp as [(sid & Hnew & -> & Hsrc)|(-> & Hnf & Hskip)]; cbn [fst snd] in *.
  - split_and!.
    + intros k Hk. rewrite fmap_cons, not_elem_of_cons in Hk. destruct Hk as [Hk1 Hk2].
      rewrite Hout by done. by rewrite objSet_lookup_ne.
    + intros k s Hk. apply Hfrom in Hk as [Hk|[Hk1 Hk2]].
      * apply objSet_lookup_Some in Hk as [(-> & -> & _)|Hk]; [|by left].
        right. split; [rewrite fmap_cons; left|done].
      * right. split; [rewrite fmap_cons; by right|done].
    + intros q s [->|Hq]%elem_of_cons Hqf Hqn; [|by eapply Hfix].
      rewrite Hout by done. rewrite objSet_lookup_eq by done.
      destruct Hsrc as [?|[? _]]; congruence.
    + intros s Hs. apply Hused in Hs as [Hs|(q & Hq & Hqs)].
      * apply elem_of_union in Hs as [->%elem_of_singleton|Hs]; [|by left].
        right. exists p. split; [left|]. split; [done|]. intros Hpn.
        rewrite Hout by done. by rewrite objSet_lookup_eq.
      * right. exists q. split; [by right|done].
  - split_and!.
    + intros k Hk. rewrite fmap_cons, not_elem_of_cons in Hk. destruct Hk as [Hk1 Hk2].
      by apply Hout.
    + intros k s Hk. apply Hfrom in Hk as [Hk|[Hk1 Hk2]]; [by left|].
      right. split; [rewrite fmap_cons; by right|done].
    + intros q s [->|Hq]%elem_of_cons Hqf Hqn; [congruence|by eapply Hfix].
    + intros s Hs. apply Hused in Hs as [Hs|(q & Hq & Hqs)]; [by left|].
      right. exists q. split; [by right|done].
Qed.

(** When the seats the pupils ask for differ, are seats of the room and
    are not in use, every pupil gets the seat it asks for, but for one
    named [__proto__], which gets no entry. *)
Lemma keepSeat_claims l st :
  NoDup (Pupil.id <$> l) →
  (∀ p q s, p ∈ l → q ∈ l → claimOf fixed assign (Pupil.id p) = Some s →
            claimOf fixed assign (Pupil.id q) = Some s → Pupil.id p = Pupil.id q) →
  (∀ p s, p ∈ l → fixed !! Pupil.id p = None → assign !! Pupil.id p = Some s →
          s ≠ "" ∧ s ∈ seatIds) →
  (∀ p s, p ∈ l → claimOf fixed assign (Pupil.id p) = Some s → s ∉ st.2) →
  ∃ st', forEach (keepSeat seatIds fixed assign) l st = Ok st' ∧
         ∀ k, st'.1 !! k =
              if decide (k ∈ Pupil.id <$> l ∧ k ≠ "__proto__")
              then from_option Some (st.1 !! k) (claimOf fixed assign k)
              else st.1 !! k.
Proof.
  revert st. induction l as [|p l IH]; intros [clean used] Hnd Hdiff Hgood Hused.
  { eexists. split; [done|]. intros k. case_decide as Hk; [|done].
    destruct Hk as [Hk _]. by apply elem_of_nil in Hk. }
  rewrite fmap_cons in Hnd. apply NoDup_cons in Hnd as [Hpl Hnd].
  assert (Hne : ∀ q, q ∈ l → Pupil.id p ≠ Pupil.id q).
  { intros q Hq Heq. apply Hpl. rewrite Heq. by apply list_elem_of_fmap_2. }
  cbn [forEach].
  destruct (claimOf fixed assign (Pupil.id p)) as [s|] eqn:Hclaim.
  - assert (Hfresh : s ∉ used) by (by apply (Hused p s); [left|]).
    assert (Hstep : keepSeat seatIds fixed assign p (clean, used)
                    = Ok (objSet (Pupil.id p) s clean, {[s]} ∪ used)).
    { unfold keepSeat. unfold claimOf in Hclaim.
      destruct (fixed !! Pupil.id p) as [f|] eqn:Hf; simplify_eq.
      - by rewrite bool_decide_eq_false_2.
      - rewrite Hclaim. destruct (Hgood p s ltac:(left) Hf Hclaim) as [Hs Hin].
        apply truthy_nonempty in Hs. apply setHas_true in Hin. rewrite Hs, Hin.
        by rewrite bool_decide_eq_false_2. }
    rewrite Hstep. cbn.
    destruct (IH (objSet (Pupil.id p) s clean, {[s]} ∪ used) Hnd) as (st' & Hrun & Hlook).
    + intros q1 q2 s' Hq1 Hq2. apply Hdiff; by right.
    + intros q s' Hq. apply Hgood. by right.
    + cbn [snd]. intros q s' Hq Hq' [->%elem_of_singleton|Hin]%elem_of_union.
      * apply (Hne q Hq). by apply (Hdiff p q s); [left|right|..].
      * by apply (Hused q s'); [right|..].
    + exists st'. split; [done|]. intros k. rewrite Hlook. cbn [fst].
      destruct (decide (k = "__proto__")) as [->|Hkp].
      { rewrite !decide_False by (by intros [_ ?]). apply objSet_proto. }
      destruct (decide (k ∈ Pupil.id <$> l)) as [Hkl|Hkl].
      { rewrite !decide_True by (split; [by (try right)|done]).
        rewrite objSet_lookup_ne; [done|]. intros <-. done. }
      rewrite decide_False by (by intros [? _]).
      destruct (decide (k = Pupil.id p)) as [->|Hk].
      * rewrite decide_True by (split; [left|done]).
        rewrite objSet_lookup_eq by done. by rewrite Hclaim.
      * rewrite decide_False by (intros [[?|?]%elem_of_cons _]; done).
        by rewrite objSet_lookup_ne.
  - assert (Hstep : keepSeat seatIds fixed assign p (clean, used) = Ok (clean, used)).
    { unfold keepSeat. unfold claimOf in Hclaim.
      destruct (fixed !! Pupil.id p) as [f|] eqn:Hf; simplify_eq. by rewrite Hclaim. }
    rewrite Hstep. cbn.
    destruct (IH (clean, used) Hnd) as (st' & Hrun & Hlook).
    + intros q1 q2 s' Hq1 Hq2. apply Hdiff; by right.
    + intros q s' Hq. apply Hgood. by right.
    + intros q s' Hq. apply Hused. by right.
    + exists st'. split; [done|]. intros k. rewrite Hlook. cbn [fst].
      destruct (decide (k = "__proto__")) as [->|Hkp].
      { by rewrite !decide_False by (by intros [_ ?]). }
      destruct (decide (k ∈ Pupil.id <$> l)) as [Hkl|Hkl].
      { by rewrite !decide_True by (split; [by (try right)|done]). }
      rewrite decide_False by (by intros [? _]).
      destruct (decide (k = Pupil.id p)) as [->|Hk].
      * rewrite decide_True by (split; [left|done]). by rewrite Hclaim.
      * by rewrite decide_False by (intros [[?|?]%elem_of_cons _]; done).
Qed.


(** *** The "fill rest" loop *)
Variable free : list string.

Lemma fillSeat_Ok p st st' :
  fillSeat free p st = Ok st' →
  (seated st.1 (Pupil.id p) = true ∧ st' = st) ∨
  (seated st.1 (Pupil.id p) = false ∧
   ∃ sid, free !! st.2 = Some sid ∧ st' = (objSet (Pupil.id p) sid st.1, S st.2)).
Proof.
  unfold fillSeat. destruct st as [clean idx]. cbn [fst snd].
  destruct (seated clean (Pupil.id p)); [intros; simplify_eq; by left|].
  destruct (free !! idx) as [sid|]; [|done].
  intros; simplify_eq. right. eauto.
Qed.

Lemma fillSeat_fuel p st : fillSeat free p st ≠ OutOfFuel.
Proof. unfold fillSeat. destruct st. repeat case_match; done. Qed.

(** Who is seated is not written to. *)
Lemma fillSeat_other p st st' k :
  fillSeat free p st = Ok st' → seated st.1 k = true → st'.1 !! k = st.1 !! k.
Proof.
  intros [[_ ->]|(Hns & sid & _ & ->)]%fillSeat_Ok Hk; [done|]. cbn.
  apply objSet_lookup_ne. intros Heq. rewrite Heq in Hns. congruence.
Qed.

Lemma fillSeat_seated l st st' k :
  forEach (fillSeat free) l st = Ok st' →
  seated st.1 k = true → st'.1 !! k = st.1 !! k.
Proof.
  intros Hrun Hk.
  apply (forEach_invariant (fillSeat free) (fun t => t.1 !! k = st.1 !! k) l st st'); [|done..].
  intros p t t' _ Ht Hp. rewrite <-Ht. eapply fillSeat_other; [done|].
  unfold seated in *. by rewrite Ht.
Qed.

Lemma fillSeat_keeps l st st' k s :
  forEach (fillSeat free) l st = Ok st' →
  st.1 !! k = Some s → s ≠ "" → st'.1 !! k = Some s.
Proof.
  intros Hrun Hk Hs. rewrite <-Hk. eapply fillSeat_seated; [done|].
  unfold seated. rewrite Hk. by apply truthy_nonempty.
Qed.

Lemma fillSeat_proto l st st' :
  forEach (fillSeat free) l st = Ok st' → st'.1 !! "__proto__" = st.1 !! "__proto__".
Proof.
  intros Hrun.
  apply (forEach_invariant (fillSeat free) (fun t => t.1 !! "__proto__" = st.1 !! "__proto__")
           l st st'); [|done..].
  intros p t t' _ Ht [[_ ->]|(_ & sid & _ & ->)]%fillSeat_Ok; [done|]. cbn.
  by rewrite objSet_proto.
Qed.

Lemma fillSeat_loop l st st' :
  forEach (fillSeat free) l st = Ok st' →
  (∀ k s, st'.1 !! k = Some s →
          st.1 !! k = Some s ∨ (k ∈ Pupil.id <$> l ∧ s ∈ free)) ∧
  ("" ∉ free → st.1 !! "__proto__" = None → ∀ p, p ∈ l → seated st'.1 (Pupil.id p) = true).
Proof.
  revert st. induction l as [|p l IH]; intros st Hrun.
  { cbn in Hrun. simplify_eq. split; [auto|]. intros _ _ p Hp. by apply elem_of_nil in Hp. }
  cbn [forEach] in Hrun.
  destruct (fillSeat free p st) as [st1| |] eqn:Hp; cbn in Hrun; [|done..].
  destruct (IH st1 Hrun) as (Hfrom & Hall).
  assert (Hkeep : "" ∉ free → st.1 !! "__proto__" = None → seated st1.1 (Pupil.id p) = true).
  { intros Hne Hpr. apply fillSeat_Ok in Hp as [[? ->]|(Hns & sid & Hsid & ->)]; [done|].
    assert (Pupil.id p ≠ "__proto__").
    { intros Heq. rewrite Heq in Hns. unfold seated in Hns. rewrite Hpr in Hns.
      rewrite bool_decide_eq_false in Hns. apply Hns, proto_in_protoNames. }
    unfold seated. cbn. rewrite objSet_lookup_eq by done. apply truthy_nonempty. intros ->.
    apply Hne. by eapply list_elem_of_lookup_2. }
  split.
  - intros k s Hk. apply Hfrom in Hk as [Hk|[Hk1 Hk2]].
    + apply fillSeat_Ok in Hp as [[_ ->]|(_ & sid & Hsid & ->)]; [by left|].
      cbn in Hk. apply objSet_lookup_Some in Hk as [(-> & -> & _)|Hk]; [|by left].
      right. split; [rewrite fmap_cons; left|by eapply list_elem_of_lookup_2].
    + right. split; [rewrite fmap_cons; by right|done].
  - intros Hne Hpr q [->|Hq]%elem_of_cons.
    + specialize (Hkeep Hne Hpr). unfold seated in Hkeep |- *.
      by rewrite (fillSeat_seated l st1 st' _ Hrun Hkeep).
    + apply Hall; [done| |done].
      apply fillSeat_Ok in Hp as [[_ ->]|(_ & sid & _ & ->)]; [done|]. cbn.
      by rewrite objSet_proto.
Qed.

Lemma fillSeat_stable l clean idx :
  (∀ p, p ∈ l → seated clean (Pupil.id p) = true) →
  forEach (fillSeat free) l (clean, idx) = Ok (clean, idx).
Proof.
  induction l as [|p l IH]; intros Hall; [done|].
  cbn [forEach].
  assert (fillSeat free p (clean, idx) = Ok (clean, idx)) as ->
    by (unfold fillSeat; by rewrite (Hall p) by left).
  cbn.
  apply IH. intros q Hq. apply Hall. by right.
Qed.

(** No seat is handed out twice: the free seats differ from one another
    and from the seats in use. *)
Variable used : gset string.

Lemma fillSeat_inv p st st' :
  NoDup free → (∀ s, s ∈ free → s ∉ used) →
  filledInv free used st → fillSeat free p st = Ok st' → filledInv free used st'.
Proof.
  intros Hnd Hfree (Hinj & Hval) [[_ ->]|(_ & sid & Hsid & ->)]%fillSeat_Ok; [done|].
  split; cbn.
  - apply injective_objSet_fresh; [done|]. intros q Hq.
    destruct (Hval _ _ Hq) as [Hu|Ht].
    + apply (Hfree sid); [by eapply list_elem_of_lookup_2|done].
    + apply elem_of_take in Ht as (i & Hi & Hlt).
      pose proof (NoDup_lookup _ _ _ _ Hnd Hi Hsid). lia.
  - intros q s [(_ & -> & _)|Hq]%objSet_lookup_Some.
    + right. apply elem_of_take. exists st.2. split; [done|lia].
    + destruct (Hval _ _ Hq) as [?|Ht]; [by left|right].
      apply elem_of_take in Ht as (i & Hi & Hlt). apply elem_of_take. exists i. split; [done|lia].
Qed.

End RepairFacts.

(** ** Repair, as a whole *)
Section RepairResults.
Variable room : Room.
Variable pupils : list Pupil.t.
#[local] Abbreviation seatIds := (allSeatIds room).
#[local] Abbreviation ids := (Pupil.id <$> pupils).

(** The three loops behind a repair that returns. *)
Lemma repairAssignment_Ok assign seed b :
  repairAssignment room pupils assign seed = Ok b →
  ∃ fixed clean used free idx,
    forEach (resolveFixed room) pupils ∅ = Ok fixed ∧
    forEach (keepSeat seatIds fixed assign) pupils (∅, ∅) = Ok (clean, used) ∧
    free ≡ₚ filter (fun s => s ∉ used) seatIds ∧
    forEach (fillSeat free) pupils (clean, O) = Ok (b, idx).
Proof.
  unfold repairAssignment.
  destruct (forEach (resolveFixed room) pupils ∅) as [fixed| |] eqn:H1; cbn; [|done..].
  destruct (forEach (keepSeat _ fixed assign) pupils (∅, ∅)) as [[clean used]| |] eqn:H2;
    cbn; [|done..].
  pose proof (shuffleInPlace_perm (filter (fun s => s ∉ used) seatIds)
                (mulberry32 (JS.toUint32 seed))) as Hperm.
  destruct (shuffleInPlace _ _) as [free rng]. cbn [fst] in Hperm.
  destruct (forEach (fillSeat free) pupils (clean, O)) as [[b' idx]| |] eqn:H3; cbn; [|done..].
  intros ?; simplify_eq. by exists fixed, clean, used, free, idx.
Qed.

Lemma repairAssignment_fuel assign seed :
  repairAssignment room pupils assign seed ≠ OutOfFuel.
Proof.
  unfold repairAssignment.
  destruct (forEach (resolveFixed room) pupils ∅) as [fixed| |] eqn:H1; cbn; [|done|].
  2:{ by apply forEach_never_out_of_fuel in H1; [|apply resolveFixed_fuel]. }
  destruct (forEach (keepSeat _ fixed assign) pupils (∅, ∅)) as [[clean used]| |] eqn:H2;
    cbn; [|done|].
  2:{ by apply forEach_never_out_of_fuel in H2; [|apply keepSeat_fuel]. }
  destruct (shuffleInPlace _ _) as [free rng].
  destruct (forEach (fillSeat free) pupils (clean, O)) as [[b' idx]| |] eqn:H3; cbn; [done..|].
  by apply forEach_never_out_of_fuel in H3; [|apply fillSeat_fuel].
Qed.

Lemma repairAssignment_injective assign seed b :
  NoDup seatIds →
  repairAssignment room pupils assign seed = Ok b →
  injective b.
Proof.
  intros Hnd (fixed & clean & used & free & idx & _ & H2 & Hperm & H3)%repairAssignment_Ok.
  pose proof (forEach_invariant _ (keptInv) pupils _ _
                (fun p t t' _ => keepSeat_inv room fixed assign p t t') keptInv_empty H2)
    as (Hinj & Hval). cbn in Hinj, Hval.
  assert (Hfree : NoDup free) by (rewrite Hperm; by apply NoDup_filter).
  assert (Hnu : ∀ s, s ∈ free → s ∉ used).
  { intros s Hs. rewrite Hperm in Hs. by apply list_elem_of_filter in Hs as [? _]. }
  pose proof (forEach_invariant (fillSeat free) (filledInv free used) pupils (clean, O) (b, idx)
                (fun p t t' _ => fillSeat_inv free used p t t' Hfree Hnu)) as Hfill.
  destruct Hfill as [Hb _]; [|done..].
  split; [done|]. intros k s Hk. left. by eapply Hval.
Qed.

(** What a returned repair looks like, pupil by pupil. *)
Lemma repairAssignment_shape assign seed b :
  NoDup ids →
  "" ∉ seatIds →
  repairAssignment room pupils assign seed = Ok b →
  (∀ p, p ∈ pupils → isFixedPupil p = true → Pupil.id p ≠ "__proto__" →
        ∃ sid, resolvedSeat room p = Some sid ∧ b !! Pupil.id p = Some sid) ∧
  (∀ p, p ∈ pupils → seated b (Pupil.id p) = true) ∧
  (∀ k s, b !! k = Some s → k ∈ ids) ∧
  (∀ p s, p ∈ pupils → isFixedPupil p = false → b !! Pupil.id p = Some s →
          s ≠ "" ∧ s ∈ seatIds).
Proof.
  intros Hids Hne (fixed & clean & used & free & idx & H1 & H2 & Hperm & H3)%repairAssignment_Ok.
  destruct (resolveFixed_all room pupils fixed Hids H1) as (Hfixed & Hres & _).
  destruct (keepSeat_loop room fixed assign pupils _ _ Hids H2) as (_ & Hfrom & Hfix & _).
  destruct (fillSeat_loop free pupils _ _ H3) as (Hfill & Hall).
  cbn [fst snd] in *.
  assert (Hfne : "" ∉ free).
  { rewrite Hperm. by intros [_ ?]%list_elem_of_filter. }
  assert (Hfin : ∀ s, s ∈ free → s ∈ seatIds).
  { intros s. rewrite Hperm. by intros [_ ?]%list_elem_of_filter. }
  assert (Hpr : clean !! "__proto__" = None).
  { apply (forEach_invariant (keepSeat seatIds fixed assign)
             (fun t => t.1 !! "__proto__" = None) pupils (∅, ∅) (clean, used)); [|done..].
    intros p t t' _ Ht Hp. by rewrite (keepSeat_proto room fixed assign p t t' Hp). }
  split_and!.
  - intros p Hp Hf Hn. destruct (Hres p Hp Hf) as [sid Hsid]. exists sid. split; [done|].
    apply (fillSeat_keeps free pupils _ _ _ _ H3); cbn; [|by eapply resolvedSeat_nonempty].
    apply Hfix; [done| |done]. by rewrite Hfixed.
  - by apply Hall.
  - intros k s Hk. apply Hfill in Hk as [Hk|[Hk _]]; [|done].
    cbn in Hk. apply Hfrom in Hk as [Hk|[Hk _]]; [|done]. by rewrite lookup_empty in Hk.
  - intros p s Hp Hf Hk.
    assert (Hnone : fixed !! Pupil.id p = None).
    { rewrite Hfixed by done. destruct (resolvedSeat room p) eqn:Hr; [|done].
      apply resolvedSeat_fixed in Hr. congruence. }
    apply Hfill in Hk as [Hk|[_ Hk]].
    + cbn in Hk. apply Hfrom in Hk as [Hk|[_ [Hk|(_ & _ & ? & ?)]]]; [|congruence|done].
      by rewrite lookup_empty in Hk.
    + split; [|by apply Hfin]. intros ->. by apply Hfne.
Qed.

(** A repair that returns has no entry named [__proto__], and nobody on
    the seat a pupil of that name declares. *)
Lemma repairAssignment_proto assign seed b :
  NoDup ids →
  repairAssignment room pupils assign seed = Ok b →
  b !! "__proto__" = None ∧
  ∀ p sid, p ∈ pupils → Pupil.id p = "__proto__" → resolvedSeat room p = Some sid →
           ∀ k, b !! k ≠ Some sid.
Proof.
  intros Hids (fixed & clean & used & free & idx & H1 & H2 & Hperm & H3)%repairAssignment_Ok.
  destruct (resolveFixed_all room pupils fixed Hids H1) as (Hfixed & _ & _).
  split.
  - pose proof (fillSeat_proto free pupils _ _ H3) as Hsame. cbn in Hsame. rewrite Hsame.
    apply (forEach_invariant (keepSeat seatIds fixed assign)
             (fun t => t.1 !! "__proto__" = None) pupils (∅, ∅) (clean, used)); [|done..].
    intros p t t' _ Ht Hp. by rewrite (keepSeat_proto room fixed assign p t t' Hp).
  - intros p sid Hp Hid Hres k Hk.
    destruct (keepSeat_proto_claim room fixed assign pupils (∅, ∅) (clean, used) p sid
                (keptInv_empty) H2 Hp Hid) as [Hin Hno].
    { rewrite <-Hid, Hfixed by done. done. }
    destruct (fillSeat_loop free pupils _ _ H3) as (Hfill & _).
    apply Hfill in Hk as [Hk|[_ Hk]]; cbn in Hk.
    + by apply Hno in Hk.
    + rewrite Hperm in Hk. apply list_elem_of_filter in Hk as [Hk _]. done.
Qed.

(** The fixed pupils resolve, so the first loop returns. *)
Lemma resolveFixed_returns l fixed :
  (∀ p, p ∈ l → isFixedPupil p = true → is_Some (resolvedSeat room p)) →
  ∃ fixed', forEach (resolveFixed room) l fixed = Ok fixed'.
Proof.
  revert fixed. induction l as [|p l IH]; intros fixed Hres; [by eexists|].
  cbn [forEach].
  assert (∃ f1, resolveFixed room p fixed = Ok f1) as [f1 ->].
  { specialize (Hres p ltac:(left)). unfold resolveFixed, resolvedSeat, isFixedPupil in *.
    destruct (Pupil.fixed p) as [[s|r c]|]; [destruct (JS.truthy s); by eexists| |by eexists].
    destruct (Hres eq_refl) as [sid ->]. by eexists. }
  cbn. apply IH. intros q Hq. apply Hres. by right.
Qed.

(** When the seats the pupils ask for differ and are seats of the room,
    repair hands every pupil the seat it asks for. *)
Lemma repairAssignment_kept assign seed fixed :
  NoDup ids →
  forEach (resolveFixed room) pupils ∅ = Ok fixed →
  (∀ p q s, p ∈ pupils → q ∈ pupils → claimOf fixed assign (Pupil.id p) = Some s →
            claimOf fixed assign (Pupil.id q) = Some s → Pupil.id p = Pupil.id q) →
  (∀ p s, p ∈ pupils → fixed !! Pupil.id p = None → assign !! Pupil.id p = Some s →
          s ≠ "" ∧ s ∈ seatIds) →
  (∀ p, p ∈ pupils → Pupil.id p ≠ "__proto__" →
        match claimOf fixed assign (Pupil.id p) with
        | Some s => s ≠ ""
        | None => Pupil.id p ∈ protoNames
        end) →
  ∃ b, repairAssignment room pupils assign seed = Ok b ∧
       ∀ k, b !! k = if decide (k ∈ ids ∧ k ≠ "__proto__") then claimOf fixed assign k else None.
Proof.
  intros Hids H1 Hdiff Hgood Hall.
  destruct (keepSeat_claims room fixed assign pupils (∅, ∅) Hids Hdiff Hgood)
    as ([clean used] & H2 & Hlook).
  { intros p s _ _. apply not_elem_of_empty. }
  cbn [fst] in Hlook.
  assert (Hlook' : ∀ k, clean !! k = if decide (k ∈ ids ∧ k ≠ "__proto__")
                                     then claimOf fixed assign k else None).
  { intros k. rewrite Hlook, lookup_empty. case_decide; [by destruct (claimOf _ _ _)|done]. }
  assert (Hseated : ∀ p, p ∈ pupils → seated clean (Pupil.id p) = true).
  { intros p Hp. unfold seated. rewrite Hlook'.
    destruct (decide (Pupil.id p = "__proto__")) as [Heq|Hn].
    - rewrite decide_False by (by intros [_ ?]). rewrite Heq.
      apply bool_decide_eq_true, proto_in_protoNames.
    - rewrite decide_True by (split; [by apply list_elem_of_fmap_2|done]).
      specialize (Hall p Hp Hn).
      destruct (claimOf _ _ _) as [s|]; [by apply truthy_nonempty|by apply bool_decide_eq_true]. }
  exists clean. split; [|done].
  unfold repairAssignment. rewrite H1. cbn. rewrite H2. cbn.
  destruct (shuffleInPlace _ _) as [free rng].
  by rewrite (fillSeat_stable free pupils clean O Hseated).
Qed.

(** An assignment that seats every pupil in the room, no two on one seat
    and the fixed ones where they declare, is returned as it is. *)
Lemma repairAssignment_stable assign seed :
  NoDup ids →
  "" ∉ seatIds →
  "__proto__" ∉ ids →
  injective assign →
  (∀ p, p ∈ pupils → isFixedPupil p = true →
        ∃ sid, resolvedSeat room p = Some sid ∧ assign !! Pupil.id p = Some sid) →
  (∀ p, p ∈ pupils → isFixedPupil p = false →
        ∃ sid, assign !! Pupil.id p = Some sid ∧ sid ∈ seatIds) →
  ∃ b, repairAssignment room pupils assign seed = Ok b ∧
       ∀ k, b !! k = if decide (k ∈ ids) then assign !! k else None.
Proof.
  intros Hids Hne Hproto Hinj Hfix Hfree.
  destruct (resolveFixed_returns pupils ∅) as [fixed H1].
  { intros p Hp Hf. destruct (Hfix p Hp Hf) as (sid & -> & _). by eexists. }
  destruct (resolveFixed_all room pupils fixed Hids H1) as (Hfixed & _ & _).
  assert (Hclaim : ∀ p, p ∈ pupils → claimOf fixed assign (Pupil.id p) = assign !! Pupil.id p).
  { intros p Hp. unfold claimOf. rewrite Hfixed by done.
    destruct (resolvedSeat room p) as [s|] eqn:Hr; [|done].
    destruct (Hfix p Hp (resolvedSeat_fixed _ _ _ Hr)) as (sid & Hr' & ->). congruence. }
  destruct (repairAssignment_kept assign seed fixed Hids H1) as (b & Hb & Hlook).
  - intros p q s Hp Hq. rewrite !Hclaim by done. apply Hinj.
  - intros p s Hp Hf Hs. rewrite Hfixed in Hf by done.
    assert (Hnf : isFixedPupil p = false).
    { destruct (isFixedPupil p) eqn:E; [|done].
      destruct (Hfix p Hp E) as (? & ? & _). congruence. }
    destruct (Hfree p Hp Hnf) as (sid & Hsid & Hin). simplify_eq.
    split; [|done]. intros ->. by apply Hne.
  - intros p Hp Hn. rewrite Hclaim by done.
    destruct (isFixedPupil p) eqn:Hf.
    + destruct (Hfix p Hp Hf) as (sid & Hr & ->). by eapply resolvedSeat_nonempty.
    + destruct (Hfree p Hp Hf) as (sid & -> & Hin). intros ->. by apply Hne.
  - exists b. split; [done|]. intros k. rewrite Hlook.
    destruct (decide (k ∈ ids)) as [Hk|Hk].
    + rewrite decide_True by (split; [done|by intros ->]).
      apply list_elem_of_fmap in Hk as (p & -> & Hp). by apply Hclaim.
    + by rewrite decide_False by (by intros [? _]).
Qed.

(** Repairing a repaired assignment changes nothing. *)
Lemma repairAssignment_fixpoint assign seed seed' b :
  NoDup seatIds →
  NoDup ids →
  "" ∉ seatIds →
  repairAssignment room pupils assign seed = Ok b →
  repairAssignment room pupils b seed' = Ok b.
Proof.
  intros Hnd Hids Hne Hb.
  pose proof (repairAssignment_injective _ _ _ Hnd Hb) as Hinj.
  destruct (repairAssignment_shape _ _ _ Hids Hne Hb) as (Hfix & Hall & Hdom & Hin).
  destruct (repairAssignment_proto _ _ _ Hids Hb) as (Hpr & Hclaimed).
  pose proof Hb as (fixed & ? & ? & ? & ? & H1 & _)%repairAssignment_Ok.
  destruct (resolveFixed_all room pupils fixed Hids H1) as (Hfixed & Hres & _).
  (* what a pupil asks for is what it has *)
  assert (Hclaim : ∀ p, p ∈ pupils → Pupil.id p ≠ "__proto__" →
                        claimOf fixed b (Pupil.id p) = b !! Pupil.id p).
  { intros p Hp Hn. unfold claimOf. rewrite Hfixed by done.
    destruct (resolvedSeat room p) as [s|] eqn:Hr; [|done].
    destruct (Hfix p Hp (resolvedSeat_fixed _ _ _ Hr) Hn) as (sid & Hr' & ->). congruence. }
  assert (Hclaimp : ∀ p s, p ∈ pupils → Pupil.id p = "__proto__" →
                           claimOf fixed b (Pupil.id p) = Some s → resolvedSeat room p = Some s).
  { intros p s Hp Heq. unfold claimOf. rewrite Hfixed by done.
    destruct (resolvedSeat room p); [done|]. rewrite Heq, Hpr. done. }
  destruct (repairAssignment_kept b seed' fixed Hids H1) as (b' & Hb' & Hlook).
  - intros p q s Hp Hq Hps Hqs.
    destruct (decide (Pupil.id p = "__proto__")) as [Hpp|Hpp],
             (decide (Pupil.id q = "__proto__")) as [Hqp|Hqp].
    + congruence.
    + exfalso. rewrite Hclaim in Hqs by done.
      eapply Hclaimed; [exact Hp|done|by apply Hclaimp|exact Hqs].
    + exfalso. rewrite Hclaim in Hps by done.
      eapply Hclaimed; [exact Hq|done|by apply Hclaimp|exact Hps].
    + rewrite Hclaim in Hps, Hqs by done. by eapply Hinj.
  - intros p s Hp Hf Hs. apply (Hin p s Hp); [|done].
    rewrite Hfixed in Hf by done. destruct (isFixedPupil p) eqn:E; [|done].
    destruct (Hres p Hp E) as [? ?]. congruence.
  - intros p Hp Hn. rewrite Hclaim by done. specialize (Hall p Hp). unfold seated in Hall.
    destruct (b !! Pupil.id p) as [s|]; [by apply truthy_nonempty|].
    by apply bool_decide_eq_true in Hall.
  - rewrite Hb'. f_equal. apply map_eq. intros k. rewrite Hlook.
    case_decide as Hk.
    + destruct Hk as [Hk Hn]. apply list_elem_of_fmap in Hk as (p & -> & Hp). by apply Hclaim.
    + destruct (b !! k) as [s|] eqn:Hs; [|done]. destruct Hk.
      split; [by eapply Hdom|]. intros ->. congruence.
Qed.

End RepairResults.

(** ** The solver *)
Section SolverFacts.
Variable room : Room.
Variable pupils : list Pupil.t.
Variable rules : list Rule.t.
Variable metropolis : Z -> Z -> Z -> bool.
Variable whileBound : nat.

Lemma pick_elem (movable : list string) u :
  movable ≠ [] → 0 <= u < JS.two32 → pick movable u ∈ movable.
Proof.
  intros Hne Hu. unfold pick. apply list_elem_of_lookup_total_2.
  assert (1 <= Z.of_nat (length movable)) by (destruct movable; [done|cbn; lia]).
  pose proof (JSFacts.floorMul_range u (Z.of_nat (length movable)) Hu ltac:(lia)). lia.
Qed.

Lemma pickOther_Ok rounds (movable : list string) a rng b rng' :
  movable ≠ [] →
  pickOther rounds movable a rng = Ok (b, rng') →
  b ∈ movable ∧ b ≠ a.
Proof.
  intros Hne. revert rng. induction rounds as [|rounds IH]; intros rng; [done|].
  cbn [pickOther]. pose proof (rngNext_range rng) as Hu.
  destruct (rngNext rng) as [u rng1]. cbn [fst] in Hu.
  destruct (String.eqb (pick movable u) a) eqn:Heq; [apply IH|].
  intros ?; simplify_eq. split; [by apply pick_elem|].
  by apply String.eqb_neq.
Qed.

(** The one move of the solver: the seats of two different movable
    pupils change hands. *)
Lemma propose_Ok (movable : list string) cur rng a b next rng' :
  movable ≠ [] →
  propose whileBound movable cur rng = Ok (a, b, next, rng') →
  a ∈ movable ∧ b ∈ movable ∧ a ≠ b ∧ next = swapSeats a b cur.
Proof.
  intros Hne. unfold propose. pose proof (rngNext_range rng) as Hu.
  destruct (rngNext rng) as [u rng1]. cbn [fst] in Hu.
  destruct (pickOther whileBound movable (pick movable u) rng1) as [[b' rng2]| |] eqn:Hb;
    cbn; [|done..].
  intros ?; simplify_eq. apply pickOther_Ok in Hb as [Hb1 Hb2]; [|done].
  split_and!; try done. by apply pick_elem.
Qed.

Lemma movableIds_not_fixed k p :
  k ∈ movableIds pupils → p ∈ pupils → isFixedPupil p = true → Pupil.id p ≠ k.
Proof.
  unfold movableIds, fixedSet.
  intros (q & -> & [Hq _]%list_elem_of_filter)%list_elem_of_fmap Hp Hf Heq.
  apply Hq. rewrite <-Heq. apply elem_of_list_to_set.
  apply list_elem_of_fmap_2. by apply list_elem_of_filter.
Qed.

Lemma movableIds_pupil k :
  k ∈ movableIds pupils → ∃ p, p ∈ pupils ∧ Pupil.id p = k ∧ isFixedPupil p = false.
Proof.
  unfold movableIds, fixedSet.
  intros (q & -> & [Hq Hin]%list_elem_of_filter)%list_elem_of_fmap.
  exists q. split_and!; try done. destruct (isFixedPupil q) eqn:Hf; [|done].
  destruct Hq. apply elem_of_list_to_set. apply list_elem_of_fmap_2.
  by apply list_elem_of_filter.
Qed.

(** A property of assignments that no move breaks holds all along. *)
Section Invariant.
Variable P : gmap string string → Prop.
Hypothesis P_swap : ∀ a b m,
  a ∈ movableIds pupils → b ∈ movableIds pupils → a ≠ b → P m → P (swapSeats a b m).

Lemma annealRestart_inv left i st st' :
  P (cur st) → P (best st) →
  annealRestart room pupils rules metropolis whileBound left i st = Ok st' →
  P (cur st') ∧ P (best st').
Proof.
  revert i st. induction left as [|left IH]; intros i st Hc Hb.
  { cbn. intros ?; by simplify_eq. }
  cbn [annealRestart]. cbv zeta.
  destruct (length (movableIds pupils) <? 2)%nat eqn:Hlen; [intros ?; by simplify_eq|].
  assert (Hne : movableIds pupils ≠ []).
  { intros Heq. rewrite Heq in Hlen. done. }
  destruct (propose whileBound (movableIds pupils) (cur st) (rngOf st))
    as [[[[a b] next] rng]| |] eqn:Hp; cbn; [|done..].
  apply propose_Ok in Hp as (Ha & Hb' & Hab & ->); [|done].
  pose proof (P_swap a b (cur st) Ha Hb' Hab Hc) as Hnext.
  destruct (acceptMove _ _ _ _) as [accept rng2].
  destruct accept; [|by apply IH].
  destruct (_ <? _); [|by apply IH].
  destruct (_ =? 0); [intros ?; by simplify_eq|by apply IH].
Qed.

Lemma improveLoop_inv left i st st' :
  P (cur st) → P (best st) →
  improveLoop room pupils rules metropolis whileBound (movableIds pupils) left i st = Ok st' →
  P (cur st') ∧ P (best st').
Proof.
  revert i st. induction left as [|left IH]; intros i st Hc Hb.
  { cbn. intros ?; by simplify_eq. }
  cbn [improveLoop].
  destruct (length (movableIds pupils) <? 2)%nat eqn:Hlen; [intros ?; by simplify_eq|].
  assert (Hne : movableIds pupils ≠ []).
  { intros Heq. rewrite Heq in Hlen. done. }
  destruct (propose whileBound (movableIds pupils) (cur st) (rngOf st))
    as [[[[a b] next] rng]| |] eqn:Hp; cbn; [|done..].
  apply propose_Ok in Hp as (Ha & Hb' & Hab & ->); [|done].
  pose proof (P_swap a b (cur st) Ha Hb' Hab Hc) as Hnext.
  destruct (acceptMove _ _ _ _) as [accept rng2].
  destruct accept; [|by apply IH].
  destruct (_ <? _); by apply IH.
Qed.

Lemma restartLoop_inv itersPerRestart left masterRng res res' :
  (∀ seed m, buildInitialAssignment room pupils seed = Ok m → P m) →
  (∀ m, assignment res = Some m → P m) →
  restartLoop room pupils rules metropolis whileBound itersPerRestart left masterRng res
    = Ok res' →
  ∀ m, assignment res' = Some m → P m.
Proof.
  intros Hbuild. revert masterRng res. induction left as [|left IH]; intros masterRng res Hres.
  { cbn. intros ?; by simplify_eq. }
  cbn [restartLoop]. destruct (rngNext masterRng) as [u rng1]. cbv zeta.
  destruct (buildInitialAssignment room pupils _) as [cur0| |] eqn:Hb; cbn; [|done..].
  apply Hbuild in Hb.
  destruct (annealRestart _ _ _ _ _ _ _ _) as [st| |] eqn:Hst; cbn; [|done..].
  apply annealRestart_inv in Hst as [_ Hbest]; [|done..].
  set (res1 := if belowBest _ _ then _ else res).
  assert (Hres1 : ∀ m, assignment res1 = Some m → P m).
  { unfold res1. destruct (belowBest _ _); [|done]. cbn. intros m ?; by simplify_eq. }
  case_bool_decide; [intros ?; by simplify_eq|]. by apply IH.
Qed.

Lemma solve_inv restarts itersPerRestart seed res m :
  (∀ seed m, buildInitialAssignment room pupils seed = Ok m → P m) →
  solve room pupils rules metropolis whileBound restarts itersPerRestart seed = Ok res →
  assignment res = Some m → P m.
Proof.
  intros Hbuild. unfold solve.
  case_bool_decide; [done|]. case_bool_decide; [done|]. case_match; [done|].
  intros Hrun. eapply restartLoop_inv; [done| |done]. done.
Qed.

Lemma quickImprove_inv stateAssignment iters seed res m :
  (∀ a seed m, repairAssignment room pupils a seed = Ok m → P m) →
  quickImprove room pupils rules metropolis whileBound stateAssignment iters seed = Ok res →
  assignment res = Some m → P m.
Proof.
  intros Hrepair. unfold quickImprove.
  destruct (if bool_decide _ then _ else _) as [cur0| |]; cbn; [|done..].
  destruct (repairAssignment room pupils cur0 seed) as [cur1| |] eqn:Hr; cbn; [|done..].
  apply Hrepair in Hr.
  destruct (improveLoop _ _ _ _ _ _ _ _ _) as [st| |] eqn:Hst; cbn; [|done..].
  apply improveLoop_inv in Hst as [_ Hbest]; [|done..].
  intros ? Hm; simplify_eq. cbn in Hm. by simplify_eq.
Qed.

End Invariant.

End SolverFacts.

(** ** Tiles *)

Lemma setHas_setDelete {K} `{EqDecision K} (k : K) s : setHas k (setDelete k s) = false.
Proof.
  unfold setHas, setDelete. apply bool_decide_eq_false.
  by intros [? _]%list_elem_of_filter.
Qed.

Lemma setHas_setAdd {K} `{EqDecision K} (k : K) s : setHas k (setAdd k s) = true.
Proof.
  unfold setAdd. destruct (setHas k s) eqn:Hk; [done|].
  apply setHas_true, elem_of_app. right. left.
Qed.

Lemma mapHas_mapDelete {K V} `{EqDecision K} (k : K) (m : list (K * V)) :
  mapHas k (mapDelete k m) = false.
Proof.
  unfold mapHas, mapDelete. apply bool_decide_eq_false.
  intros ([k' v] & -> & [Hk _]%list_elem_of_filter)%list_elem_of_fmap. by apply Hk.
Qed.

Lemma mapHas_mapSet {K V} `{EqDecision K} (k : K) (v : V) (m : list (K * V)) :
  mapHas k (mapSet k v m) = true.
Proof.
  unfold mapHas. apply bool_decide_eq_true.
  induction m as [|[k' v'] m IH]; cbn; [left|].
  case_decide; cbn; [left|by right].
Qed.

(** A blocked tile is nothing else, an emptied tile is nothing at all, and
    a tile made a seat or a teacher tile is not blocked. *)
Lemma ensureBlocked_tile r c room :
  isBlocked (ensureBlocked r c room) r c = true ∧
  isSeat (ensureBlocked r c room) r c = false ∧
  isTeacher (ensureBlocked r c room) r c = false.
Proof.
  unfold isBlocked, isSeat, isTeacher, ensureBlocked. cbn.
  split_and!; [apply setHas_setAdd|apply mapHas_mapDelete|apply setHas_setDelete].
Qed.

Lemma ensureEmpty_tile r c room :
  isBlocked (ensureEmpty r c room) r c = false ∧
  isSeat (ensureEmpty r c room) r c = false ∧
  isTeacher (ensureEmpty r c room) r c = false.
Proof.
  unfold isBlocked, isSeat, isTeacher, ensureEmpty. cbn.
  split_and!; [apply setHas_setDelete|apply mapHas_mapDelete|apply setHas_setDelete].
Qed.

Lemma ensureSeat_tile r c room :
  isSeat (ensureSeat r c room) r c = true ∧
  isBlocked (ensureSeat r c room) r c = false ∧
  isTeacher (ensureSeat r c room) r c = isTeacher room r c.
Proof.
  unfold isSeat, isTeacher, ensureSeat. cbn. split_and!; [apply mapHas_mapSet| |done].
  unfold isBlocked. cbn. fold (isBlocked room r c).
  destruct (isBlocked room r c) eqn:Hb; [apply setHas_setDelete|done].
Qed.

Lemma ensureTeacher_tile r c room :
  isTeacher (ensureTeacher r c room) r c = true ∧
  isBlocked (ensureTeacher r c room) r c = false ∧
  isSeat (ensureTeacher r c room) r c = isSeat room r c.
Proof.
  unfold isSeat, isTeacher, ensureTeacher. cbn. split_and!; [apply setHas_setAdd| |done].
  unfold isBlocked. cbn. fold (isBlocked room r c).
  destruct (isBlocked room r c) eqn:Hb; [apply setHas_setDelete|done].
Qed.

(** C1.  Tile classifications are meant to exclude one another, and
    [ensureBlocked] and [ensureEmpty] see to it; [ensureSeat] and
    [ensureTeacher] only drop the blocked mark.  Turning the teacher tile
    (0,1) of [frontRoom] into a seat leaves it a teacher tile as well, and
    turning the seat (1,0) into a teacher tile leaves it a seat. *)
Theorem classify_seat_teacher_overlap :
  (isSeat (classify ToolSeat 0 1 frontRoom) 0 1 = true ∧
   isTeacher (classify ToolSeat 0 1 frontRoom) 0 1 = true) ∧
  (isSeat (classify ToolTeacher 1 0 frontRoom) 1 0 = true ∧
   isTeacher (classify ToolTeacher 1 0 frontRoom) 1 0 = true).
Proof. by vm_compute. Qed.

(** ** Seat identifiers *)

Lemma padStart_two_digits n :
  0 <= n <= 99 → JS.padStart 2 "0" (JS.toString n) = twoDigits n.
Proof.
  intros Hn. rewrite <-(Z2Nat.id n) by lia.
  assert (Hk : (Z.to_nat n < 100)%nat) by lia. revert Hk. generalize (Z.to_nat n) as k.
  intros k Hk.
  do 100 (destruct k as [|k]; [by vm_compute|]). lia.
Qed.

Lemma seatIdFor_two_digits r c :
  0 <= r <= 99 → 0 <= c <= 99 →
  seatIdFor r c = "S" +:+ twoDigits r +:+ "_" +:+ twoDigits c.
Proof. intros Hr Hc. unfold seatIdFor. by rewrite !padStart_two_digits. Qed.

Lemma isDigit_spec d :
  JS.isDigit d = true →
  0 <= JS.digitVal d <= 9 ∧ d = ascii_of_nat (48 + Z.to_nat (JS.digitVal d)).
Proof.
  unfold JS.isDigit, JS.digitVal. intros [H1 H2]%andb_prop.
  apply Nat.leb_le in H1, H2. split; [lia|].
  replace (48 + Z.to_nat (Z.of_nat (nat_of_ascii d) - 48))%nat with (nat_of_ascii d) by lia.
  by rewrite ascii_nat_embedding.
Qed.

Lemma twoDigits_of_digits d1 d2 :
  JS.isDigit d1 = true → JS.isDigit d2 = true →
  0 <= 10 * JS.digitVal d1 + JS.digitVal d2 <= 99 ∧
  twoDigits (10 * JS.digitVal d1 + JS.digitVal d2) = String d1 (String d2 EmptyString).
Proof.
  intros [H1 E1]%isDigit_spec [H2 E2]%isDigit_spec. split; [lia|].
  unfold twoDigits.
  replace ((10 * JS.digitVal d1 + JS.digitVal d2) / 10) with (JS.digitVal d1)
    by (apply Z.div_unique with (JS.digitVal d2); lia).
  replace ((10 * JS.digitVal d1 + JS.digitVal d2) mod 10) with (JS.digitVal d2)
    by (apply Z.mod_unique with (JS.digitVal d1); lia).
  by rewrite <-E1, <-E2.
Qed.

(** Whatever [seatPosById] accepts is the identifier of the position it
    returns, and that position is inside the two-digit range. *)
Lemma seatPosById_Some s p :
  seatPosById s = Some p →
  (0 <= pos_r p <= 99 ∧ 0 <= pos_c p <= 99) ∧ s = seatIdFor (pos_r p) (pos_c p).
Proof.
  unfold seatPosById. intros H.
  repeat (case_match; try done). simplify_eq. cbn [pos_r pos_c].
  repeat match goal with H : _ && _ = true |- _ => apply andb_prop in H as [? ?] end.
  match goal with
  | H1 : JS.isDigit ?d1 = true, H2 : JS.isDigit ?d2 = true,
    H3 : JS.isDigit ?d3 = true, H4 : JS.isDigit ?d4 = true |- _ =>
      destruct (twoDigits_of_digits d1 d2 H1 H2) as [Hr Er];
      destruct (twoDigits_of_digits d3 d4 H3 H4) as [Hc Ec]
  end.
  split; [done|]. rewrite seatIdFor_two_digits by done. rewrite Er, Ec. done.
Qed.

(** C9.  Within rows and columns 0..99 [seatPosById] undoes [seatIdFor],
    and a string that is not [seatIdFor r c] for such a row and column is
    answered with [null]. *)
Theorem seat_id_bijection :
  (∀ r c, 0 <= r <= 99 → 0 <= c <= 99 →
          seatPosById (seatIdFor r c) = Some {| pos_r := r; pos_c := c |}) ∧
  (∀ s, (¬ ∃ r c, (0 <= r <= 99 ∧ 0 <= c <= 99) ∧ s = seatIdFor r c) →
        seatPosById s = None).
Proof.
  split.
  - intros r c Hr Hc. rewrite seatIdFor_two_digits by done.
    assert (Hd : ∀ n, 0 <= n <= 99 →
      ∃ d1 d2, twoDigits n = String d1 (String d2 EmptyString) ∧
               JS.isDigit d1 = true ∧ JS.isDigit d2 = true ∧
               10 * JS.digitVal d1 + JS.digitVal d2 = n).
    { intros n Hn. unfold twoDigits. do 2 eexists. split; [done|].
      pose proof (Z.mod_pos_bound n 10 ltac:(lia)).
      pose proof (Z.div_mod n 10 ltac:(lia)).
      assert (0 <= n / 10 <= 9) by lia.
      unfold JS.isDigit, JS.digitVal. rewrite !nat_ascii_embedding by lia.
      split_and!; [apply andb_true_intro; split; apply Nat.leb_le; lia..|lia]. }
    destruct (Hd r Hr) as (d1 & d2 & -> & H1 & H2 & <-).
    destruct (Hd c Hc) as (d3 & d4 & -> & H3 & H4 & <-).
    cbv beta iota delta [String.append seatPosById]. by rewrite H1, H2, H3, H4.
  - intros s Hs. destruct (seatPosById s) as [p|] eqn:Hp; [|done].
    destruct Hs. apply seatPosById_Some in Hp as [Hrange ->]. eauto.
Qed.

Lemma seat_id_bijection_witness :
  seatPosById (seatIdFor 3 12) = Some {| pos_r := 3; pos_c := 12 |} ∧
  seatPosById "S3_12" = None.
Proof.
  split.
  - apply (proj1 seat_id_bijection 3 12); lia.
  - apply (proj2 seat_id_bijection "S3_12").
    intros (r & c & [Hr Hc] & Heq).
    pose proof (proj1 seat_id_bijection r c Hr Hc) as Hpos.
    rewrite <-Heq in Hpos. vm_compute in Hpos. discriminate.
Defined.

(** ** Rooms drawn with the tools *)

Lemma seatIdFor_inj r c r' c' :
  0 <= r <= 99 → 0 <= c <= 99 → 0 <= r' <= 99 → 0 <= c' <= 99 →
  seatIdFor r c = seatIdFor r' c' → r = r' ∧ c = c'.
Proof.
  intros Hr Hc Hr' Hc' Heq.
  assert (Hd : ∀ n, 0 <= n <= 99 →
    ∃ d1 d2, twoDigits n = String d1 (String d2 EmptyString) ∧
             10 * JS.digitVal d1 + JS.digitVal d2 = n).
  { intros n Hn. unfold twoDigits. do 2 eexists. split; [done|].
    pose proof (Z.mod_pos_bound n 10 ltac:(lia)).
    pose proof (Z.div_mod n 10 ltac:(lia)).
    assert (0 <= n / 10 <= 9) by lia.
    unfold JS.digitVal. rewrite !nat_ascii_embedding by lia. lia. }
  rewrite !seatIdFor_two_digits in Heq by done.
  destruct (Hd r Hr) as (a1 & a2 & Ea & <-), (Hd c Hc) as (b1 & b2 & Eb & <-).
  destruct (Hd r' Hr') as (a1' & a2' & Ea' & <-), (Hd c' Hc') as (b1' & b2' & Eb' & <-).
  rewrite Ea, Eb, Ea', Eb' in Heq. cbv beta iota delta [String.append] in Heq.
  by simplify_eq.
Qed.

Lemma seatIdFor_nonempty r c : seatIdFor r c ≠ "".
Proof. unfold seatIdFor. cbv beta iota delta [String.append]. done. Qed.

Lemma mapSet_elem {K V} `{EqDecision K} (k : K) (v : V) m k' v' :
  (k', v') ∈ mapSet k v m → (k' = k ∧ v' = v) ∨ (k', v') ∈ m.
Proof.
  induction m as [|[k0 v0] m IH]; cbn.
  - intros ?%list_elem_of_singleton. simplify_eq. by left.
  - case_decide; subst.
    + intros [?|Hin]%elem_of_cons; simplify_eq; [by left|]. right. by right.
    + intros [?|Hin]%elem_of_cons; simplify_eq; [right; left|].
      apply IH in Hin as [?|?]; [by left|]. right. by right.
Qed.

Lemma mapSet_keys {K V} `{EqDecision K} (k : K) (v : V) m :
  (mapSet k v m).*1 = if mapHas k m then m.*1 else (m.*1 ++ [k])%list.
Proof.
  unfold mapHas. induction m as [|[k0 v0] m IH]; [done|]. cbn [mapSet].
  destruct (decide (k0 = k)) as [->|Hne].
  - cbn. by rewrite bool_decide_eq_true_2 by left.
  - cbn. rewrite IH. destruct (decide (k ∈ m.*1)) as [Hk|Hk].
    + rewrite !bool_decide_eq_true_2; [done|by right|done].
    + rewrite !bool_decide_eq_false_2; [done| |done].
      by intros [?|?]%elem_of_cons.
Qed.

Lemma mapDelete_keys_NoDup {K V} `{EqDecision K} (k : K) (m : list (K * V)) :
  NoDup m.*1 → NoDup (mapDelete k m).*1.
Proof.
  unfold mapDelete. induction m as [|[k0 v0] m IH]; [done|].
  rewrite fmap_cons. intros [Hk0 Hnd]%NoDup_cons.
  destruct (decide (k0 ≠ k)).
  - rewrite filter_cons_True by done. rewrite fmap_cons. apply NoDup_cons.
    split; [|by apply IH].
    intros ([k1 v1] & Heq & [_ Hin]%list_elem_of_filter)%list_elem_of_fmap.
    cbn in Heq. subst. apply Hk0. by apply (list_elem_of_fmap_2 fst) in Hin.
  - rewrite filter_cons_False by done. by apply IH.
Qed.

Lemma drawnRoom_seats_of_ensureSeat r c room :
  0 <= r <= 99 → 0 <= c <= 99 → drawnRoom room → drawnRoom (ensureSeat r c room).
Proof.
  intros Hr Hc [Hnd Hent]. split; cbn.
  - rewrite mapSet_keys. destruct (mapHas _ _) eqn:Hh; [done|].
    apply NoDup_app. split_and!; [done| |apply NoDup_singleton].
    intros k Hk ->%list_elem_of_singleton.
    unfold mapHas in Hh. by apply bool_decide_eq_false in Hh.
  - intros k v [[-> ->]|Hin]%mapSet_elem; [done|by apply Hent].
Qed.

Lemma drawnRoom_seats_deleted r c room (room' : Room) :
  seats room' = mapDelete (keyRC r c) (seats room) → drawnRoom room → drawnRoom room'.
Proof.
  intros Heq [Hnd Hent]. unfold drawnRoom. rewrite Heq. split.
  - by apply mapDelete_keys_NoDup.
  - intros k v [_ Hin]%list_elem_of_filter. by apply Hent.
Qed.

(** Every tool keeps the room drawn. *)
Lemma classify_drawn t r c room :
  0 <= r <= 99 → 0 <= c <= 99 → drawnRoom room → drawnRoom (classify t r c room).
Proof.
  intros Hr Hc Hroom. destruct t; cbn [classify].
  - by apply drawnRoom_seats_of_ensureSeat.
  - by eapply (drawnRoom_seats_deleted r c room).
  - done.
  - by eapply (drawnRoom_seats_deleted r c room).
Qed.

(** In a drawn room the seat identifiers differ and none is empty: the
    condition under which the assignments are studied below. *)
Lemma drawnRoom_seatIds room :
  drawnRoom room → NoDup (allSeatIds room) ∧ "" ∉ allSeatIds room.
Proof.
  intros [Hnd Hent]. unfold allSeatIds, mapValues.
  assert (Hval : (seats room).*2 = (fun k : tileKey => seatIdFor k.1 k.2) <$> (seats room).*1).
  { rewrite <-list_fmap_compose. apply list_fmap_ext.
    intros i [k v] Hi. cbn. apply Hent. by eapply list_elem_of_lookup_2. }
  rewrite Hval. split.
  - apply NoDup_fmap_2_strong; [|done].
    intros [r c] [r' c'] ([k v] & Hk & Hin)%list_elem_of_fmap ([k' v'] & Hk' & Hin')%list_elem_of_fmap Heq.
    cbn in *. subst.
    destruct (Hent _ _ Hin) as [[? ?] _], (Hent _ _ Hin') as [[? ?] _].
    apply seatIdFor_inj in Heq as [-> ->]; done.
  - intros (k & Hk & _)%list_elem_of_fmap. symmetry in Hk. by apply seatIdFor_nonempty in Hk.
Qed.

(** ** Scoring *)

Lemma ruleWeight_pos rule : 1 <= ruleWeight rule.
Proof. unfold ruleWeight. lia. Qed.

Lemma rulePenalty_nonneg rule assign byId tiles : 0 <= rulePenalty rule assign byId tiles.
Proof.
  unfold rulePenalty.
  destruct (Z.leb_spec (rawPenalty rule assign byId tiles) 0); [done|].
  pose proof (ruleWeight_pos rule).
  destruct (Rule.hard rule); apply JSFacts.dmul_nonneg; unfold HARD_MULT; lia.
Qed.

Lemma rulePenalty_zero rule assign byId tiles :
  rulePenalty rule assign byId tiles = 0 ↔ rawPenalty rule assign byId tiles <= 0.
Proof.
  unfold rulePenalty, JS.dmul.
  destruct (Z.leb_spec (rawPenalty rule assign byId tiles) 0); [done|].
  pose proof (ruleWeight_pos rule). unfold HARD_MULT.
  split; [|lia]. destruct (Rule.hard rule); intros Hz.
  - pose proof (JSFacts.round53_pos (rawPenalty rule assign byId tiles * 1000000) ltac:(nia)).
    lia.
  - pose proof (JSFacts.round53_pos (rawPenalty rule assign byId tiles * ruleWeight rule)
                  ltac:(nia)).
    lia.
Qed.

(** A contribution is a double. *)
Lemma rulePenalty_double rule assign byId tiles :
  JS.round53 (rulePenalty rule assign byId tiles) = rulePenalty rule assign byId tiles.
Proof.
  unfold rulePenalty, JS.dmul.
  destruct (Z.leb_spec (rawPenalty rule assign byId tiles) 0); [done|].
  pose proof (ruleWeight_pos rule). unfold HARD_MULT.
  destruct (Rule.hard rule); apply JSFacts.round53_idem; nia.
Qed.

Lemma sumZ_nonneg (l : list Z) : Forall (fun x => 0 <= x) l → 0 <= sumZ l.
Proof. induction 1; cbn [sumZ foldr]; [done|]. fold (sumZ l). lia. Qed.

Lemma sumZ_zero (l : list Z) :
  Forall (fun x => 0 <= x) l → (sumZ l = 0 ↔ Forall (fun x => x = 0) l).
Proof.
  induction 1 as [|x l Hx Hl IH]; cbn [sumZ foldr]; [by split|].
  fold (sumZ l). pose proof (sumZ_nonneg l Hl). rewrite Forall_cons, <-IH. lia.
Qed.


(** *** Sums of doubles *)

Lemma foldl_dadd_nonneg (l : list Z) acc :
  0 <= acc → Forall (fun x => 0 <= x) l → 0 <= foldl JS.dadd acc l.
Proof.
  intros Hacc Hl. revert acc Hacc. induction Hl as [|x l Hx Hl IH]; intros acc Hacc; [done|].
  cbn [foldl]. apply IH. by apply JSFacts.dadd_nonneg.
Qed.

(** Below [2^53] the additions are exact. *)
Lemma foldl_dadd_exact (l : list Z) acc :
  0 <= acc → Forall (fun x => 0 <= x) l → acc + sumZ l < 2 ^ 53 →
  foldl JS.dadd acc l = acc + sumZ l.
Proof.
  intros Hacc Hl. revert acc Hacc. induction Hl as [|x l Hx Hl IH]; intros acc Hacc Hsum.
  { cbn. lia. }
  cbn [foldl sumZ foldr] in *. fold (sumZ l) in *. pose proof (sumZ_nonneg l Hl).
  unfold JS.dadd at 2. rewrite JSFacts.round53_lt by lia. rewrite IH by lia. lia.
Qed.

Lemma foldl_dadd_zero (l : list Z) acc :
  0 <= acc → Forall (fun x => 0 <= x) l →
  (foldl JS.dadd acc l = 0 ↔ acc = 0 ∧ Forall (fun x => x = 0) l).
Proof.
  intros Hacc Hl. revert acc Hacc. induction Hl as [|x l Hx Hl IH]; intros acc Hacc.
  { cbn. split; [by intros ->|by intros [-> _]]. }
  cbn [foldl]. rewrite IH by (by apply JSFacts.dadd_nonneg).
  rewrite JSFacts.dadd_zero_iff, Forall_cons by done. tauto.
Qed.

(** What the sum has reached, up to [2^53], it keeps. *)
Lemma foldl_dadd_ge (l : list Z) acc m :
  m <= 2 ^ 53 → Forall (fun x => 0 <= x) l → m <= acc → m <= foldl JS.dadd acc l.
Proof.
  intros Hm Hl. revert acc. induction Hl as [|x l Hx Hl IH]; intros acc Hacc; [done|].
  cbn [foldl]. apply IH. apply JSFacts.round53_ge; lia.
Qed.

(** A sum of doubles is a double. *)
Lemma foldl_dadd_double (l : list Z) acc :
  0 <= acc → Forall (fun x => 0 <= x) l → JS.round53 acc = acc →
  JS.round53 (foldl JS.dadd acc l) = foldl JS.dadd acc l.
Proof.
  intros Hacc Hl. revert acc Hacc. induction Hl as [|x l Hx Hl IH]; intros acc Hacc Hd; [done|].
  cbn [foldl]. apply IH; [by apply JSFacts.dadd_nonneg|].
  apply JSFacts.round53_idem. lia.
Qed.

Section ScoreFacts.
Variable room : Room.
Variable pupils : list Pupil.t.
Variable rules : list Rule.t.
Variable assign : gmap string string.

Lemma contribution_nonneg rs :
  Forall (fun x => 0 <= x) (contribution room pupils assign <$> rs).
Proof. apply Forall_fmap, Forall_forall. intros r _. apply rulePenalty_nonneg. Qed.

Lemma contribution_hard rule :
  Rule.hard rule = true →
  (HARD_MULT <= contribution room pupils assign rule ↔ 0 < violation room pupils assign rule).
Proof.
  intros Hh. unfold contribution, violation, rulePenalty, HARD_MULT, JS.dmul. rewrite Hh.
  destruct (Z.leb_spec (rawPenalty rule assign (pupilsByIdValues pupils) (teacherTilesOf room)) 0);
    [lia|].
  split; [lia|]. intros _. apply JSFacts.round53_ge; lia.
Qed.

Lemma scoreAssignment_fold rs sc :
  foldl (addRule room pupils assign) sc rs =
  {| total := foldl JS.dadd (total sc) (contribution room pupils assign <$> rs);
     hardBreaks := hardBreaks sc +
       Z.of_nat (length (filter (fun r => Rule.hard r = true ∧ HARD_MULT <= contribution room pupils assign r) rs)) |}.
Proof.
  revert sc. induction rs as [|r rs IH]; intros sc.
  { destruct sc. cbn. f_equal; lia. }
  cbn [foldl]. rewrite IH. unfold addRule. fold (contribution room pupils assign r). cbn [total hardBreaks].
  rewrite fmap_cons. cbn [foldl].
  destruct (Rule.hard r) eqn:Hh, (Z.leb_spec HARD_MULT (contribution room pupils assign r)); cbn [andb];
    first [rewrite filter_cons_True by done
          |rewrite filter_cons_False by (intros [? ?]; first [congruence|lia])];
    cbn [length]; f_equal; lia.
Qed.

End ScoreFacts.

(** C8.  [total] is what adding the contributions of the rules gives, one
    rule after the other and every addition rounded to a double; it is the
    sum of the contributions whenever that sum is below [2^53].
    [hardBreaks] is the number of hard rules whose contribution reached
    [HARD_MULT], which is the number of violated hard rules: one per rule
    whatever the size of the violation, and none for a soft rule. *)
Theorem scoreAssignment_counts room pupils rules assign :
  total (scoreAssignment room pupils rules assign)
    = foldl JS.dadd 0 (contribution room pupils assign <$> rules) ∧
  (sumZ (contribution room pupils assign <$> rules) < 2 ^ 53 →
   total (scoreAssignment room pupils rules assign)
     = sumZ (contribution room pupils assign <$> rules)) ∧
  hardBreaks (scoreAssignment room pupils rules assign)
    = Z.of_nat (length (filter (fun r => Rule.hard r = true ∧
                                         HARD_MULT <= contribution room pupils assign r) rules)) ∧
  hardBreaks (scoreAssignment room pupils rules assign)
    = Z.of_nat (length (filter (fun r => Rule.hard r = true ∧
                                         0 < violation room pupils assign r) rules)).
Proof.
  unfold scoreAssignment. rewrite scoreAssignment_fold. cbn [total hardBreaks].
  split_and!; [done| |lia|].
  { intros Hsum. rewrite foldl_dadd_exact; [lia|lia|apply contribution_nonneg|lia]. }
  rewrite Z.add_0_l. do 2 f_equal.
  induction rules as [|r rs IH]; [done|].
  destruct (decide (Rule.hard r = true ∧ HARD_MULT <= contribution room pupils assign r))
    as [[Hh Hc]|Hn].
  - rewrite !filter_cons_True; [by rewrite IH| |done].
    split; [done|]. by apply contribution_hard.
  - rewrite !filter_cons_False; [done| |done].
    intros [Hh Hv]. apply Hn. split; [done|]. by apply contribution_hard.
Qed.

(** Five hard rules broken by 2147483646 each and a soft rule broken by
    one: the contributions add up to 10737418230000001, the total is
    10737418230000000. *)
Lemma total_is_not_the_sum_above_2_53 :
  (contribution demoRoom abPupils abPlan <$> farApartRules)
    = [2147483646000000; 2147483646000000; 2147483646000000; 2147483646000000;
       2147483646000000; 1] ∧
  sumZ (contribution demoRoom abPupils abPlan <$> farApartRules) = 10737418230000001 ∧
  total (scoreAssignment demoRoom abPupils farApartRules abPlan) = 10737418230000000.
Proof. by vm_compute. Qed.

(** C10.  A violated soft rule contributes its violation [p] times
    [max(1, w)], rounded to a double, where [w] is the weight cut down to
    32 bits (the integer from -2^31 up to 2^31 - 1 that differs from the
    weight, or from 0 when the rule has none, by a multiple of 2^32): the
    product itself whenever it is below [2^53].  With a weight that is
    absent, or zero or negative after the cut, the rule contributes as
    with weight 1, and the contribution is never zero. *)
Theorem rulePenalty_soft rule assign pupilsById teacherTiles (w n : Z) :
  Rule.hard rule = false →
  0 < rawPenalty rule assign pupilsById teacherTiles →
  -2147483648 <= w < 2147483648 →
  default 0 (Rule.weight rule) = w + n * 4294967296 →
  let p := rawPenalty rule assign pupilsById teacherTiles in
  rulePenalty rule assign pupilsById teacherTiles = JS.round53 (p * Z.max 1 w) ∧
  (p * Z.max 1 w < 2 ^ 53 → rulePenalty rule assign pupilsById teacherTiles = p * Z.max 1 w) ∧
  (w <= 0 → rulePenalty rule assign pupilsById teacherTiles = JS.round53 (p * 1)) ∧
  (w <= 0 → p < 2 ^ 53 → rulePenalty rule assign pupilsById teacherTiles = p) ∧
  (Rule.weight rule = None → w = 0) ∧
  0 < rulePenalty rule assign pupilsById teacherTiles.
Proof.
  intros Hh Hp Hw Hweight p.
  assert (Hcut : JS.toInt32 (default 0 (Rule.weight rule)) = w).
  { rewrite Hweight. unfold JS.toInt32, JS.two32.
    replace (w + n * 4294967296 + 2147483648) with (w + 2147483648 + n * 4294967296) by lia.
    rewrite Z_mod_plus_full, Z.mod_small by lia. lia. }
  assert (Hval : rulePenalty rule assign pupilsById teacherTiles = JS.round53 (p * Z.max 1 w)).
  { unfold rulePenalty, ruleWeight, JS.dmul. fold p. rewrite Hh, Hcut.
    destruct (Z.leb_spec p 0); [unfold p in *; lia|done]. }
  rewrite Hval. split_and!.
  - done.
  - intros Hsmall. by apply JSFacts.round53_lt.
  - intros Hle. by rewrite Z.max_l by lia.
  - intros Hle Hsmall. rewrite Z.max_l, Z.mul_1_r by lia. by apply JSFacts.round53_lt.
  - intros Hnone. rewrite Hnone in Hweight. cbn in Hweight. lia.
  - apply JSFacts.round53_pos. unfold p. nia.
Qed.

(** A soft rule broken by 2147483646 with weight 2147483647: the product
    is 4611686011984936962, the contribution 4611686011984936960. *)
Lemma soft_contribution_is_rounded :
  Rule.hard farApartSoft = false ∧
  rawPenalty farApartSoft abPlan [] [] = 2147483646 ∧
  Rule.weight farApartSoft = Some 2147483647 ∧
  2147483646 * Z.max 1 2147483647 = 4611686011984936962 ∧
  rulePenalty farApartSoft abPlan [] [] = 4611686011984936960.
Proof. by vm_compute. Qed.

(** ** Capacity *)

Lemma length_filter_split {A} (P Q : A → Prop)
    `{!∀ x, Decision (P x), !∀ x, Decision (Q x)} (l : list A) :
  (∀ x, x ∈ l → (Q x ↔ ¬ P x)) →
  (length (filter P l) + length (filter Q l))%nat = length l.
Proof.
  induction l as [|x l IH]; intros HPQ; [done|].
  specialize (IH (fun y Hy => HPQ y (list_elem_of_further _ _ _ Hy))).
  destruct (decide (P x)) as [Hx|Hx].
  - rewrite filter_cons_True by done.
    rewrite (filter_cons_False Q); [cbn; lia|]. intros HQ. by apply (HPQ x ltac:(left)) in HQ.
  - rewrite filter_cons_False by done.
    rewrite (filter_cons_True Q); [cbn; lia|]. apply (HPQ x ltac:(left)). done.
Qed.

Lemma length_filter_ext {A} (P Q : A → Prop)
    `{!∀ x, Decision (P x), !∀ x, Decision (Q x)} (l : list A) :
  (∀ x, x ∈ l → (P x ↔ Q x)) →
  length (filter P l) = length (filter Q l).
Proof.
  induction l as [|x l IH]; intros HPQ; [done|].
  specialize (IH (fun y Hy => HPQ y (list_elem_of_further _ _ _ Hy))).
  pose proof (HPQ x ltac:(left)) as Hx.
  destruct (decide (P x)).
  - rewrite !filter_cons_True by tauto. cbn. by rewrite IH.
  - rewrite !filter_cons_False by tauto. done.
Qed.

Lemma length_filter_mono {A} (P Q : A → Prop)
    `{!∀ x, Decision (P x), !∀ x, Decision (Q x)} (l : list A) :
  (∀ x, x ∈ l → P x → Q x) →
  (length (filter P l) <= length (filter Q l))%nat.
Proof.
  induction l as [|x l IH]; intros HPQ; [done|].
  specialize (IH (fun y Hy => HPQ y (list_elem_of_further _ _ _ Hy))).
  pose proof (HPQ x ltac:(left)) as Hx.
  rewrite !filter_cons. destruct (decide (P x)), (decide (Q x)); cbn [length]; try lia.
  tauto.
Qed.

(** The seats left after the seats in use are taken out: every seat in
    use is gone, as often as the room lists it. *)
Lemma length_free_seats (seatIds : list string) (used : gset string) :
  (∀ s, s ∈ used → s ∈ seatIds) →
  (length (filter (fun s => s ∉ used) seatIds) + size used <= length seatIds)%nat.
Proof.
  intros Hsub.
  rewrite <-(length_filter_split (fun s => s ∈ used) (fun s => s ∉ used) seatIds) by done.
  assert (length (elements used) <= length (filter (fun s => s ∈ used) seatIds))%nat;
    [|unfold size, set_size; cbn; lia].
  apply submseteq_length, NoDup_submseteq; [apply NoDup_elements|].
  intros s Hs%elem_of_elements. apply list_elem_of_filter. auto.
Qed.

(** When the room lists every seat once, no more seats are gone than are
    in use. *)
Lemma length_free_seats_all (seatIds : list string) (used : gset string) :
  NoDup seatIds →
  (length seatIds <= length (filter (fun s => s ∉ used) seatIds) + size used)%nat.
Proof.
  intros Hnd.
  rewrite <-(length_filter_split (fun s => s ∈ used) (fun s => s ∉ used) seatIds) by done.
  assert (length (filter (fun s => s ∈ used) seatIds) <= length (elements used))%nat;
    [|unfold size, set_size; cbn; lia].
  apply submseteq_length, NoDup_submseteq; [by apply NoDup_filter|].
  intros s [Hs _]%list_elem_of_filter. by apply elem_of_elements.
Qed.

Section Capacity.
Variable room : Room.
Variable pupils : list Pupil.t.
#[local] Abbreviation seatIds := (allSeatIds room).

Lemma buildInitialAssignment_fuel seed :
  buildInitialAssignment room pupils seed ≠ OutOfFuel.
Proof.
  unfold buildInitialAssignment.
  destruct (forEach _ pupils (∅, ∅)) as [[assign0 used]| |] eqn:Hloop; cbn; [|done|].
  2:{ by apply forEach_never_out_of_fuel in Hloop; [|apply placeFixed_fuel]. }
  case_match; [done|].
  destruct (shuffleInPlace _ _) as [free1 rng1].
  by destruct (shuffleRows _ _ rng1) as [free3 rng2].
Qed.

(** More pupils than seats: the builder throws. *)
Lemma buildInitialAssignment_capacity seed :
  NoDup (Pupil.id <$> pupils) →
  (∀ p, p ∈ pupils → isFixedPupil p = false → Pupil.id p ∉ protoNames) →
  (length seatIds < length pupils)%nat →
  ∃ e, buildInitialAssignment room pupils seed = Throw e.
Proof.
  intros Hids Hnames Hlen.
  destruct (buildInitialAssignment room pupils seed) as [m|e|] eqn:Hb;
    [exfalso|by eexists|by apply buildInitialAssignment_fuel in Hb].
  revert Hb. unfold buildInitialAssignment.
  destruct (forEach _ pupils (∅, ∅)) as [[assign0 used]| |] eqn:Hloop; cbn -[Nat.ltb]; [|done..].
  destruct (placeFixed_loop room pupils _ _ Hids Hloop) as (_ & _ & Hfree & Hsize).
  pose proof (forEach_invariant _ (placedInv room) pupils _ _
                (fun p t t' _ => placeFixed_inv room p t t') (placedInv_empty room) Hloop)
    as (_ & Hval & Hsub). cbn [fst snd] in *.
  rewrite size_empty in Hsize.
  pose proof (length_free_seats seatIds used Hsub) as Hfreelen.
  set (remaining := filter (fun p => seated assign0 (Pupil.id p) = false) pupils).
  assert (Hrem : (length pupils
                  <= length remaining + length (filter (fun p => isFixedPupil p = true) pupils))%nat).
  { rewrite <-(length_filter_split (fun p => isFixedPupil p = true)
                 (fun p => isFixedPupil p = false) pupils)
      by (intros p _; destruct (isFixedPupil p); naive_solver).
    assert (length (filter (fun p => isFixedPupil p = false) pupils) <= length remaining)%nat;
      [|lia].
    apply length_filter_mono. intros p Hp Hf. unfold seated. rewrite Hfree by done. rewrite lookup_empty.
    apply bool_decide_eq_false. by apply Hnames. }
  assert (Hsplit : (length (Pupil.id <$> filter (fun p => hasTags p = true) remaining) +
                    length (Pupil.id <$> filter (fun p => hasTags p = false) remaining))%nat
                   = length remaining).
  { rewrite !length_fmap. apply length_filter_split.
    intros p _. destruct (hasTags p); naive_solver. }
  fold remaining. rewrite (proj2 (Nat.ltb_lt _ _)) by lia. done.
Qed.

(** No pupils: the builder returns the empty assignment. *)
Lemma buildInitialAssignment_no_pupils seed :
  pupils = [] → buildInitialAssignment room pupils seed = Ok ∅.
Proof.
  intros ->. unfold buildInitialAssignment. cbn.
  destruct (shuffleInPlace _ _) as [free1 rng1].
  by destruct (shuffleRows _ _ rng1) as [free3 rng2].
Qed.

(** The three guards at the head of [solve]. *)
Lemma solve_guards rules metropolis whileBound restarts itersPerRestart seed :
  (pupils = [] →
     solve room pupils rules metropolis whileBound restarts itersPerRestart seed
       = Throw NoPupils) ∧
  (pupils ≠ [] → seatIds = [] →
     solve room pupils rules metropolis whileBound restarts itersPerRestart seed
       = Throw NoSeats) ∧
  (pupils ≠ [] → seatIds ≠ [] → (length seatIds < length pupils)%nat →
     solve room pupils rules metropolis whileBound restarts itersPerRestart seed
       = Throw NotEnoughSeats).
Proof.
  unfold solve. split_and!.
  - by intros ->.
  - intros Hp Hs. rewrite bool_decide_eq_false_2 by (by destruct pupils).
    by rewrite Hs.
  - intros Hp Hs Hlen. rewrite bool_decide_eq_false_2 by (by destruct pupils).
    rewrite bool_decide_eq_false_2 by (by destruct seatIds).
    by rewrite (proj2 (Nat.ltb_lt _ _)) by done.
Qed.

End Capacity.

(** ** Examples *)

Lemma demoRoom_seats : allSeatIds demoRoom = ["S00_01"; "S00_00"; "S01_01"; "S00_02"].
Proof. by vm_compute. Qed.

Lemma demoRoom_ok : NoDup (allSeatIds demoRoom) ∧ "" ∉ allSeatIds demoRoom.
Proof. rewrite demoRoom_seats. split; apply (bool_decide_unpack _); by vm_compute. Defined.

Lemma demoPupils_ok : NoDup (Pupil.id <$> demoPupils).
Proof. apply (bool_decide_unpack _). by vm_compute. Defined.

Lemma demoPupils_plain p : p ∈ demoPupils → Pupil.id p ∉ protoNames.
Proof.
  unfold demoPupils. rewrite !elem_of_cons, elem_of_nil.
  intros [->|[->|[->|[]]]]; apply (bool_decide_unpack _); by vm_compute.
Defined.

Lemma demoPupils_names p : p ∈ demoPupils → declaresSeat p → Pupil.id p ≠ "__proto__".
Proof.
  unfold demoPupils. rewrite !elem_of_cons, elem_of_nil. by intros [->|[->|[->|[]]]].
Defined.

(** ** The claims about the assignments *)

(** C5.  Injectivity: in a room whose seats have different identifiers, no
    assignment returned by [buildInitialAssignment], [repairAssignment],
    [solve] or [quickImprove] gives one seat to two pupils. *)
Theorem assignments_injective room pupils rules metropolis whileBound :
  NoDup (allSeatIds room) →
  (∀ seed m, buildInitialAssignment room pupils seed = Ok m → injective m) ∧
  (∀ a seed m, repairAssignment room pupils a seed = Ok m → injective m) ∧
  (∀ restarts iters seed res m,
     solve room pupils rules metropolis whileBound restarts iters seed = Ok res →
     assignment res = Some m → injective m) ∧
  (∀ stateAssignment iters seed res m,
     quickImprove room pupils rules metropolis whileBound stateAssignment iters seed = Ok res →
     assignment res = Some m → injective m).
Proof.
  intros Hnd.
  assert (Hb : ∀ seed m, buildInitialAssignment room pupils seed = Ok m → injective m).
  { intros seed m. by apply buildInitialAssignment_injective. }
  assert (Hr : ∀ a seed m, repairAssignment room pupils a seed = Ok m → injective m).
  { intros a seed m. by apply repairAssignment_injective. }
  split_and!; [done|done| |].
  - intros restarts iters seed res m Hrun Hm.
    eapply (solve_inv room pupils rules metropolis whileBound injective); [|done..].
    intros a b cur _ _ _. apply swapSeats_injective.
  - intros st iters seed res m Hrun Hm.
    eapply (quickImprove_inv room pupils rules metropolis whileBound injective); [|done..].
    intros a b cur _ _ _. apply swapSeats_injective.
Qed.

(** The builder and the solver at seed 12345, with three restarts of
    twenty iterations and every worsening move refused. *)
Lemma demo_build :
  buildInitialAssignment demoRoom demoPupils 12345
    = Ok {[ "C" := "S00_02"; "A" := "S01_01"; "B" := "S00_01" ]}.
Proof. by vm_compute. Defined.

Lemma demo_solve :
  solve demoRoom demoPupils demoRules (fun _ _ _ => false) 50 3 20 12345
    = Ok {| assignment := Some {[ "C" := "S01_01"; "A" := "S00_02"; "B" := "S00_01" ]};
            bestScore := Some 0; bestHard := Some 0 |}.
Proof. by vm_compute. Defined.

Lemma assignments_injective_witness :
  injective ({[ "C" := "S00_02"; "A" := "S01_01"; "B" := "S00_01" ]} : gmap string string) ∧
  injective ({[ "C" := "S01_01"; "A" := "S00_02"; "B" := "S00_01" ]} : gmap string string).
Proof.
  pose proof (assignments_injective demoRoom demoPupils demoRules (fun _ _ _ => false) 50
                (proj1 demoRoom_ok)) as (Hbuild & _ & Hsolve & _).
  split.
  - apply (Hbuild 12345). exact demo_build.
  - apply (Hsolve 3 20 12345 _ _ demo_solve). reflexivity.
Defined.

(** A room read from a file can give two tiles one identifier: the
    builder then seats two pupils on it. *)
Lemma builder_seats_two_pupils_on_repeated_id :
  allSeatIds twinRoom = ["S00_00"; "S00_00"] ∧
  buildInitialAssignment twinRoom abPupils 12345
    = Ok {[ "A" := "S00_00"; "B" := "S00_00" ]} ∧
  ¬ injective ({[ "A" := "S00_00"; "B" := "S00_00" ]} : gmap string string).
Proof.
  split_and!; [by vm_compute..|].
  intros Hinj. by specialize (Hinj "A" "B" "S00_00" eq_refl eq_refl).
Qed.

(** The pupil at which a fixed pupil is looked up is the pupil itself. *)
Lemma NoDup_ids_eq (pupils : list Pupil.t) p q :
  NoDup (Pupil.id <$> pupils) → p ∈ pupils → q ∈ pupils → Pupil.id p = Pupil.id q → p = q.
Proof.
  induction pupils as [|x l IH]; intros Hnd Hp Hq Heq; [by apply elem_of_nil in Hp|].
  rewrite fmap_cons in Hnd. apply NoDup_cons in Hnd as [Hx Hnd].
  apply elem_of_cons in Hp as [->|Hp], Hq as [->|Hq]; [done| | |by apply IH].
  - destruct Hx. rewrite Heq. by apply list_elem_of_fmap_2.
  - destruct Hx. rewrite <-Heq. by apply list_elem_of_fmap_2.
Qed.

(** The test the script makes is the one the specification means. *)
Lemma isFixedPupil_declares p : isFixedPupil p = true ↔ declaresSeat p.
Proof.
  unfold isFixedPupil, declaresSeat.
  destruct (Pupil.fixed p) as [[sid|r c]|]; [apply truthy_nonempty|done..].
Qed.

(** C6.  Fixed-pupil invariance: with different pupil ids, no empty seat
    identifier and no fixed pupil named [__proto__], every assignment
    returned by the builder, the repair routine or the solver has every
    fixed pupil on its declared seat; and a move of the solver, among
    pupils that bear no name of a member of [Object.prototype], exchanges
    the seats of two different pupils that are not fixed, and touches
    nobody else. *)
Theorem fixed_pupils_stay room pupils rules metropolis whileBound :
  NoDup (Pupil.id <$> pupils) →
  "" ∉ allSeatIds room →
  (∀ p, p ∈ pupils → declaresSeat p → Pupil.id p ≠ "__proto__") →
  (∀ seed m, buildInitialAssignment room pupils seed = Ok m → declaredInPlace room pupils m) ∧
  (∀ a seed m, repairAssignment room pupils a seed = Ok m → declaredInPlace room pupils m) ∧
  (∀ restarts iters seed res m,
     solve room pupils rules metropolis whileBound restarts iters seed = Ok res →
     assignment res = Some m → declaredInPlace room pupils m) ∧
  (∀ stateAssignment iters seed res m,
     quickImprove room pupils rules metropolis whileBound stateAssignment iters seed = Ok res →
     assignment res = Some m → declaredInPlace room pupils m) ∧
  (∀ cur rng a b next rng',
     (2 <= length (movableIds pupils))%nat →
     (∀ k, k ∈ movableIds pupils → k ∉ protoNames) →
     propose whileBound (movableIds pupils) cur rng = Ok (a, b, next, rng') →
     a ≠ b ∧
     (∃ pa, pa ∈ pupils ∧ Pupil.id pa = a ∧ ¬ declaresSeat pa) ∧
     (∃ pb, pb ∈ pupils ∧ Pupil.id pb = b ∧ ¬ declaresSeat pb) ∧
     next !! a = cur !! b ∧ next !! b = cur !! a ∧
     (∀ k, k ≠ a → k ≠ b → next !! k = cur !! k) ∧
     (∀ p, p ∈ pupils → declaresSeat p → next !! Pupil.id p = cur !! Pupil.id p)).
Proof.
  intros Hids Hne Hnames.
  assert (Hb : ∀ seed m, buildInitialAssignment room pupils seed = Ok m →
                         declaredInPlace room pupils m).
  { intros seed m Hm p Hp Hf. eapply buildInitialAssignment_fixed; try done.
    - by apply isFixedPupil_declares.
    - by apply Hnames. }
  assert (Hr : ∀ a seed m, repairAssignment room pupils a seed = Ok m →
                           declaredInPlace room pupils m).
  { intros a seed m Hm p Hp Hf.
    destruct (repairAssignment_shape room pupils a seed m Hids Hne Hm) as (H & _).
    apply H; [done|by apply isFixedPupil_declares|by apply Hnames]. }
  assert (Hswap : ∀ a b m, a ∈ movableIds pupils → b ∈ movableIds pupils → a ≠ b →
                           declaredInPlace room pupils m →
                           declaredInPlace room pupils (swapSeats a b m)).
  { intros a b m Ha Hb' _ Hm p Hp Hf. destruct (Hm p Hp Hf) as (sid & Hres & Hsid).
    apply isFixedPupil_declares in Hf.
    exists sid. split; [done|]. rewrite swapSeats_lookup.
    rewrite decide_False by (by eapply movableIds_not_fixed).
    by rewrite decide_False by (by eapply movableIds_not_fixed). }
  split_and!; [done|done| | |].
  - intros restarts iters seed res m Hrun Hm.
    by eapply (solve_inv room pupils rules metropolis whileBound (declaredInPlace room pupils)).
  - intros st iters seed res m Hrun Hm.
    by eapply (quickImprove_inv room pupils rules metropolis whileBound
                 (declaredInPlace room pupils)).
  - intros cur rng a b next rng' Hlen _ Hp.
    apply propose_Ok in Hp as (Ha & Hb' & Hab & ->).
    2:{ intros Heq. rewrite Heq in Hlen. cbn in Hlen. lia. }
    assert (Hmov : ∀ k, k ∈ movableIds pupils →
                        ∃ pk, pk ∈ pupils ∧ Pupil.id pk = k ∧ ¬ declaresSeat pk).
    { intros k (pk & ? & ? & Hnf)%movableIds_pupil. exists pk. split_and!; [done..|].
      rewrite <-isFixedPupil_declares. congruence. }
    split_and!; [done|by apply Hmov|by apply Hmov|..].
    + rewrite swapSeats_lookup. rewrite decide_False by done. by rewrite decide_True.
    + rewrite swapSeats_lookup. by rewrite decide_True.
    + intros k Hka Hkb. rewrite swapSeats_lookup. by rewrite !decide_False.
    + intros p Hp Hf%isFixedPupil_declares. rewrite swapSeats_lookup.
      rewrite decide_False by (by eapply movableIds_not_fixed).
      by rewrite decide_False by (by eapply movableIds_not_fixed).
Qed.

Lemma fixed_pupils_stay_witness :
  declaredInPlace demoRoom demoPupils
    ({[ "C" := "S00_02"; "A" := "S01_01"; "B" := "S00_01" ]} : gmap string string) ∧
  declaredInPlace demoRoom demoPupils
    ({[ "C" := "S01_01"; "A" := "S00_02"; "B" := "S00_01" ]} : gmap string string).
Proof.
  pose proof (fixed_pupils_stay demoRoom demoPupils demoRules (fun _ _ _ => false) 50
                demoPupils_ok (proj2 demoRoom_ok) demoPupils_names)
    as (Hbuild & _ & Hsolve & _).
  split.
  - apply (Hbuild 12345). exact demo_build.
  - apply (Hsolve 3 20 12345 _ _ demo_solve). reflexivity.
Defined.

(** A fixed pupil that the builder does not leave on the seat it
    declares: one whose tile carries the empty identifier, in a room read
    from a file, is moved to a seat with a name; one named [__proto__] gets
    no entry at all. *)
Lemma builder_misplaces_fixed_pupil :
  (declaresSeat (Pupil.mk "A" [] (Some (FixedRC 0 0))) ∧
   resolvedSeat blankRoom (Pupil.mk "A" [] (Some (FixedRC 0 0))) = Some "" ∧
   buildInitialAssignment blankRoom [Pupil.mk "A" [] (Some (FixedRC 0 0))] 12345
     = Ok {[ "A" := "S00_01" ]}) ∧
  (declaresSeat (Pupil.mk "__proto__" [] (Some (FixedSeat "S00_00"))) ∧
   resolvedSeat oneSeatRoom (Pupil.mk "__proto__" [] (Some (FixedSeat "S00_00")))
     = Some "S00_00" ∧
   buildInitialAssignment oneSeatRoom [Pupil.mk "__proto__" [] (Some (FixedSeat "S00_00"))] 12345
     = Ok ∅).
Proof. split; (split_and!; [done|by vm_compute..]). Qed.

(** ** The claims about repair *)

(** When repair returns, and no pupil is named [__proto__], a pupil that
    is not fixed keeps the seat it had exactly when that seat is still in
    the room, is not the seat a fixed pupil declares, and was not kept by a
    pupil that is not fixed and comes earlier in the pupil list.  (Seat
    identifiers differ and are not empty; pupil ids differ.) *)
Lemma repairAssignment_keeps_prior_seat room pupils assign seed clean i p sid :
  NoDup (allSeatIds room) →
  "" ∉ allSeatIds room →
  NoDup (Pupil.id <$> pupils) →
  "__proto__" ∉ Pupil.id <$> pupils →
  repairAssignment room pupils assign seed = Ok clean →
  pupils !! i = Some p →
  isFixedPupil p = false →
  assign !! Pupil.id p = Some sid →
  (clean !! Pupil.id p = Some sid ↔
     sid ∈ allSeatIds room ∧
     (∀ q, q ∈ pupils → resolvedSeat room q ≠ Some sid) ∧
     (∀ j q, (j < i)%nat → pupils !! j = Some q → isFixedPupil q = false →
             ¬ (assign !! Pupil.id q = Some sid ∧ clean !! Pupil.id q = Some sid))).
Proof.
  intros Hnd Hne Hids Hproto Hrun Hi Hnf Hprior.
  pose proof (repairAssignment_injective _ _ _ _ _ Hnd Hrun) as Hinj.
  destruct (repairAssignment_shape _ _ _ _ _ Hids Hne Hrun) as (Hfix & _ & _ & Hin).
  assert (Hp : p ∈ pupils) by (by eapply list_elem_of_lookup_2).
  assert (Hnames : ∀ q, q ∈ pupils → Pupil.id q ≠ "__proto__").
  { intros q Hq Heq. apply Hproto. rewrite <-Heq. by apply list_elem_of_fmap_2. }
  split.
  - intros Hkept. split_and!.
    + by eapply Hin.
    + intros q Hq Hres. pose proof (resolvedSeat_fixed _ _ _ Hres) as Hqf.
      destruct (Hfix q Hq Hqf (Hnames q Hq)) as (sid' & Hres' & Hsid'). simplify_eq.
      pose proof (Hinj _ _ _ Hkept Hsid') as Heq.
      apply (NoDup_ids_eq pupils p q) in Heq; [|done..]. congruence.
    + intros j q Hj Hq Hqf [_ Hqs].
      pose proof (Hinj _ _ _ Hkept Hqs) as Heq.
      apply (NoDup_ids_eq pupils p q) in Heq; [|done|done|by eapply list_elem_of_lookup_2].
      subst q. apply NoDup_fmap_1 in Hids.
      pose proof (NoDup_lookup _ _ _ _ Hids Hi Hq). lia.
  - intros (Hroom & Hnofixed & Hnoearlier).
    assert (Hsid : sid ≠ "") by (by intros ->).
    apply repairAssignment_Ok in Hrun
      as (fixed & clean2 & used & free & idx & H1 & H2 & Hperm & H3).
    destruct (resolveFixed_all room pupils fixed Hids H1) as (Hfixed & Hres & _).
    assert (Hpnone : fixed !! Pupil.id p = None).
    { rewrite Hfixed by done. destruct (resolvedSeat room p) eqn:Hr; [|done].
      apply resolvedSeat_fixed in Hr. congruence. }
    (* the loop before, at, and after the pupil *)
    pose proof (take_drop_middle _ _ _ Hi) as Hsplit.
    rewrite <-Hsplit in H2, Hids.
    rewrite forEach_app in H2.
    destruct (forEach _ (take i pupils) (∅, ∅)) as [st1| |] eqn:Hbefore; cbn in H2; [|done..].
    destruct (keepSeat (allSeatIds room) fixed assign p st1) as [st2| |] eqn:Hat;
      cbn in H2; [|done..].
    rewrite fmap_app, fmap_cons in Hids.
    apply NoDup_app in Hids as (Hids1 & Hdisj & Hids2).
    apply NoDup_cons in Hids2 as [Hpafter Hids2].
    destruct (keepSeat_loop room fixed assign _ _ _ Hids2 H2) as (Hafter & _ & _ & _).
    destruct (keepSeat_loop room fixed assign _ _ _ Hids1 Hbefore) as (_ & _ & _ & Husedby).
    cbn [fst snd] in *.
    apply (fillSeat_keeps free pupils _ _ _ _ H3); cbn [fst]; [|done].
    rewrite Hafter by done.
    apply keepSeat_Ok in Hat as [(sid' & _ & -> & Hsrc)|(-> & _ & Hskip)]; cbn [fst].
    { rewrite objSet_lookup_eq by (by apply Hnames).
      destruct Hsrc as [?|(_ & ? & _)]; congruence. }
    exfalso.
    destruct (Husedby sid (Hskip sid Hprior Hsid Hroom)) as [Hempty|(q & Hq & Hfrom & Hqs)].
    { by apply not_elem_of_empty in Hempty. }
    assert (Hqin : q ∈ pupils).
    { rewrite <-Hsplit. apply elem_of_app. left. done. }
    specialize (Hqs (Hnames q Hqin)).
    destruct Hfrom as [Hqfix|(Hqnone & Hqprior & _)].
    { apply (Hnofixed q Hqin). by rewrite <-Hfixed. }
    apply elem_of_take in Hq as (j & Hj & Hlt).
    apply (Hnoearlier j q Hlt Hj).
    { destruct (isFixedPupil q) eqn:Hqf; [|done].
      destruct (Hres q Hqin Hqf) as [s Hs]. rewrite Hfixed in Hqnone by done. congruence. }
    split; [done|].
    apply (fillSeat_keeps free pupils _ _ _ _ H3); cbn [fst]; [|done].
    rewrite Hafter; [done|].
    intros Hmem. apply (Hdisj (Pupil.id q)).
    + apply list_elem_of_fmap_2. apply elem_of_take. by exists j.
    + by right.
Qed.

(** C4.  A pupil that is not fixed and sits on the seat a fixed pupil
    declares: when the fixed pupil comes later in the pupil list, the
    pupil keeps the seat and repair then stops with "seat S00_01 fixed
    twice", though one pupil only is fixed there; when the fixed pupil
    comes first, the pupil is moved to a free seat. *)
Theorem repair_throws_on_seat_of_later_fixed_pupil :
  resolvedSeat demoRoom (Pupil.mk "B" [] (Some (FixedRC 0 1))) = Some "S00_01" ∧
  repairAssignment demoRoom
      [Pupil.mk "A" [] None; Pupil.mk "B" [] (Some (FixedRC 0 1))] {[ "A" := "S00_01" ]} 1
    = Throw (SeatFixedTwice "S00_01") ∧
  repairAssignment demoRoom
      [Pupil.mk "B" [] (Some (FixedRC 0 1)); Pupil.mk "A" [] None] {[ "A" := "S00_01" ]} 1
    = Ok {[ "B" := "S00_01"; "A" := "S00_02" ]} ∧
  buildInitialAssignment demoRoom
      [Pupil.mk "A" [] None; Pupil.mk "B" [] (Some (FixedRC 0 1))] 1
    = Ok {[ "B" := "S00_01"; "A" := "S00_00" ]}.
Proof. split_and!; by vm_compute. Qed.

(** C2, as stated, fails.  In [oneSeatRoom] the assignment of the one
    pupil to a seat the room does not have is valid in the sense above
    (total, injective, no fixed pupil), and repair moves the pupil.  And
    the assignment, read from a file, of a pupil named [__proto__] to the
    seat of the room is valid, and repair returns no entry for the
    pupil. *)
Lemma repair_changes_a_valid_assignment :
  (validAssignment oneSeatRoom [Pupil.mk "A" [] None] {[ "A" := "S05_05" ]} ∧
   repairAssignment oneSeatRoom [Pupil.mk "A" [] None] {[ "A" := "S05_05" ]} 1
     = Ok {[ "A" := "S00_00" ]} ∧
   ({[ "A" := "S00_00" ]} : gmap string string) !! "A"
     ≠ ({[ "A" := "S05_05" ]} : gmap string string) !! "A") ∧
  (validAssignment oneSeatRoom [Pupil.mk "__proto__" [] None] {[ "__proto__" := "S00_00" ]} ∧
   seatsInRoom oneSeatRoom [Pupil.mk "__proto__" [] None] {[ "__proto__" := "S00_00" ]} ∧
   repairAssignment oneSeatRoom [Pupil.mk "__proto__" [] None] {[ "__proto__" := "S00_00" ]} 1
     = Ok ∅ ∧
   (∅ : gmap string string) !! "__proto__"
     ≠ ({[ "__proto__" := "S00_00" ]} : gmap string string) !! "__proto__").
Proof.
  assert (Hvalid : ∀ k s, validAssignment oneSeatRoom [Pupil.mk k [] None] {[ k := s ]}).
  { intros k s. split_and!.
    - intros p ->%list_elem_of_singleton. cbn. rewrite lookup_singleton_eq. by eexists.
    - intros p q s' Hp Hq.
      apply lookup_singleton_Some in Hp as [<- _], Hq as [<- _]. done.
    - intros p ->%list_elem_of_singleton. done. }
  split; split_and!; try apply Hvalid; try (by vm_compute).
  intros p sid ->%list_elem_of_singleton _ Hs. cbn in Hs.
  apply lookup_singleton_Some in Hs as [_ <-].
  apply (bool_decide_unpack _). by vm_compute.
Qed.

(** C2, amended.  With different, non-empty seat identifiers and different
    pupil ids: repairing the result of a repair returns it unchanged,
    whatever the assignment first given; and, when no pupil is named
    [__proto__], a valid assignment whose seats are seats of the room is
    returned with every pupil's seat unchanged. *)
Theorem repair_idempotent room pupils seed :
  NoDup (allSeatIds room) →
  "" ∉ allSeatIds room →
  NoDup (Pupil.id <$> pupils) →
  (∀ a, (b ← repairAssignment room pupils a seed; repairAssignment room pupils b seed)
        = repairAssignment room pupils a seed) ∧
  (∀ a, "__proto__" ∉ Pupil.id <$> pupils →
        validAssignment room pupils a → seatsInRoom room pupils a →
        ∃ b, repairAssignment room pupils a seed = Ok b ∧
             ∀ p, p ∈ pupils → b !! Pupil.id p = a !! Pupil.id p).
Proof.
  intros Hnd Hne Hids. split.
  - intros a. destruct (repairAssignment room pupils a seed) as [b| |] eqn:Hb; cbn; [|done..].
    by eapply repairAssignment_fixpoint.
  - intros a Hproto (Htotal & Hinj & Hfix) Hroom.
    destruct (repairAssignment_stable room pupils a seed Hids Hne Hproto Hinj Hfix)
      as (b & Hb & Hlook).
    { intros p Hp Hf. destruct (Htotal p Hp) as [sid Hsid]. exists sid. split; [done|].
      by eapply Hroom. }
    exists b. split; [done|]. intros p Hp. rewrite Hlook.
    by rewrite decide_True by (by apply list_elem_of_fmap_2).
Qed.

Lemma repair_idempotent_witness :
  ∃ b, repairAssignment oneSeatRoom [Pupil.mk "A" [] None] {[ "A" := "S00_00" ]} 7 = Ok b ∧
       ∀ p, p ∈ [Pupil.mk "A" [] None] →
            b !! Pupil.id p = ({[ "A" := "S00_00" ]} : gmap string string) !! Pupil.id p.
Proof.
  assert (Hnd : NoDup (allSeatIds oneSeatRoom)) by (apply (bool_decide_unpack _); by vm_compute).
  assert (Hne : "" ∉ allSeatIds oneSeatRoom) by (apply (bool_decide_unpack _); by vm_compute).
  assert (Hids : NoDup (Pupil.id <$> [Pupil.mk "A" [] None]))
    by (apply (bool_decide_unpack _); by vm_compute).
  apply (proj2 (repair_idempotent oneSeatRoom [Pupil.mk "A" [] None] 7 Hnd Hne Hids)).
  - apply (bool_decide_unpack _). by vm_compute.
  - split_and!.
    + intros p ->%list_elem_of_singleton. by eexists.
    + intros p q s Hp Hq.
      apply lookup_singleton_Some in Hp as [<- _], Hq as [<- _]. done.
    + intros p ->%list_elem_of_singleton. done.
  - intros p sid ->%list_elem_of_singleton _ Hs. cbn in Hs.
    apply lookup_singleton_Some in Hs as [_ <-].
    apply (bool_decide_unpack _). by vm_compute.
Defined.

(** ** The claim about the fixed-pupil checks *)

Lemma mapGet_None {K V} `{EqDecision K} (k : K) (m : list (K * V)) :
  mapHas k m = false → mapGet k m = None.
Proof.
  unfold mapHas. intros Hk%bool_decide_eq_false.
  induction m as [|[k' v'] m IH]; [done|]. cbn.
  case_decide; subst; [destruct Hk; left|].
  apply IH. intros Hin. apply Hk. by right.
Qed.

(** Repair never complains about a fixed seat identifier. *)
Lemma repairAssignment_never_rejects_seat_id room pupils a seed sid :
  repairAssignment room pupils a seed ≠ Throw (FixedSeatNotInMap sid).
Proof.
  unfold repairAssignment.
  destruct (forEach (resolveFixed room) pupils ∅) as [fixed|e|] eqn:H1; cbn; [| |done].
  2:{ intros ?; simplify_eq. apply forEach_Throw in H1 as (p & f & _ & Hp).
      unfold resolveFixed in Hp. repeat case_match; simplify_eq. }
  destruct (forEach (keepSeat _ fixed a) pupils (∅, ∅)) as [[clean used]|e|] eqn:H2;
    cbn; [| |done].
  2:{ intros ?; simplify_eq. apply forEach_Throw in H2 as (p & [c u] & _ & Hp).
      unfold keepSeat in Hp. repeat case_match; simplify_eq. }
  destruct (shuffleInPlace _ _) as [free rng].
  destruct (forEach (fillSeat free) pupils (clean, O)) as [[b' idx]|e|] eqn:H3; cbn; [done| |done].
  intros ?; simplify_eq. apply forEach_Throw in H3 as (p & [c i] & _ & Hp).
  unfold fillSeat in Hp. repeat case_match; simplify_eq.
Qed.

(** The two conditions both routines do check: a fixed coordinate that is
    not a seat, and two fixed pupils that declare the same seat. *)
Lemma fixed_conflicts_rejected room pupils :
  NoDup (Pupil.id <$> pupils) →
  ((∃ p r c, p ∈ pupils ∧ Pupil.fixed p = Some (FixedRC r c) ∧ isSeat room r c = false) ∨
   (∃ p q sid, p ∈ pupils ∧ q ∈ pupils ∧ p ≠ q ∧
               resolvedSeat room p = Some sid ∧ resolvedSeat room q = Some sid)) →
  (∀ seed, ∃ e, buildInitialAssignment room pupils seed = Throw e) ∧
  (∀ a seed, ∃ e, repairAssignment room pupils a seed = Throw e).
Proof.
  intros Hids Hbad. split.
  - intros seed.
    destruct (buildInitialAssignment room pupils seed) as [m|e|] eqn:Hb;
      [exfalso|by eexists|by apply buildInitialAssignment_fuel in Hb].
    revert Hb. unfold buildInitialAssignment.
    destruct (forEach _ pupils (∅, ∅)) as [[assign0 used]| |] eqn:Hloop; cbn -[Nat.ltb]; [|done..].
    intros _. revert Hloop.
    destruct Hbad as [(p & r & c & Hp & Hfx & Hns)|(p & q & sid & Hp & Hq & Hpq & Hrp & Hrq)].
    + apply (forEach_blocked _ (fun _ => True) pupils _ p); [done| |done..].
      intros t t' _ [(_ & sid & Hres & _)|[Hnf _]]%placeFixed_Ok.
      * unfold resolvedSeat in Hres. rewrite Hfx in Hres.
        unfold isSeat in Hns. apply mapGet_None in Hns. congruence.
      * unfold isFixedPupil in Hnf. by rewrite Hfx in Hnf.
    + assert (Htaken : ∀ x t t', resolvedSeat room x = Some sid →
                placeFixed room (allSeatIds room) x t = Ok t' → sid ∈ t'.2 ∧ (sid ∉ t.2)).
      { intros x t t' Hx [(_ & s & Hres & _ & Hnew & ->)|[Hnf _]]%placeFixed_Ok.
        - simplify_eq. split; [|done]. cbn. apply elem_of_union_l. by apply elem_of_singleton.
        - apply resolvedSeat_fixed in Hx. congruence. }
      apply (forEach_clash _ (fun t => sid ∈ t.2) pupils _ p q); try done.
      * intros y t t' [(_ & s & _ & _ & _ & ->)|[_ ->]]%placeFixed_Ok Ht; [|done].
        cbn. by apply elem_of_union_r.
      * intros t t' Ht. by apply (Htaken p t t' Hrp).
      * intros t t' Ht. by apply (Htaken q t t' Hrq).
      * intros t t' Ht Hrun. by apply (Htaken p t t' Hrp Hrun).
      * intros t t' Ht Hrun. by apply (Htaken q t t' Hrq Hrun).
  - intros a seed.
    destruct (repairAssignment room pupils a seed) as [m|e|] eqn:Hb;
      [exfalso|by eexists|by apply repairAssignment_fuel in Hb].
    apply repairAssignment_Ok in Hb as (fixed & clean & used & free & idx & H1 & H2 & _ & _).
    destruct (resolveFixed_all room pupils fixed Hids H1) as (Hfixed & Hres & _).
    destruct Hbad as [(p & r & c & Hp & Hfx & Hns)|(p & q & sid & Hp & Hq & Hpq & Hrp & Hrq)].
    + destruct (Hres p Hp) as [sid Hsid]; [unfold isFixedPupil; by rewrite Hfx|].
      unfold resolvedSeat in Hsid. rewrite Hfx in Hsid.
      unfold isSeat in Hns. apply mapGet_None in Hns. congruence.
    + assert (Htaken : ∀ x t t', x ∈ pupils → resolvedSeat room x = Some sid →
                keepSeat (allSeatIds room) fixed a x t = Ok t' → sid ∈ t'.2 ∧ (sid ∉ t.2)).
      { intros x t t' Hx Hr. rewrite <-Hfixed in Hr by done.
        intros [(s & Hnew & -> & [Hf|[Hf _]])|(_ & Hf & _)]%keepSeat_Ok; [|congruence..].
        simplify_eq. split; [|done]. cbn. apply elem_of_union_l. by apply elem_of_singleton. }
      revert H2.
      apply (forEach_clash _ (fun t => sid ∈ t.2) pupils _ p q); try done.
      * intros y t t' [(s & _ & -> & _)|(-> & _)]%keepSeat_Ok Ht; [|done].
        cbn. by apply elem_of_union_r.
      * intros t t' Ht. by apply (Htaken p t t' Hp Hrp).
      * intros t t' Ht. by apply (Htaken q t t' Hq Hrq).
      * intros t t' Ht Hrun. by apply (Htaken p t t' Hp Hrp Hrun).
      * intros t t' Ht Hrun. by apply (Htaken q t t' Hq Hrq Hrun).
Qed.

(** C3.  The builder refuses a fixed seat identifier that the room does not
    have; repair has no such test and returns an assignment that seats the
    pupil there. *)
Theorem repair_accepts_unknown_fixed_seat :
  buildInitialAssignment oneSeatRoom [Pupil.mk "A" [] (Some (FixedSeat "S09_09"))] 1
    = Throw (FixedSeatNotInMap "S09_09") ∧
  repairAssignment oneSeatRoom [Pupil.mk "A" [] (Some (FixedSeat "S09_09"))] ∅ 1
    = Ok {[ "A" := "S09_09" ]}.
Proof. split; by vm_compute. Qed.

(** ** The claim about the guards *)

(** C7, as stated, fails: the builder returns an assignment with no
    pupils; with two records of one pupil and one seat; and with two
    pupils and one seat when one of them is named as a member of
    [Object.prototype] and so passes for seated. *)
Lemma builder_returns_without_validation_error :
  buildInitialAssignment demoRoom [] 12345 = Ok ∅ ∧
  buildInitialAssignment oneSeatRoom
      [Pupil.mk "A" [] (Some (FixedSeat "S00_00")); Pupil.mk "A" [] None] 12345
    = Ok {[ "A" := "S00_00" ]} ∧
  buildInitialAssignment oneSeatRoom
      [Pupil.mk "A" [] None; Pupil.mk "constructor" [] None] 12345
    = Ok {[ "A" := "S00_00" ]}.
Proof. split_and!; by vm_compute. Qed.

(** C7, amended.  [solve] throws on no pupils, on no seats and on more
    pupils than seats, before any restart.  The builder throws on more
    pupils than seats (so also on no seats and some pupil) when the pupil
    ids differ and no pupil without a fixed seat is named as a member of
    [Object.prototype]; it returns the empty assignment when there are no
    pupils. *)
Theorem validation_failures room pupils rules metropolis whileBound :
  (∀ restarts iters seed,
     (pupils = [] →
        solve room pupils rules metropolis whileBound restarts iters seed = Throw NoPupils) ∧
     (pupils ≠ [] → allSeatIds room = [] →
        solve room pupils rules metropolis whileBound restarts iters seed = Throw NoSeats) ∧
     (pupils ≠ [] → allSeatIds room ≠ [] →
      (length (allSeatIds room) < length pupils)%nat →
        solve room pupils rules metropolis whileBound restarts iters seed
          = Throw NotEnoughSeats)) ∧
  (∀ seed,
     NoDup (Pupil.id <$> pupils) →
     (∀ p, p ∈ pupils → ¬ declaresSeat p → Pupil.id p ∉ protoNames) →
     (length (allSeatIds room) < length pupils)%nat →
     ∃ e, buildInitialAssignment room pupils seed = Throw e) ∧
  (∀ seed, pupils = [] → buildInitialAssignment room pupils seed = Ok ∅).
Proof.
  split_and!.
  - intros restarts iters seed. apply solve_guards.
  - intros seed Hids Hnames. apply buildInitialAssignment_capacity; [done|].
    intros p Hp Hnf. apply Hnames; [done|]. rewrite <-isFixedPupil_declares. congruence.
  - intros seed. apply buildInitialAssignment_no_pupils.
Qed.

Lemma validation_failures_witness :
  solve oneSeatRoom [Pupil.mk "A" [] None; Pupil.mk "B" [] None] [] (fun _ _ _ => false) 50
        5 2000 12345 = Throw NotEnoughSeats ∧
  ∃ e, buildInitialAssignment oneSeatRoom [Pupil.mk "A" [] None; Pupil.mk "B" [] None] 12345
       = Throw e.
Proof.
  pose proof (validation_failures oneSeatRoom [Pupil.mk "A" [] None; Pupil.mk "B" [] None] []
                (fun _ _ _ => false) 50) as (Hsolve & Hbuild & _).
  split.
  - apply (Hsolve 5 2000 12345); [done|done|cbn; lia].
  - apply (Hbuild 12345); [apply (bool_decide_unpack _); by vm_compute| |cbn; lia].
    intros p Hp _. apply (bool_decide_unpack _).
    rewrite !elem_of_cons, elem_of_nil in Hp. by destruct Hp as [->|[->|[]]].
Defined.

Lemma rulePenalty_soft_witness :
  rulePenalty lateRule {[ "A" := "S01_01" ]} [] [] = 1.
Proof.
  assert (Hsoft : Rule.hard lateRule = false) by reflexivity.
  assert (Hp : 0 < rawPenalty lateRule {[ "A" := "S01_01" ]} [] []) by (by vm_compute).
  assert (Hw : -2147483648 <= 0 < 2147483648) by lia.
  assert (Hweight : default 0 (Rule.weight lateRule) = 0 + 0 * 4294967296) by reflexivity.
  destruct (rulePenalty_soft lateRule {[ "A" := "S01_01" ]} [] [] 0 0 Hsoft Hp Hw Hweight)
    as (_ & _ & _ & Hsmall & _).
  rewrite Hsmall; [by vm_compute|lia|by vm_compute].
Defined.

(** * Further properties *)

(** ** Random helpers *)

(** X1. An index drawn as [Math.floor(rng() * k)] lies in [0, k) for every
    generator state and every [k >= 1], although the product is rounded to
    a double before it is floored. *)
Theorem random_index_in_range (a k : Z) :
  1 <= k → 0 <= JS.floorMul (rngNext a).1 k < k.
Proof.
  intros Hk. apply JSFacts.floorMul_range; [apply rngNext_range | done].
Qed.

Lemma random_index_in_range_witness : 0 <= JS.floorMul (rngNext 12345).1 3 < 3.
Proof. apply (random_index_in_range 12345 3). lia. Defined.

Lemma shuffleFrom_draws {A} (i : nat) (arr : list A) (rng : Z) :
  (shuffleFrom i arr rng).2 = draws i rng.
Proof.
  revert arr rng. induction i as [|i IH]; intros arr rng; [done|].
  cbn [shuffleFrom]. destruct (rngNext rng) as [u rng'] eqn:Hn.
  rewrite IH. unfold draws. rewrite Nat.iter_succ_r. by rewrite Hn.
Qed.

(** X2. [shuffleInPlace] rearranges the array (nothing lost, nothing
    doubled), takes exactly [length - 1] draws from the generator whatever
    the array holds, and leaves an array of at most one element and the
    generator as they are. *)
Theorem shuffleInPlace_rearranges {A} (arr : list A) (rng : Z) :
  (shuffleInPlace arr rng).1 ≡ₚ arr ∧
  length (shuffleInPlace arr rng).1 = length arr ∧
  (shuffleInPlace arr rng).2 = draws (length arr - 1) rng ∧
  ((length arr <= 1)%nat → shuffleInPlace arr rng = (arr, rng)).
Proof.
  split_and!.
  - apply shuffleFrom_perm.
  - apply Permutation_length, shuffleFrom_perm.
  - apply shuffleFrom_draws.
  - intros Hlen. unfold shuffleInPlace.
    by replace (length arr - 1)%nat with O by lia.
Qed.

(** ** Tiles: what a click leaves alone *)

Lemma elem_of_setAdd {K} `{EqDecision K} (x k : K) s : x ∈ setAdd k s ↔ x = k ∨ x ∈ s.
Proof.
  unfold setAdd, setHas. case_bool_decide as Hk.
  - split; [by right | by intros [->|?]].
  - rewrite elem_of_app, list_elem_of_singleton. tauto.
Qed.

Lemma elem_of_setDelete {K} `{EqDecision K} (x k : K) s : x ∈ setDelete k s ↔ x ≠ k ∧ x ∈ s.
Proof. unfold setDelete. by rewrite list_elem_of_filter. Qed.

Lemma setHas_ext {K} `{EqDecision K} (k : K) s s' :
  (k ∈ s ↔ k ∈ s') → setHas k s = setHas k s'.
Proof. intros Heq. unfold setHas. by apply bool_decide_ext. Qed.

Lemma mapGet_mapSet {K V} `{EqDecision K} (k k' : K) (v : V) m :
  mapGet k' (mapSet k v m) = if decide (k = k') then Some v else mapGet k' m.
Proof.
  induction m as [|[k0 v0] m IH]; cbn [mapSet mapGet].
  - by destruct (decide (k = k')).
  - destruct (decide (k0 = k)) as [->|Hne]; cbn [mapGet].
    + by destruct (decide (k = k')).
    + destruct (decide (k0 = k')) as [->|Hne'].
      * by rewrite decide_False by done.
      * apply IH.
Qed.

Lemma mapGet_mapDelete {K V} `{EqDecision K} (k k' : K) (m : list (K * V)) :
  mapGet k' (mapDelete k m) = if decide (k = k') then None else mapGet k' m.
Proof.
  unfold mapDelete. induction m as [|[k0 v0] m IH]; cbn [mapGet].
  - by destruct (decide (k = k')).
  - rewrite filter_cons. cbn [fst]. destruct (decide (k0 ≠ k)) as [Hne|Heq]; cbn [mapGet].
    + destruct (decide (k0 = k')) as [->|Hne']; [by rewrite decide_False by done|apply IH].
    + apply dec_stable in Heq as ->. rewrite IH.
      by destruct (decide (k = k')).
Qed.

Lemma mapHas_mapGet {K V} `{EqDecision K} (k : K) (m : list (K * V)) :
  mapHas k m = bool_decide (is_Some (mapGet k m)).
Proof.
  unfold mapHas. apply bool_decide_ext. induction m as [|[k0 v0] m IH]; cbn [mapGet].
  - rewrite fmap_nil, elem_of_nil. split; [done|]. by intros [? ?].
  - rewrite fmap_cons, elem_of_cons. cbn [fst]. destruct (decide (k0 = k)) as [->|Hne].
    + split; [by eauto|by left].
    + rewrite <-IH. split; [by intros [?|?]|by right].
Qed.

(** X3. A click changes nothing but the clicked tile: every other tile
    keeps its three classes and its seat identifier, and the size of the
    grid is not touched. *)
Theorem classify_leaves_other_tiles t r c room r' c' :
  (r', c') ≠ (r, c) →
  isSeat (classify t r c room) r' c' = isSeat room r' c' ∧
  isBlocked (classify t r c room) r' c' = isBlocked room r' c' ∧
  isTeacher (classify t r c room) r' c' = isTeacher room r' c' ∧
  mapGet (keyRC r' c') (seats (classify t r c room)) = mapGet (keyRC r' c') (seats room) ∧
  rows (classify t r c room) = rows room ∧
  cols (classify t r c room) = cols room ∧
  cell (classify t r c room) = cell room.
Proof.
  intros Hne.
  assert (Hk : keyRC r c ≠ keyRC r' c') by (unfold keyRC; congruence).
  assert (Hget : mapGet (keyRC r' c') (seats (classify t r c room))
                 = mapGet (keyRC r' c') (seats room)).
  { destruct t; cbn [classify ensureSeat ensureBlocked ensureTeacher ensureEmpty seats];
      rewrite ?mapGet_mapSet, ?mapGet_mapDelete; by rewrite ?decide_False by done. }
  assert (Hadd : ∀ s, setHas (keyRC r' c') (setAdd (keyRC r c) s) = setHas (keyRC r' c') s).
  { intros s. apply setHas_ext. rewrite elem_of_setAdd.
    split; [by intros [?|?]|by right]. }
  assert (Hdel : ∀ s, setHas (keyRC r' c') (setDelete (keyRC r c) s) = setHas (keyRC r' c') s).
  { intros s. apply setHas_ext. rewrite elem_of_setDelete.
    split; [by intros [_ ?]|by split]. }
  unfold isSeat. rewrite !mapHas_mapGet, Hget. split; [done|].
  unfold isBlocked, isTeacher.
  destruct t; cbn [classify ensureSeat ensureBlocked ensureTeacher ensureEmpty
                   blocked teacher rows cols cell];
    unfold isBlocked; rewrite ?Hadd, ?Hdel; split_and!; try done;
    by destruct (setHas (keyRC r c) (blocked room)); rewrite ?Hdel.
Qed.

Lemma classify_leaves_other_tiles_witness :
  isSeat (classify ToolBlocked 1 1 frontRoom) 1 2 = isSeat frontRoom 1 2 ∧
  isBlocked (classify ToolBlocked 1 1 frontRoom) 1 2 = isBlocked frontRoom 1 2 ∧
  isTeacher (classify ToolBlocked 1 1 frontRoom) 1 2 = isTeacher frontRoom 1 2 ∧
  mapGet (keyRC 1 2) (seats (classify ToolBlocked 1 1 frontRoom))
    = mapGet (keyRC 1 2) (seats frontRoom) ∧
  rows (classify ToolBlocked 1 1 frontRoom) = rows frontRoom ∧
  cols (classify ToolBlocked 1 1 frontRoom) = cols frontRoom ∧
  cell (classify ToolBlocked 1 1 frontRoom) = cell frontRoom.
Proof. apply (classify_leaves_other_tiles ToolBlocked 1 1 frontRoom 1 2). discriminate. Defined.

Lemma setAdd_idemp {K} `{EqDecision K} (k : K) s : setAdd k (setAdd k s) = setAdd k s.
Proof.
  unfold setAdd at 1. by rewrite setHas_setAdd.
Qed.

Lemma setDelete_idemp {K} `{EqDecision K} (k : K) s : setDelete k (setDelete k s) = setDelete k s.
Proof.
  unfold setDelete. induction s as [|x s IH]; [done|].
  rewrite filter_cons. destruct (decide (x ≠ k)); [|done].
  rewrite filter_cons, decide_True by done. by rewrite IH.
Qed.

Lemma mapDelete_idemp {K V} `{EqDecision K} (k : K) (m : list (K * V)) :
  mapDelete k (mapDelete k m) = mapDelete k m.
Proof.
  unfold mapDelete. induction m as [|x m IH]; [done|].
  rewrite filter_cons. destruct (decide (x.1 ≠ k)); [|done].
  rewrite filter_cons, decide_True by done. by rewrite IH.
Qed.

Lemma mapSet_idemp {K V} `{EqDecision K} (k : K) (v : V) m :
  mapSet k v (mapSet k v m) = mapSet k v m.
Proof.
  induction m as [|[k0 v0] m IH]; cbn [mapSet].
  - by rewrite decide_True.
  - destruct (decide (k0 = k)) as [->|Hne]; cbn [mapSet].
    + by rewrite decide_True.
    + by rewrite decide_False, IH.
Qed.

Lemma setHas_false_setDelete {K} `{EqDecision K} (k : K) s :
  setHas k s = false → setDelete k s = s.
Proof.
  unfold setHas, setDelete. intros Hk%bool_decide_eq_false.
  induction s as [|x s IH]; [done|].
  rewrite not_elem_of_cons in Hk. destruct Hk as [Hx Hs].
  rewrite filter_cons, decide_True by done. by rewrite IH.
Qed.

(** X4. Clicking a tile twice with the same tool is the same as clicking
    it once. *)
Theorem classify_twice t r c room :
  classify t r c (classify t r c room) = classify t r c room.
Proof.
  destruct t; cbn [classify]; unfold ensureSeat, ensureBlocked, ensureTeacher, ensureEmpty;
    cbn [rows cols cell blocked teacher seats]; f_equal;
    rewrite ?setAdd_idemp, ?setDelete_idemp, ?mapDelete_idemp, ?mapSet_idemp; try done.
  all: unfold isBlocked; cbn [blocked];
    destruct (setHas (keyRC r c) (blocked room)) eqn:Hb;
    by rewrite ?setHas_setDelete, ?Hb.
Qed.

Lemma classify_blockedApart t r c room :
  blockedApart room → blockedApart (classify t r c room).
Proof.
  intros Hinv k.
  assert (Hseats : ∀ (v : string) m, k ∈ (mapSet (keyRC r c) v m).*1 → k = keyRC r c ∨ k ∈ m.*1).
  { intros v m. rewrite mapSet_keys. destruct (mapHas _ _); [by right|].
    rewrite elem_of_app, list_elem_of_singleton. tauto. }
  assert (Hdel : ∀ (m : list (tileKey * string)),
             k ∈ (mapDelete (keyRC r c) m).*1 → k ≠ keyRC r c ∧ k ∈ m.*1).
  { intros m. unfold mapDelete. rewrite !list_elem_of_fmap.
    intros (kv & -> & [? ?]%list_elem_of_filter). eauto. }
  assert (Hpruned : k ∈ (if isBlocked room r c then setDelete (keyRC r c) (blocked room)
                         else blocked room) → k ≠ keyRC r c ∧ k ∈ blocked room).
  { unfold isBlocked. destruct (setHas _ _) eqn:Hb.
    - by rewrite elem_of_setDelete.
    - intros Hk. split; [|done]. intros ->.
      by apply setHas_true in Hk; rewrite Hk in Hb. }
  destruct t; cbn [classify ensureSeat ensureBlocked ensureTeacher ensureEmpty
                   blocked teacher seats].
  - intros [Hne Hk]%Hpruned. destruct (Hinv k Hk) as [Hs Ht].
    split; [|done]. by intros [?|?]%Hseats.
  - rewrite elem_of_setAdd, elem_of_setDelete. intros [->|Hk].
    + split; [by intros [? _]%Hdel | by intros [? _]].
    + destruct (Hinv k Hk) as [Hs Ht]. split; [by intros [_ ?]%Hdel | by intros [_ ?]].
  - intros [Hne Hk]%Hpruned. destruct (Hinv k Hk) as [Hs Ht].
    split; [done|]. rewrite elem_of_setAdd. by intros [?|?].
  - rewrite !elem_of_setDelete. intros [Hne Hk]. destruct (Hinv k Hk) as [Hs Ht].
    split; [by intros [_ ?]%Hdel | by intros [_ ?]].
Qed.

(** X5. A blocked tile is never a seat or a teacher tile as well: the
    property holds in the room the script starts with and every click keeps
    it, whatever the tools and the tiles. *)
Theorem clicks_keep_blocked_apart clicks room :
  blockedApart room → blockedApart (applyClicks clicks room).
Proof.
  unfold applyClicks. revert room.
  induction clicks as [|click clicks IH]; intros room Hinv; [done|].
  cbn [foldl]. by apply IH, classify_blockedApart.
Qed.

Lemma clicks_keep_blocked_apart_witness :
  blockedApart emptyRoom ∧
  blockedApart (applyClicks [(ToolSeat, 1, 1); (ToolBlocked, 1, 1); (ToolTeacher, 0, 0)]
                            emptyRoom).
Proof.
  assert (Hempty : blockedApart emptyRoom).
  { intros k Hk. by apply elem_of_nil in Hk. }
  split; [exact Hempty|].
  exact (clicks_keep_blocked_apart _ emptyRoom Hempty).
Defined.

(** ** Rooms made by clicks *)

Lemma seatPosById_seatIdFor r c :
  0 <= r <= 99 → 0 <= c <= 99 →
  seatPosById (seatIdFor r c) = Some {| pos_r := r; pos_c := c |}.
Proof.
  intros Hr Hc. rewrite seatIdFor_two_digits by done.
  assert (Hd : ∀ n, 0 <= n <= 99 →
    ∃ d1 d2, twoDigits n = String d1 (String d2 EmptyString) ∧
             JS.isDigit d1 = true ∧ JS.isDigit d2 = true ∧
             10 * JS.digitVal d1 + JS.digitVal d2 = n).
  { intros n Hn. unfold twoDigits. do 2 eexists. split; [done|].
    pose proof (Z.mod_pos_bound n 10 ltac:(lia)).
    pose proof (Z.div_mod n 10 ltac:(lia)).
    assert (0 <= n / 10 <= 9) by lia.
    unfold JS.isDigit, JS.digitVal. rewrite !nat_ascii_embedding by lia.
    split_and!; [apply andb_true_intro; split; apply Nat.leb_le; lia..|lia]. }
  destruct (Hd r Hr) as (d1 & d2 & -> & H1 & H2 & <-).
  destruct (Hd c Hc) as (d3 & d4 & -> & H3 & H4 & <-).
  cbv beta iota delta [String.append seatPosById]. by rewrite H1, H2, H3, H4.
Qed.

Lemma mapGet_elem {K V} `{EqDecision K} (k : K) (m : list (K * V)) v :
  mapGet k m = Some v → (k, v) ∈ m.
Proof.
  induction m as [|[k0 v0] m IH]; cbn [mapGet]; [done|].
  destruct (decide (k0 = k)) as [->|Hne].
  - intros [= ->]. by left.
  - intros Hv. right. by apply IH.
Qed.

Lemma applyClicks_drawn clicks room :
  drawnRoom room →
  Forall (fun click : tool * Z * Z => 0 <= click.1.2 <= 99 ∧ 0 <= click.2 <= 99) clicks →
  drawnRoom (applyClicks clicks room).
Proof.
  unfold applyClicks. revert room.
  induction clicks as [|click clicks IH]; intros room Hroom Hclicks; [done|].
  apply Forall_cons in Hclicks as [[Hr Hc] Hclicks].
  cbn [foldl]. apply IH; [|done]. by apply classify_drawn.
Qed.

(** X6. Starting from a room whose seats carry the identifier of their
    tile (the empty room is one), any run of clicks on tiles of rows and
    columns 0..99 gives a room whose seat identifiers are distinct and not
    empty, and where the identifier of every seat tile is [seatIdFor] of the
    tile and reads back as that tile under [seatPosById]. *)
Theorem clicked_seats_carry_their_tile clicks room :
  drawnRoom room →
  Forall (fun click : tool * Z * Z => 0 <= click.1.2 <= 99 ∧ 0 <= click.2 <= 99) clicks →
  NoDup (allSeatIds (applyClicks clicks room)) ∧
  ("" ∉ allSeatIds (applyClicks clicks room)) ∧
  ∀ r c sid, mapGet (keyRC r c) (seats (applyClicks clicks room)) = Some sid →
             sid = seatIdFor r c ∧ seatPosById sid = Some {| pos_r := r; pos_c := c |}.
Proof.
  intros Hroom Hclicks.
  pose proof (applyClicks_drawn clicks room Hroom Hclicks) as Hdrawn.
  destruct (drawnRoom_seatIds _ Hdrawn) as [Hnd Hne].
  split_and!; [done..|].
  intros r c sid Hget%mapGet_elem.
  destruct Hdrawn as [_ Hall]. destruct (Hall _ _ Hget) as [[Hr Hc] ->].
  split; [done|]. by apply seatPosById_seatIdFor.
Qed.

Lemma clicked_seats_carry_their_tile_witness :
  NoDup (allSeatIds (applyClicks [(ToolSeat, 1, 1); (ToolSeat, 0, 12); (ToolBlocked, 1, 1)]
                                 emptyRoom)) ∧
  ("" ∉ allSeatIds (applyClicks [(ToolSeat, 1, 1); (ToolSeat, 0, 12); (ToolBlocked, 1, 1)]
                                emptyRoom)) ∧
  ∀ r c sid,
    mapGet (keyRC r c)
           (seats (applyClicks [(ToolSeat, 1, 1); (ToolSeat, 0, 12); (ToolBlocked, 1, 1)]
                               emptyRoom)) = Some sid →
    sid = seatIdFor r c ∧ seatPosById sid = Some {| pos_r := r; pos_c := c |}.
Proof.
  apply (clicked_seats_carry_their_tile
           [(ToolSeat, 1, 1); (ToolSeat, 0, 12); (ToolBlocked, 1, 1)] emptyRoom).
  - split; [constructor|]. intros k v Hk. by apply elem_of_nil in Hk.
  - repeat constructor; cbn; lia.
Defined.

(** ** [Set] and [Map] built from arrays *)

Lemma setAdd_NoDup {K} `{EqDecision K} (k : K) s : NoDup s → NoDup (setAdd k s).
Proof.
  intros Hs. unfold setAdd, setHas. case_bool_decide as Hk; [done|].
  apply NoDup_app. split_and!; [done| |apply NoDup_singleton].
  intros x Hx ->%list_elem_of_singleton. done.
Qed.

Lemma foldl_setAdd_elem {K} `{EqDecision K} (x : K) l acc :
  x ∈ foldl (fun s k => setAdd k s) acc l ↔ x ∈ acc ∨ x ∈ l.
Proof.
  revert acc. induction l as [|k l IH]; intros acc; cbn [foldl].
  - rewrite elem_of_nil. tauto.
  - rewrite IH, elem_of_setAdd, elem_of_cons. tauto.
Qed.

Lemma foldl_setAdd_NoDup {K} `{EqDecision K} (l acc : list K) :
  NoDup acc → NoDup (foldl (fun s k => setAdd k s) acc l).
Proof.
  revert acc. induction l as [|k l IH]; intros acc Hacc; cbn [foldl]; [done|].
  by apply IH, setAdd_NoDup.
Qed.

Lemma foldl_setAdd_fresh {K} `{EqDecision K} (l acc : list K) :
  NoDup (acc ++ l)%list → foldl (fun s k => setAdd k s) acc l = (acc ++ l)%list.
Proof.
  revert acc. induction l as [|k l IH]; intros acc Hnd; cbn [foldl].
  - by rewrite app_nil_r.
  - assert (Hk : setHas k acc = false).
    { apply bool_decide_eq_false. apply NoDup_app in Hnd as (_ & Hdis & _).
      intros Hk. apply (Hdis k Hk). by left. }
    unfold setAdd. rewrite Hk. rewrite IH; rewrite <-app_assoc; done.
Qed.

Lemma setOfArray_elem {K} `{EqDecision K} (x : K) l : x ∈ setOfArray l ↔ x ∈ l.
Proof. unfold setOfArray. rewrite foldl_setAdd_elem, elem_of_nil. tauto. Qed.

Lemma setOfArray_NoDup {K} `{EqDecision K} (l : list K) : NoDup (setOfArray l).
Proof. apply foldl_setAdd_NoDup. constructor. Qed.

Lemma setOfArray_id {K} `{EqDecision K} (l : list K) : NoDup l → setOfArray l = l.
Proof. intros Hl. unfold setOfArray. by rewrite foldl_setAdd_fresh. Qed.

Lemma mapSet_NoDup {K V} `{EqDecision K} (k : K) (v : V) m :
  NoDup m.*1 → NoDup (mapSet k v m).*1.
Proof.
  intros Hm. rewrite mapSet_keys. unfold mapHas. case_bool_decide as Hk; [done|].
  apply NoDup_app. split_and!; [done| |apply NoDup_singleton].
  intros x Hx ->%list_elem_of_singleton. done.
Qed.

Lemma mapSet_fresh {K V} `{EqDecision K} (k : K) (v : V) m :
  k ∉ m.*1 → mapSet k v m = (m ++ [(k, v)])%list.
Proof.
  induction m as [|[k0 v0] m IH]; cbn [mapSet]; [done|].
  rewrite fmap_cons, not_elem_of_cons. cbn [fst]. intros [Hne Hk].
  rewrite decide_False by done. by rewrite IH.
Qed.

Lemma foldl_mapSet_fresh {K V} `{EqDecision K} (l acc : list (K * V)) :
  NoDup ((acc ++ l)%list).*1 → foldl (fun m kv => mapSet kv.1 kv.2 m) acc l = (acc ++ l)%list.
Proof.
  revert acc. induction l as [|[k v] l IH]; intros acc Hnd; cbn [foldl].
  - by rewrite app_nil_r.
  - cbn [fst snd]. rewrite mapSet_fresh.
    + rewrite IH; rewrite <-app_assoc; done.
    + rewrite fmap_app in Hnd. apply NoDup_app in Hnd as (_ & Hdis & _).
      intros Hk. apply (Hdis k Hk). rewrite fmap_cons. by left.
Qed.

Lemma foldl_mapSet_NoDup {K V} `{EqDecision K} (l acc : list (K * V)) :
  NoDup acc.*1 → NoDup (foldl (fun m kv => mapSet kv.1 kv.2 m) acc l).*1.
Proof.
  revert acc. induction l as [|kv l IH]; intros acc Hacc; cbn [foldl]; [done|].
  by apply IH, mapSet_NoDup.
Qed.

Lemma mapOfEntries_NoDup {K V} `{EqDecision K} (l : list (K * V)) : NoDup (mapOfEntries l).*1.
Proof. apply foldl_mapSet_NoDup. constructor. Qed.

Lemma mapOfEntries_id {K V} `{EqDecision K} (l : list (K * V)) :
  NoDup l.*1 → mapOfEntries l = l.
Proof. intros Hl. unfold mapOfEntries. by rewrite foldl_mapSet_fresh. Qed.

(** ** Resizing the grid *)

Lemma clamp_range x a b : a <= b → a <= clamp x a b <= b.
Proof. unfold clamp. lia. Qed.

Lemma clamp_id x a b : a <= x <= b → clamp x a b = x.
Proof. unfold clamp. lia. Qed.

Lemma inBoundsKey_spec newR newC r c :
  inBoundsKey newR newC (keyRC r c) = true ↔ 0 <= r < newR ∧ 0 <= c < newC.
Proof.
  unfold inBoundsKey, keyRC. cbn [fst snd].
  rewrite !andb_true_iff, !Z.leb_le, !Z.ltb_lt. lia.
Qed.

Lemma foldl_mapSet_if {K V} `{EqDecision K} (f : K → bool) (l acc : list (K * V)) :
  foldl (fun m kv => if f kv.1 then mapSet kv.1 kv.2 m else m) acc l
  = foldl (fun m kv => mapSet kv.1 kv.2 m) acc (filter (fun kv => f kv.1 = true) l).
Proof.
  revert acc. induction l as [|kv l IH]; intros acc; [done|].
  cbn [foldl]. rewrite filter_cons. destruct (f kv.1) eqn:Hf.
  - rewrite decide_True by done. cbn [foldl]. apply IH.
  - rewrite decide_False by done. apply IH.
Qed.

Lemma filter_keys_NoDup {K V} (P : K * V → Prop) `{!∀ x, Decision (P x)} (m : list (K * V)) :
  NoDup m.*1 → NoDup (filter P m).*1.
Proof.
  intros Hm. eapply sublist_NoDup; [exact Hm|]. apply fmap_sublist, sublist_filter.
Qed.

Lemma mapGet_filter {K V} `{EqDecision K} (f : K → bool) (k : K) (m : list (K * V)) :
  mapGet k (filter (fun kv => f kv.1 = true) m) = if f k then mapGet k m else None.
Proof.
  induction m as [|[k0 v0] m IH]; cbn [mapGet]; [by destruct (f k)|].
  rewrite filter_cons. cbn [fst]. destruct (decide (f k0 = true)) as [Hf|Hf]; cbn [mapGet].
  - destruct (decide (k0 = k)) as [->|Hne]; [by rewrite Hf|done].
  - destruct (decide (k0 = k)) as [->|Hne]; [|done].
    rewrite IH. by destruct (f k).
Qed.

Lemma resizeRoom_filtered inpRows inpCols room :
  keysOnce room →
  let inB := fun k => inBoundsKey (resizeRows inpRows) (resizeCols inpCols) k = true in
  blocked (resizeRoom inpRows inpCols room) = filter inB (blocked room) ∧
  teacher (resizeRoom inpRows inpCols room) = filter inB (teacher room) ∧
  seats (resizeRoom inpRows inpCols room) = filter (fun kv => inB kv.1) (seats room).
Proof.
  intros (Hb & Ht & Hs) inB. unfold resizeRoom. cbn [blocked teacher seats].
  split_and!.
  - apply setOfArray_id. eapply sublist_NoDup; [exact Hb|apply sublist_filter].
  - apply setOfArray_id. eapply sublist_NoDup; [exact Ht|apply sublist_filter].
  - rewrite foldl_mapSet_if. apply (mapOfEntries_id (filter _ (seats room))).
    by apply filter_keys_NoDup.
Qed.

(** X7. Resizing, on a room whose sets hold every key once: the new size
    is inside 1..40 both ways; every tile inside the new bounds keeps its
    seat identifier and its blocked and teacher marks; every tile outside
    loses all three; the seats that remain stay in the order they had; and
    the sets of the new room hold every key once. *)
Theorem resize_prunes_out_of_bounds inpRows inpCols room :
  keysOnce room →
  let room' := resizeRoom inpRows inpCols room in
  (1 <= rows room' <= 40 ∧ 1 <= cols room' <= 40) ∧
  (∀ r c, 0 <= r < rows room' → 0 <= c < cols room' →
     mapGet (keyRC r c) (seats room') = mapGet (keyRC r c) (seats room) ∧
     isBlocked room' r c = isBlocked room r c ∧
     isTeacher room' r c = isTeacher room r c) ∧
  (∀ r c, ¬ (0 <= r < rows room' ∧ 0 <= c < cols room') →
     mapGet (keyRC r c) (seats room') = None ∧
     isBlocked room' r c = false ∧
     isTeacher room' r c = false) ∧
  allSeatIds room' `sublist_of` allSeatIds room ∧
  keysOnce room'.
Proof.
  intros Hroom room'.
  destruct (resizeRoom_filtered inpRows inpCols room Hroom) as (Hb & Ht & Hs).
  fold room' in Hb, Ht, Hs.
  assert (Hdims : rows room' = resizeRows inpRows ∧ cols room' = resizeCols inpCols) by done.
  destruct Hdims as [HR HC].
  assert (Hset : ∀ r c (s : list tileKey),
            setHas (keyRC r c)
                   (filter (fun k => inBoundsKey (resizeRows inpRows) (resizeCols inpCols) k = true) s)
            = inBoundsKey (resizeRows inpRows) (resizeCols inpCols) (keyRC r c)
              && setHas (keyRC r c) s).
  { intros r c s. unfold setHas.
    destruct (inBoundsKey _ _ (keyRC r c)) eqn:Hin; cbn [andb].
    - apply bool_decide_ext. rewrite list_elem_of_filter. tauto.
    - apply bool_decide_eq_false. rewrite list_elem_of_filter. intros [? _]. congruence. }
  refine (conj _ (conj _ (conj _ (conj _ _)))).
  - rewrite HR, HC. split; apply clamp_range; lia.
  - intros r c Hr Hc. rewrite HR in Hr. rewrite HC in Hc.
    assert (Hin : inBoundsKey (resizeRows inpRows) (resizeCols inpCols) (keyRC r c) = true)
      by by apply inBoundsKey_spec.
    unfold isBlocked, isTeacher. rewrite Hb, Ht, Hs, !Hset, Hin.
    split_and!; [|done..].
    by rewrite (mapGet_filter (inBoundsKey _ _)), Hin.
  - intros r c Hout. rewrite HR, HC in Hout.
    assert (Hin : inBoundsKey (resizeRows inpRows) (resizeCols inpCols) (keyRC r c) = false).
    { apply not_true_is_false. by rewrite inBoundsKey_spec. }
    unfold isBlocked, isTeacher. rewrite Hb, Ht, Hs, !Hset, Hin.
    split_and!; [|done..].
    by rewrite (mapGet_filter (inBoundsKey _ _)), Hin.
  - unfold allSeatIds, mapValues. rewrite Hs. apply fmap_sublist, sublist_filter.
  - destruct Hroom as (Hnb & Hnt & Hns). unfold keysOnce. rewrite Hb, Ht, Hs. split_and!.
    + eapply sublist_NoDup; [exact Hnb|apply sublist_filter].
    + eapply sublist_NoDup; [exact Hnt|apply sublist_filter].
    + by apply filter_keys_NoDup.
Qed.

Lemma resize_prunes_out_of_bounds_witness :
  let room' := resizeRoom (Some 1) None demoRoom in
  (1 <= rows room' <= 40 ∧ 1 <= cols room' <= 40) ∧
  (∀ r c, 0 <= r < rows room' → 0 <= c < cols room' →
     mapGet (keyRC r c) (seats room') = mapGet (keyRC r c) (seats demoRoom) ∧
     isBlocked room' r c = isBlocked demoRoom r c ∧
     isTeacher room' r c = isTeacher demoRoom r c) ∧
  (∀ r c, ¬ (0 <= r < rows room' ∧ 0 <= c < cols room') →
     mapGet (keyRC r c) (seats room') = None ∧
     isBlocked room' r c = false ∧
     isTeacher room' r c = false) ∧
  allSeatIds room' `sublist_of` allSeatIds demoRoom ∧
  keysOnce room'.
Proof.
  apply (resize_prunes_out_of_bounds (Some 1) None demoRoom).
  split_and!; apply (bool_decide_unpack _); by vm_compute.
Defined.

(** ** Who sits where *)

Lemma invertAssignment_snoc l pid sid :
  invertAssignment (l ++ [(pid, sid)]) = objSet sid pid (invertAssignment l).
Proof. unfold invertAssignment. by rewrite foldl_app. Qed.

Lemma invertAssignment_sound l sid pid :
  invertAssignment l !! sid = Some pid → (pid, sid) ∈ l.
Proof.
  induction l as [|[p s] l IH] using rev_ind; [done|].
  rewrite invertAssignment_snoc, elem_of_app, list_elem_of_singleton.
  intros [(-> & -> & _)|Hl]%objSet_lookup_Some; [by right|]. left. by apply IH.
Qed.

Lemma invertAssignment_dom l sid pid :
  (pid, sid) ∈ l → sid ≠ "__proto__" → is_Some (invertAssignment l !! sid).
Proof.
  intros Hin Hsid. revert Hin.
  induction l as [|[p s] l IH] using rev_ind; [by intros ?%elem_of_nil|].
  rewrite invertAssignment_snoc, elem_of_app, list_elem_of_singleton.
  destruct (decide (s = sid)) as [->|Hne].
  - rewrite objSet_lookup_eq by done. by eauto.
  - rewrite objSet_lookup_ne by done. intros [Hl|[= -> ->]]; [by apply IH|done].
Qed.

Lemma invertAssignment_proto l : invertAssignment l !! "__proto__" = None.
Proof.
  induction l as [|[p s] l IH] using rev_ind; [done|].
  by rewrite invertAssignment_snoc, objSet_proto.
Qed.

(** X8. [invertAssignment], for the entries of an assignment in any order:
    a seat is listed with a pupil only if that pupil sits there; the seats
    listed are exactly the seats taken, but for a seat named [__proto__],
    which is never listed; and when no two pupils share a seat every pupil
    on a seat of another name is found under its seat. *)
Theorem invertAssignment_inverse (assign : gmap string string) entries :
  entries ≡ₚ map_to_list assign →
  (∀ sid pid, invertAssignment entries !! sid = Some pid → assign !! pid = Some sid) ∧
  (∀ sid, is_Some (invertAssignment entries !! sid) ↔
          sid ≠ "__proto__" ∧ ∃ pid, assign !! pid = Some sid) ∧
  (injective assign →
   ∀ pid sid, assign !! pid = Some sid → sid ≠ "__proto__" →
              invertAssignment entries !! sid = Some pid).
Proof.
  intros Hentries.
  assert (Hin : ∀ pid sid, (pid, sid) ∈ entries ↔ assign !! pid = Some sid).
  { intros pid sid. by rewrite Hentries, elem_of_map_to_list. }
  split_and!.
  - intros sid pid Hl. by apply Hin, invertAssignment_sound.
  - intros sid. split.
    + intros [pid Hl]. split.
      * intros ->. by rewrite invertAssignment_proto in Hl.
      * exists pid. by apply Hin, invertAssignment_sound.
    + intros [Hsid [pid Hl]]. by apply (invertAssignment_dom _ _ pid); [apply Hin|].
  - intros Hinj pid sid Hl Hsid.
    destruct (invertAssignment_dom entries sid pid) as [q Hq]; [by apply Hin|done|].
    rewrite Hq. f_equal. apply invertAssignment_sound, Hin in Hq.
    by apply (Hinj q pid sid).
Qed.

Lemma invertAssignment_inverse_witness :
  let assign : gmap string string := {[ "A" := "S00_01"; "B" := "S02_03" ]} in
  (∀ sid pid, invertAssignment (map_to_list assign) !! sid = Some pid →
              assign !! pid = Some sid) ∧
  (∀ sid, is_Some (invertAssignment (map_to_list assign) !! sid) ↔
          sid ≠ "__proto__" ∧ ∃ pid, assign !! pid = Some sid) ∧
  (injective assign →
   ∀ pid sid, assign !! pid = Some sid → sid ≠ "__proto__" →
              invertAssignment (map_to_list assign) !! sid = Some pid).
Proof.
  intros assign. apply (invertAssignment_inverse assign (map_to_list assign)). reflexivity.
Defined.

(** ** Export and import *)

Lemma int32Or_id x d : -2147483648 <= x < 2147483648 → x ≠ 0 → int32Or x d = x.
Proof.
  intros Hx Hne. unfold int32Or. rewrite JSFacts.toInt32_small by done.
  by rewrite (proj2 (Z.eqb_neq x 0)).
Qed.

Lemma importRoom_exportRoom room :
  keysOnce room →
  1 <= rows room <= 40 → 1 <= cols room <= 40 → 28 <= cell room <= 64 →
  importRoom (exportRoom room) = room.
Proof.
  intros (Hb & Ht & Hs) Hr Hc Hcell. destruct room as [R C cell0 B T S].
  cbn [rows cols cell blocked teacher seats] in *.
  unfold importRoom, exportRoom. cbn [doc_rows doc_cols doc_cell doc_blocked doc_teacher doc_seats].
  rewrite (int32Or_id R), (int32Or_id C), (int32Or_id cell0) by lia.
  rewrite (clamp_id R), (clamp_id C), (clamp_id cell0) by lia.
  by rewrite !setOfArray_id, mapOfEntries_id.
Qed.

(** X9. Whatever document is imported, the room read from it has rows and
    columns within 1..40 and cell within 28..64 (a size that is missing or
    zero reads as 8, 10 and 42), holds every key once, marks exactly the
    tiles the document lists as blocked and as teacher, and is given back
    unchanged by an export followed by an import. *)
Theorem importRoom_normalises doc :
  (1 <= rows (importRoom doc) <= 40 ∧ 1 <= cols (importRoom doc) <= 40 ∧
   28 <= cell (importRoom doc) <= 64) ∧
  (JS.toInt32 (doc_rows doc) = 0 → rows (importRoom doc) = 8) ∧
  (JS.toInt32 (doc_cols doc) = 0 → cols (importRoom doc) = 10) ∧
  (JS.toInt32 (doc_cell doc) = 0 → cell (importRoom doc) = 42) ∧
  keysOnce (importRoom doc) ∧
  (∀ r c, isBlocked (importRoom doc) r c = setHas (keyRC r c) (doc_blocked doc) ∧
          isTeacher (importRoom doc) r c = setHas (keyRC r c) (doc_teacher doc)) ∧
  importRoom (exportRoom (importRoom doc)) = importRoom doc.
Proof.
  assert (Hdims : 1 <= rows (importRoom doc) <= 40 ∧ 1 <= cols (importRoom doc) <= 40 ∧
                  28 <= cell (importRoom doc) <= 64).
  { cbn [importRoom rows cols cell]. split_and!; apply clamp_range; lia. }
  assert (Hkeys : keysOnce (importRoom doc)).
  { split_and!; cbn [importRoom blocked teacher seats];
      [apply setOfArray_NoDup..|apply mapOfEntries_NoDup]. }
  assert (Hzero : ∀ x d a b, JS.toInt32 x = 0 → a <= d <= b → clamp (int32Or x d) a b = d).
  { intros x d a b Hx Hd. unfold int32Or. rewrite Hx. cbn. by apply clamp_id. }
  refine (conj Hdims (conj _ (conj _ (conj _ (conj Hkeys (conj _ _)))))).
  - intros Hx. cbn [importRoom rows]. apply Hzero; [done|lia].
  - intros Hx. cbn [importRoom cols]. apply Hzero; [done|lia].
  - intros Hx. cbn [importRoom cell]. apply Hzero; [done|lia].
  - intros r c. unfold isBlocked, isTeacher. cbn [importRoom blocked teacher].
    split; apply setHas_ext, setOfArray_elem.
  - apply importRoom_exportRoom; tauto.
Qed.

(** ** Distances *)

(** X10. The three metrics: a distance is never negative, is the same in
    both directions, and is zero exactly between a position and itself;
    Chebyshev is at most Manhattan, which is at most twice Chebyshev;
    Manhattan and Chebyshev obey the triangle inequality; and two seats are
    at Chebyshev distance below 2 (what [NotAdjacent] punishes) exactly
    when they are at most one row and one column apart. *)
Theorem dist_is_a_distance (m : metric) (a b c : pos) :
  0 <= dist m a b ∧
  dist m a b = dist m b a ∧
  (dist m a b = 0 ↔ a = b) ∧
  dist chebyshev a b <= dist manhattan a b <= 2 * dist chebyshev a b ∧
  (m ≠ euclidean2 → dist m a c <= dist m a b + dist m b c) ∧
  (dist chebyshev a b < 2 ↔
     Z.abs (pos_r a - pos_r b) <= 1 ∧ Z.abs (pos_c a - pos_c b) <= 1).
Proof.
  destruct a as [ar ac], b as [br bc], c as [cr cc].
  assert (Heq : ∀ x y x' y' : Z, {| pos_r := x; pos_c := y |} = {| pos_r := x'; pos_c := y' |}
                                 ↔ x = x' ∧ y = y').
  { intros. split; [by intros [= -> ->]|by intros [-> ->]]. }
  rewrite Heq.
  pose proof (Z.square_nonneg (ar - br)). pose proof (Z.square_nonneg (ac - bc)).
  destruct m; cbn [dist pos_r pos_c]; split_and!; try lia; try done.
  split; [|intros [-> ->]; lia]. intros Hsum.
  assert ((ar - br) * (ar - br) = 0 ∧ (ac - bc) * (ac - bc) = 0) as [H1 H2] by lia.
  apply Z.mul_eq_0 in H1, H2. lia.
Qed.

(** ** Scores *)

Lemma filter_none {A} (P : A → Prop) `{!∀ x, Decision (P x)} (l : list A) :
  (∀ x, x ∈ l → ¬ P x) → filter P l = [].
Proof.
  induction l as [|x l IH]; intros Hall; [done|].
  rewrite filter_cons_False by (apply Hall; by left).
  apply IH. intros y Hy. apply Hall. by right.
Qed.

(** X11. The total is zero exactly when no rule is broken (the raw penalty
    of every rule is zero or less); and a total of zero comes with no hard
    break. *)
Theorem perfect_score_iff_no_rule_broken room pupils rules assign :
  (total (scoreAssignment room pupils rules assign) = 0 ↔
     ∀ rule, rule ∈ rules → violation room pupils assign rule <= 0) ∧
  (total (scoreAssignment room pupils rules assign) = 0 →
     hardBreaks (scoreAssignment room pupils rules assign) = 0).
Proof.
  unfold scoreAssignment. rewrite scoreAssignment_fold. cbn [total hardBreaks].
  rewrite !Z.add_0_l.
  pose proof (contribution_nonneg room pupils assign rules) as Hpos.
  assert (Hiff : foldl JS.dadd 0 (contribution room pupils assign <$> rules) = 0 ↔
                 ∀ rule, rule ∈ rules → violation room pupils assign rule <= 0).
  { rewrite (foldl_dadd_zero _ 0 ltac:(done) Hpos), Forall_fmap, Forall_forall.
    split.
    - intros [_ Hall] r Hr. apply rulePenalty_zero, (Hall r Hr).
    - intros Hall. split; [done|]. intros r Hr. apply rulePenalty_zero, (Hall r Hr). }
  split; [done|].
  intros Hsum. pose proof (proj1 Hiff Hsum) as Hzero. rewrite filter_none; [done|].
  intros r Hr [_ Hc].
  apply Hzero, (rulePenalty_zero r) in Hr. unfold contribution, HARD_MULT in Hc. lia.
Qed.

(** A million for every hard break so far, as long as that is a double. *)
Lemma foldl_dadd_hard room pupils assign rs acc n :
  let counted := fun r => Rule.hard r = true ∧ HARD_MULT <= contribution room pupils assign r in
  0 <= n → HARD_MULT * n <= acc →
  HARD_MULT * (n + Z.of_nat (length (filter counted rs))) <= 2 ^ 53 →
  HARD_MULT * (n + Z.of_nat (length (filter counted rs)))
    <= foldl JS.dadd acc (contribution room pupils assign <$> rs).
Proof.
  intros counted. revert acc n. induction rs as [|r rs IH]; intros acc n Hn Hacc Hmax.
  { cbn in *. lia. }
  rewrite fmap_cons. cbn [foldl].
  pose proof (rulePenalty_nonneg r assign (pupilsByIdValues pupils) (teacherTilesOf room)) as Hr.
  fold (contribution room pupils assign r) in Hr.
  destruct (decide (counted r)) as [Hc|Hc].
  - rewrite filter_cons_True in Hmax |- * by done. cbn [length] in Hmax |- *.
    destruct Hc as [_ Hc].
    replace (n + Z.of_nat (S (length (filter counted rs))))
      with ((n + 1) + Z.of_nat (length (filter counted rs))) in Hmax |- * by lia.
    apply IH; [lia| |done].
    apply JSFacts.round53_ge; unfold HARD_MULT in *; lia.
  - rewrite filter_cons_False in Hmax |- * by done.
    apply IH; [done| |done].
    apply JSFacts.round53_ge; unfold HARD_MULT in *; lia.
Qed.

(** X12. Hard breaks weigh a million each: the number of hard breaks is
    at most the number of hard rules; with fewer than 2^32 rules, as an
    array has, a million times that number is at most the total; and a
    total below a million means that no hard rule is broken. *)
Theorem hard_breaks_dominate room pupils rules assign :
  0 <= hardBreaks (scoreAssignment room pupils rules assign)
    <= Z.of_nat (length (filter (fun r => Rule.hard r = true) rules)) ∧
  (Z.of_nat (length rules) < 4294967296 →
   HARD_MULT * hardBreaks (scoreAssignment room pupils rules assign)
     <= total (scoreAssignment room pupils rules assign)) ∧
  (total (scoreAssignment room pupils rules assign) < HARD_MULT →
   hardBreaks (scoreAssignment room pupils rules assign) = 0).
Proof.
  unfold scoreAssignment. rewrite scoreAssignment_fold. cbn [total hardBreaks].
  rewrite !Z.add_0_l.
  set (counted := fun r => Rule.hard r = true ∧ HARD_MULT <= contribution room pupils assign r).
  assert (Hle : (length (filter counted rules)
                 <= length (filter (fun r => Rule.hard r = true) rules))%nat).
  { induction rules as [|r rs IH]; [done|].
    destruct (decide (counted r)) as [Hc|Hc].
    - rewrite filter_cons_True by done. rewrite (filter_cons_True _ r) by apply Hc.
      cbn [length]. lia.
    - rewrite filter_cons_False by done. rewrite filter_cons.
      destruct (decide (Rule.hard r = true)); cbn [length]; lia. }
  pose proof (length_filter (fun r => Rule.hard r = true) rules) as Hall.
  refine (conj _ (conj _ _)).
  - lia.
  - intros Hlen.
    pose proof (foldl_dadd_hard room pupils assign rules 0 0 ltac:(done) ltac:(done)) as Hsum.
    cbn zeta in Hsum. fold counted in Hsum. rewrite !Z.add_0_l in Hsum.
    apply Hsum. unfold HARD_MULT. change (2 ^ 53) with 9007199254740992.
    match goal with
    | |- context [length ?l] => assert (length l <= length rules)%nat by apply length_filter
    end.
    lia.
  - intros Hsmall.
    destruct (filter counted rules) as [|r rest] eqn:Hf; [done|exfalso].
    assert (Hr : r ∈ filter counted rules) by (rewrite Hf; left).
    apply list_elem_of_filter in Hr as [[_ Hc] Hr].
    apply list_elem_of_split in Hr as (l1 & l2 & ->).
    revert Hsmall. rewrite fmap_app, foldl_app, fmap_cons. cbn [foldl].
    pose proof (foldl_dadd_nonneg (contribution room pupils assign <$> l1) 0 ltac:(done)
                  (contribution_nonneg room pupils assign l1)) as H1.
    pose proof (foldl_dadd_ge (contribution room pupils assign <$> l2)
                  (JS.dadd (foldl JS.dadd 0 (contribution room pupils assign <$> l1))
                           (contribution room pupils assign r))
                  HARD_MULT ltac:(unfold HARD_MULT; lia)
                  (contribution_nonneg room pupils assign l2)) as H2.
    intros Hsmall. apply Zlt_not_le in Hsmall. apply Hsmall, H2.
    apply JSFacts.round53_ge; unfold HARD_MULT in *; lia.
Qed.

Lemma pairPenalty_none (g : string → string → option Z) l pen :
  (∀ x y, g x y = None) → pairPenalty g l pen = pen.
Proof.
  intros Hg. revert pen. induction l as [|x l IH]; intros pen; [done|].
  cbn [pairPenalty]. rewrite IH. clear IH.
  induction l as [|y l IH]; [done|]. cbn [foldl]. by rewrite Hg.
Qed.

(** With nobody seated, a rule finds nothing to complain about, but a
    [MustBeInSeats] rule for a name that every object inherits. *)
Lemma rawPenalty_unseated rule byId tiles :
  (Rule.type rule = "MustBeInSeats" → Rule.pupil_id rule ∉ protoNames) →
  rawPenalty rule ∅ byId tiles = 0.
Proof.
  intros Hname. unfold rawPenalty, posOf. rewrite !lookup_empty.
  repeat (case_match; [reflexivity|]).
  case_match eqn:Hseats.
  { apply String.eqb_eq in Hseats. by rewrite bool_decide_eq_false_2 by (by apply Hname). }
  case_match; [|reflexivity].
  by apply pairPenalty_none.
Qed.

(** A rule that contributes nothing leaves the score as it is. *)
Lemma addRule_zero room pupils assign sc rule :
  contribution room pupils assign rule = 0 →
  JS.round53 (total sc) = total sc →
  addRule room pupils assign sc rule = sc.
Proof.
  unfold contribution, addRule, JS.dadd. intros -> Hd. destruct sc as [t h]. cbn in *.
  rewrite Z.add_0_r, Hd. f_equal.
Qed.

(** The total is a double, and not negative. *)
Lemma addRule_double room pupils assign sc rule :
  0 <= total sc →
  0 <= total (addRule room pupils assign sc rule) ∧
  JS.round53 (total (addRule room pupils assign sc rule))
    = total (addRule room pupils assign sc rule).
Proof.
  intros Hsc. unfold addRule. cbn [total].
  pose proof (rulePenalty_nonneg rule assign (pupilsByIdValues pupils) (teacherTilesOf room)).
  split; [by apply JSFacts.dadd_nonneg|]. apply JSFacts.round53_idem. lia.
Qed.

(** X13. With nobody seated every rule is met, but a [MustBeInSeats] rule
    for a pupil named as a member of [Object.prototype]: without such a
    rule, the empty assignment scores zero with no hard break.  So the
    shortcut of [updateKPIs] for an empty assignment shows what
    [scoreAssignment] would return, and with at least one pupil and no
    message of the caller the line under the figures reads
    "Perfect score." although nobody has a seat. *)
Theorem empty_assignment_scores_zero room pupils rules :
  (∀ r, r ∈ rules → Rule.type r = "MustBeInSeats" → Rule.pupil_id r ∉ protoNames) →
  scoreAssignment room pupils rules ∅ = {| total := 0; hardBreaks := 0 |} ∧
  (∀ assign, kpiScore room pupils rules assign = scoreAssignment room pupils rules assign) ∧
  (pupils ≠ [] →
   kpiMsg "" (kpiScore room pupils rules ∅) (length pupils) = "Perfect score.").
Proof.
  intros Hnames.
  assert (Hzero : scoreAssignment room pupils rules ∅ = {| total := 0; hardBreaks := 0 |}).
  { unfold scoreAssignment.
    induction rules as [|r rs IH]; [done|].
    cbn [foldl]. rewrite addRule_zero; [|apply rulePenalty_zero|done].
    - apply IH. intros r' Hr'. apply Hnames. by right.
    - rewrite rawPenalty_unseated; [done|]. apply Hnames. left. }
  split_and!; [done| |].
  - intros assign. unfold kpiScore. case_bool_decide as He; [|done]. by rewrite He, Hzero.
  - intros Hne. unfold kpiScore, kpiMsg. rewrite bool_decide_eq_true_2 by done.
    cbn [JS.truthy total Z.eqb andb]. destruct pupils; [done|]. done.
Qed.

Lemma empty_assignment_scores_zero_witness :
  scoreAssignment demoRoom demoPupils demoRules ∅ = {| total := 0; hardBreaks := 0 |} ∧
  kpiMsg "" (kpiScore demoRoom demoPupils demoRules ∅) (length demoPupils) = "Perfect score.".
Proof.
  destruct (empty_assignment_scores_zero demoRoom demoPupils demoRules) as (Hzero & _ & Hmsg).
  - intros r Hr Ht. unfold demoRules in Hr. rewrite !elem_of_cons, elem_of_nil in Hr.
    by destruct Hr as [->|[->|[]]].
  - split; [exact Hzero|]. by apply Hmsg.
Defined.

Lemma rawPenalty_unknown_type rule assign byId tiles :
  Rule.type rule ∉ ruleTypes → rawPenalty rule assign byId tiles = 0.
Proof.
  unfold ruleTypes. rewrite !not_elem_of_cons. intros (H1 & H2 & H3 & H4 & H5 & H6 & H7 & H8 & _).
  unfold rawPenalty.
  by rewrite (proj2 (String.eqb_neq _ _) H1), (proj2 (String.eqb_neq _ _) H2),
    (proj2 (String.eqb_neq _ _) H3), (proj2 (String.eqb_neq _ _) H4),
    (proj2 (String.eqb_neq _ _) H5), (proj2 (String.eqb_neq _ _) H6),
    (proj2 (String.eqb_neq _ _) H7), (proj2 (String.eqb_neq _ _) H8).
Qed.

(** X14. A rule whose type is not one of the eight the engine knows is
    ignored: taking such rules out of the list changes neither the total
    nor the number of hard breaks, even when they are marked hard. *)
Theorem unknown_rule_types_ignored room pupils rules assign :
  scoreAssignment room pupils (filter (fun r => Rule.type r ∈ ruleTypes) rules) assign
  = scoreAssignment room pupils rules assign.
Proof.
  unfold scoreAssignment.
  assert (Hgen : ∀ sc, 0 <= total sc → JS.round53 (total sc) = total sc →
            foldl (addRule room pupils assign) sc (filter (fun r => Rule.type r ∈ ruleTypes) rules)
            = foldl (addRule room pupils assign) sc rules); [|by apply Hgen].
  induction rules as [|r rs IH]; intros sc Hsc Hd; [done|].
  cbn [foldl]. destruct (decide (Rule.type r ∈ ruleTypes)) as [Hin|Hout].
  - rewrite filter_cons_True by done. cbn [foldl].
    apply IH; by apply addRule_double.
  - rewrite filter_cons_False by done. rewrite (addRule_zero _ _ _ sc r); [by apply IH| |done].
    apply rulePenalty_zero. by rewrite rawPenalty_unknown_type.
Qed.



(** ** The builder *)

Lemma seatCompare_seatBefore x y : seatCompare x y <= 0 ↔ seatBefore x y.
Proof.
  unfold seatCompare, seatBefore.
  destruct (seatPosById x) as [a|], (seatPosById y) as [b|]; try (split; [done|lia]);
    try (split; [lia|done]).
  destruct (Z.eqb_spec (pos_r a) (pos_r b)); cbn [negb]; lia.
Qed.

Lemma seatBefore_trans x y z : seatBefore x y → seatBefore y z → seatBefore x z.
Proof.
  unfold seatBefore.
  destruct (seatPosById x), (seatPosById y), (seatPosById z); try done. lia.
Qed.

Lemma seatBefore_total x y : seatBefore x y ∨ seatBefore y x.
Proof.
  unfold seatBefore. destruct (seatPosById x), (seatPosById y); try tauto. lia.
Qed.

Lemma insertSeat_sorted x l :
  StronglySorted seatBefore l → StronglySorted seatBefore (insertSeat x l).
Proof.
  induction 1 as [|y l Hl IH Hy]; cbn [insertSeat].
  - repeat constructor.
  - destruct (Z.leb_spec (seatCompare x y) 0) as [Hle|Hgt].
    + apply seatCompare_seatBefore in Hle. constructor; [by constructor|].
      constructor; [done|]. eapply Forall_impl; [exact Hy|].
      intros z Hz. by eapply seatBefore_trans.
    + constructor; [done|]. rewrite insertSeat_perm. constructor; [|done].
      destruct (seatBefore_total x y) as [Hxy|Hyx]; [|done].
      apply seatCompare_seatBefore in Hxy. lia.
Qed.

Lemma sortSeats_sorted l : StronglySorted seatBefore (sortSeats l).
Proof.
  unfold sortSeats. induction l as [|x l IH]; cbn [foldr]; [constructor|].
  by apply insertSeat_sorted.
Qed.

Lemma sorted_lookup {A} (R : A → A → Prop) (l : list A) i j x y :
  StronglySorted R l → (i < j)%nat → l !! i = Some x → l !! j = Some y → R x y.
Proof.
  intros Hsorted. revert i j.
  induction Hsorted as [|z l' Hl' IH Hz]; intros i j Hij Hi Hj; [done|].
  destruct j as [|j]; [lia|]. cbn in Hj. destruct i as [|i]; cbn in Hi.
  - simplify_eq. rewrite Forall_forall in Hz. apply Hz. by eapply list_elem_of_lookup_2.
  - apply (IH i j); [lia|done..].
Qed.

(** X16. The sort of the builder returns the same seats in front-to-back
    order: every seat stands before all the seats after it, by row and then
    by column, with the identifiers that name no tile at the end. *)
Theorem sortSeats_front_to_back l :
  sortSeats l ≡ₚ l ∧
  StronglySorted seatBefore (sortSeats l) ∧
  ∀ i j x y, (i < j)%nat → sortSeats l !! i = Some x → sortSeats l !! j = Some y →
             seatBefore x y.
Proof.
  split_and!; [apply sortSeats_perm|apply sortSeats_sorted|].
  intros i j x y. apply sorted_lookup, sortSeats_sorted.
Qed.

Section BuilderShape.
Variable room : Room.
Variable pupils : list Pupil.t.
#[local] Abbreviation seatIds := (allSeatIds room).
#[local] Abbreviation ids := (Pupil.id <$> pupils).

Lemma buildInitialAssignment_range seed assign k s :
  NoDup ids →
  buildInitialAssignment room pupils seed = Ok assign →
  assign !! k = Some s → k ∈ ids ∧ s ∈ seatIds.
Proof.
  intros Hids. unfold buildInitialAssignment.
  destruct (forEach _ pupils (∅, ∅)) as [[assign0 used]| |] eqn:Hloop; cbn -[Nat.ltb]; [|done..].
  destruct (placeFixed_loop room pupils _ _ Hids Hloop) as (_ & Hout & _ & _).
  pose proof (forEach_invariant _ (placedInv room) pupils _ _
                (fun p t t' _ => placeFixed_inv room p t t') (placedInv_empty room) Hloop)
    as (_ & Hval & Hsub). cbn [fst snd] in *.
  set (free := filter (fun s => s ∉ used) seatIds).
  set (remaining := filter (fun p => seated assign0 (Pupil.id p) = false) pupils).
  set (tagged := Pupil.id <$> filter (fun p => hasTags p = true) remaining).
  set (untagged := Pupil.id <$> filter (fun p => hasTags p = false) remaining).
  case_match; [done|].
  pose proof (shuffleInPlace_perm free (mulberry32 (JS.toUint32 seed))) as Hperm.
  destruct (shuffleInPlace free _) as [free1 rng1]. cbn [fst] in Hperm.
  set (free2 := sortSeats (drop (length tagged) free1)).
  pose proof (shuffleRows_perm (length free2) free2 rng1) as Hperm2.
  destruct (shuffleRows (length free2) free2 rng1) as [free3 rng2]. cbn [fst] in Hperm2.
  intros ? Hk; simplify_eq.
  assert (Hin1 : ∀ x, x ∈ free1 → x ∈ seatIds).
  { intros x Hx. rewrite Hperm in Hx. by apply list_elem_of_filter in Hx as [_ ?]. }
  assert (Hin3 : ∀ x, x ∈ free3 → x ∈ seatIds).
  { intros x Hx. apply Hin1. rewrite Hperm2 in Hx. unfold free2 in Hx.
    rewrite sortSeats_perm in Hx. by eapply subseteq_drop. }
  assert (Hrem : ∀ (P : Pupil.t → Prop) `{!∀ x, Decision (P x)} x,
             x ∈ Pupil.id <$> filter P remaining → x ∈ ids).
  { intros P ? x (q & -> & [_ [_ Hq]%list_elem_of_filter]%list_elem_of_filter)%list_elem_of_fmap.
    by apply list_elem_of_fmap_2. }
  apply assignInOrder_lookup in Hk as [Hk|[Hk Hs]].
  - apply assignInOrder_lookup in Hk as [Hk|[Hk Hs]].
    + split; [|by eapply Hsub, Hval].
      destruct (decide (k ∈ ids)) as [|Hnot]; [done|].
      rewrite (Hout k Hnot), lookup_empty in Hk. done.
    + split; [by eapply Hrem|]. apply Hin1. by eapply subseteq_take.
  - split; [by eapply Hrem|]. apply Hin3. by eapply subseteq_take.
Qed.

End BuilderShape.

(** X17. What the builder returns, for pupils with distinct ids, none of
    them the name of a member of [Object.prototype], in a room with no
    empty seat identifier: an assignment that seats exactly the pupils of
    the list (one entry per pupil, none for anybody else), on seats of the
    room only. *)
Theorem builder_seats_exactly_the_pupils room pupils seed assign :
  NoDup (Pupil.id <$> pupils) →
  "" ∉ allSeatIds room →
  (∀ p, p ∈ pupils → Pupil.id p ∉ protoNames) →
  buildInitialAssignment room pupils seed = Ok assign →
  (∀ k, is_Some (assign !! k) ↔ k ∈ Pupil.id <$> pupils) ∧
  (∀ k s, assign !! k = Some s → s ∈ allSeatIds room) ∧
  size assign = length pupils.
Proof.
  intros Hids Hne Hnames Hb.
  assert (Hdom : ∀ k, is_Some (assign !! k) ↔ k ∈ Pupil.id <$> pupils).
  { intros k. split.
    - intros [s Hs]. by apply (buildInitialAssignment_range room pupils seed assign k s).
    - intros (p & -> & Hp)%list_elem_of_fmap.
      pose proof (buildInitialAssignment_total room pupils seed assign p Hne Hb Hp) as Hs.
      apply seated_plain in Hs as (sid & -> & _); [done|by apply Hnames]. }
  split_and!; [done| |].
  - intros k s Hs. by apply (buildInitialAssignment_range room pupils seed assign k s).
  - rewrite <-size_dom.
    assert (dom assign = list_to_set (Pupil.id <$> pupils)) as ->.
    { apply set_eq. intros k. by rewrite elem_of_dom, elem_of_list_to_set. }
    rewrite size_list_to_set by done. by rewrite length_fmap.
Qed.

Lemma builder_seats_exactly_the_pupils_witness :
  let assign : gmap string string := {[ "C" := "S00_02"; "A" := "S01_01"; "B" := "S00_01" ]} in
  (∀ k, is_Some (assign !! k) ↔ k ∈ Pupil.id <$> demoPupils) ∧
  (∀ k s, assign !! k = Some s → s ∈ allSeatIds demoRoom) ∧
  size assign = length demoPupils.
Proof.
  intros assign.
  apply (builder_seats_exactly_the_pupils demoRoom demoPupils 12345 assign).
  - exact demoPupils_ok.
  - exact (proj2 demoRoom_ok).
  - exact demoPupils_plain.
  - exact demo_build.
Defined.

Section BuilderReturns.
Variable room : Room.
#[local] Abbreviation seatIds := (allSeatIds room).

Lemma placeFixed_run p st :
  match resolvedSeat room p with
  | Some sid =>
      sid ∈ seatIds → (sid ∉ st.2) →
      placeFixed room seatIds p st = Ok (objSet (Pupil.id p) sid st.1, {[sid]} ∪ st.2)
  | None => isFixedPupil p = false → placeFixed room seatIds p st = Ok st
  end.
Proof.
  unfold placeFixed, isFixedPupil, resolvedSeat, rcToSeatId, claimFixed.
  destruct st as [assign used].
  destruct (Pupil.fixed p) as [[sid|r c]|]; cbn [fst snd].
  - destruct (JS.truthy sid) eqn:Ht; [|done].
    intros Hin%setHas_true Hout. rewrite Hin. by rewrite bool_decide_eq_false_2.
  - destruct (mapGet (keyRC r c) (seats room)) as [sid|] eqn:Hg; cbn; [|done].
    intros _ Hout. by rewrite bool_decide_eq_false_2.
  - done.
Qed.

Lemma placeFixed_returns l st :
  (∀ p, p ∈ l → isFixedPupil p = true →
        ∃ sid, resolvedSeat room p = Some sid ∧ sid ∈ seatIds) →
  NoDup (omap (resolvedSeat room) l) →
  (∀ s, s ∈ omap (resolvedSeat room) l → s ∉ st.2) →
  ∃ st', forEach (placeFixed room seatIds) l st = Ok st'.
Proof.
  revert st. induction l as [|p l IH]; intros st Hfix Hnd Hfresh; [by eexists|].
  cbn [forEach]. pose proof (placeFixed_run p st) as Hrun.
  cbn [omap list_omap] in Hnd, Hfresh.
  destruct (resolvedSeat room p) as [sid|] eqn:Hres.
  - apply NoDup_cons in Hnd as [Hsid Hnd].
    destruct (Hfix p ltac:(by left) (resolvedSeat_fixed _ _ _ Hres)) as (sid' & Hsid' & Hin).
    simplify_eq. rewrite Hrun; [|done|apply Hfresh; by left]. cbn.
    apply IH; [intros q Hq; apply Hfix; by right|done|].
    intros s Hs. cbn [snd]. rewrite elem_of_union, elem_of_singleton.
    intros [->|Hused]; [done|]. apply (Hfresh s); [by right|done].
  - rewrite Hrun.
    + cbn. apply IH; [intros q Hq; apply Hfix; by right|done..].
    + destruct (isFixedPupil p) eqn:Hf; [|done].
      destruct (Hfix p ltac:(by left) Hf) as (sid & Hsid & _). congruence.
Qed.

End BuilderReturns.

(** X18. The builder returns an assignment whenever the input is
    consistent: pupils with distinct ids, seat identifiers distinct and not
    empty, every fixed pupil on a seat of the room, no two fixed pupils on
    the same seat, and no more pupils than seats. *)
Theorem builder_succeeds room pupils seed :
  NoDup (Pupil.id <$> pupils) →
  NoDup (allSeatIds room) →
  "" ∉ allSeatIds room →
  fixedConsistent room pupils →
  (length pupils <= length (allSeatIds room))%nat →
  ∃ assign, buildInitialAssignment room pupils seed = Ok assign.
Proof.
  intros Hids Hnd Hne [Hdistinct Hfixed] Hlen.
  destruct (placeFixed_returns room pupils (∅, ∅) Hfixed Hdistinct) as [[assign0 used] Hloop].
  { intros s _. cbn. apply not_elem_of_empty. }
  unfold buildInitialAssignment. rewrite Hloop. cbn -[Nat.ltb].
  destruct (placeFixed_loop room pupils _ _ Hids Hloop) as (Hfix & _ & Hfree & Hsize).
  pose proof (forEach_invariant _ (placedInv room) pupils _ _
                (fun p t t' _ => placeFixed_inv room p t t') (placedInv_empty room) Hloop)
    as (_ & Hval & Hsub). cbn [fst snd] in *.
  rewrite size_empty in Hsize.
  pose proof (length_free_seats_all (allSeatIds room) used Hnd) as Hfreelen.
  set (remaining := filter (fun p => seated assign0 (Pupil.id p) = false) pupils).
  assert (Hrem : (length remaining + length (filter (fun p => isFixedPupil p = true) pupils)
                  <= length pupils)%nat).
  { rewrite <-(length_filter_split (fun p => isFixedPupil p = true)
                 (fun p => isFixedPupil p = false) pupils)
      by (intros p _; destruct (isFixedPupil p); naive_solver).
    assert (length remaining <= length (filter (fun p => isFixedPupil p = false) pupils))%nat;
      [|lia].
    apply length_filter_mono. intros p Hp Hs.
    destruct (isFixedPupil p) eqn:Hf; [exfalso|done].
    apply seated_false in Hs as [Hs|[Hs Hn]].
    - apply Hne, Hsub. by eapply Hval.
    - destruct (Hfix p Hp Hf (not_protoNames_proto _ Hn)) as (sid & _ & Hsid). congruence. }
  assert (Hsplit : (length (Pupil.id <$> filter (fun p => hasTags p = true) remaining) +
                    length (Pupil.id <$> filter (fun p => hasTags p = false) remaining))%nat
                   = length remaining).
  { rewrite !length_fmap. apply length_filter_split.
    intros p _. destruct (hasTags p); naive_solver. }
  fold remaining. rewrite (proj2 (Nat.ltb_ge _ _)) by lia.
  destruct (shuffleInPlace _ _) as [free1 rng1].
  destruct (shuffleRows _ _ rng1) as [free3 rng2]. by eexists.
Qed.

Lemma builder_succeeds_witness : ∃ assign, buildInitialAssignment demoRoom demoPupils 7 = Ok assign.
Proof.
  apply (builder_succeeds demoRoom demoPupils 7).
  - exact demoPupils_ok.
  - exact (proj1 demoRoom_ok).
  - exact (proj2 demoRoom_ok).
  - split.
    + apply (bool_decide_unpack _). by vm_compute.
    + intros p Hp Hf. exists "S00_01".
      repeat (apply elem_of_cons in Hp as [->|Hp]); try discriminate Hf.
      * split; [reflexivity|]. apply (bool_decide_unpack _). by vm_compute.
      * by apply elem_of_nil in Hp.
  - apply Nat.leb_le. by vm_compute.
Defined.

Lemma fmap_constant {A B} (f : A → B) (c : B) (l : list A) :
  (∀ x, x ∈ l → f x = c) → f <$> l = replicate (length l) c.
Proof.
  induction l as [|x l IH]; intros Hall; [done|].
  rewrite fmap_cons. cbn [length replicate]. rewrite (Hall x) by by left.
  f_equal. apply IH. intros y Hy. apply Hall. by right.
Qed.

Lemma rowRun_same p0 rest x :
  x ∈ take (rowRun p0 rest) rest → rowOf x = pos_r <$> p0.
Proof.
  induction rest as [|s rest IH]; cbn [rowRun]; [by rewrite take_nil; intros ?%elem_of_nil|].
  destruct p0 as [a|]; [|by intros ?%elem_of_nil].
  destruct (seatPosById s) as [b|] eqn:Hs; [|by intros ?%elem_of_nil].
  destruct (Z.eqb_spec (pos_r b) (pos_r a)) as [Heq|]; [|by intros ?%elem_of_nil].
  cbn [take]. intros [->|Hx]%elem_of_cons; [|by apply IH].
  unfold rowOf. rewrite Hs. cbn. by rewrite Heq.
Qed.

Lemma shuffleRows_rows rounds l rng :
  rowOf <$> (shuffleRows rounds l rng).1 = rowOf <$> l.
Proof.
  revert l rng. induction rounds as [|rounds IH]; intros l rng; [done|].
  destruct l as [|s0 rest]; [done|]. cbn [shuffleRows].
  set (n := S (rowRun (seatPosById s0) rest)).
  pose proof (shuffleInPlace_perm (take n (s0 :: rest)) rng) as Hperm.
  destruct (shuffleInPlace (take n (s0 :: rest)) rng) as [slice rng1]. cbn [fst] in Hperm.
  specialize (IH (drop n (s0 :: rest)) rng1).
  destruct (shuffleRows rounds (drop n (s0 :: rest)) rng1) as [tail rng2]. cbn [fst] in *.
  rewrite fmap_app, IH.
  trans (rowOf <$> (take n (s0 :: rest) ++ drop n (s0 :: rest))%list);
    [|by rewrite take_drop].
  rewrite fmap_app. f_equal.
  assert (Hblock : ∀ x, x ∈ take n (s0 :: rest) → rowOf x = rowOf s0).
  { unfold n. cbn [take]. intros x [->|Hx]%elem_of_cons; [done|].
    by apply (rowRun_same _ rest). }
  rewrite (fmap_constant rowOf (rowOf s0) slice), (fmap_constant rowOf (rowOf s0) (take n _));
    [by rewrite Hperm|done|].
  intros x Hx. apply Hblock. by rewrite <-Hperm.
Qed.

Lemma assignInOrder_nth pids free (assign : gmap string string) i k s :
  NoDup pids → k ≠ "__proto__" → pids !! i = Some k → free !! i = Some s →
  assignInOrder pids free assign !! k = Some s.
Proof.
  intros Hnd Hkn. revert free assign i Hnd.
  induction pids as [|pid pids IH]; intros free assign i Hnd Hk Hs; [done|].
  destruct free as [|sid free]; [done|]. apply NoDup_cons in Hnd as [Hpid Hnd].
  cbn [assignInOrder]. destruct i as [|i]; cbn in Hk, Hs.
  - simplify_eq. rewrite assignInOrder_other by done. by apply objSet_lookup_eq.
  - by apply (IH _ _ i).
Qed.

Lemma filter_keeps_order {A} (P : A → Prop) `{!∀ x, Decision (P x)} (l : list A) i j x y :
  (i < j)%nat → l !! i = Some x → l !! j = Some y → P x → P y →
  ∃ i' j', (i' < j')%nat ∧ filter P l !! i' = Some x ∧ filter P l !! j' = Some y.
Proof.
  intros Hij Hi Hj Hx Hy.
  rewrite <-(take_drop_middle l j y Hj). rewrite filter_app, filter_cons_True by done.
  assert (Hin : x ∈ filter P (take j l)).
  { apply list_elem_of_filter. split; [done|].
    apply list_elem_of_lookup. exists i. by rewrite lookup_take_lt. }
  apply list_elem_of_lookup in Hin as [i' Hi'].
  exists i', (length (filter P (take j l))). split_and!.
  - by eapply lookup_lt_Some.
  - by apply lookup_app_l_Some.
  - by rewrite list_lookup_middle.
Qed.

(** X19. The builder fills the room from the front: of two pupils that
    are neither fixed nor tagged, the one earlier in the list never sits in
    a row behind the other, whatever the seed.  (A seat identifier that
    names no tile counts as behind every row.) *)
Theorem builder_fills_front_to_back room pupils seed assign i j p q sp sq :
  NoDup (Pupil.id <$> pupils) →
  buildInitialAssignment room pupils seed = Ok assign →
  (i < j)%nat → pupils !! i = Some p → pupils !! j = Some q →
  isFixedPupil p = false → hasTags p = false →
  isFixedPupil q = false → hasTags q = false →
  assign !! Pupil.id p = Some sp → assign !! Pupil.id q = Some sq →
  (∀ a b, seatPosById sp = Some a → seatPosById sq = Some b → pos_r a <= pos_r b) ∧
  (seatPosById sp = None → seatPosById sq = None).
Proof.
  intros Hids Hb Hij Hi Hj Hpf Hpt Hqf Hqt Hsp Hsq. revert Hb. unfold buildInitialAssignment.
  destruct (forEach _ pupils (∅, ∅)) as [[assign0 used]| |] eqn:Hloop; cbn -[Nat.ltb]; [|done..].
  destruct (placeFixed_loop room pupils _ _ Hids Hloop) as (_ & _ & Hfree & _).
  cbn [fst snd] in Hfree.
  set (free := filter (fun s => s ∉ used) (allSeatIds room)).
  set (remaining := filter (fun p => seated assign0 (Pupil.id p) = false) pupils).
  set (tagged := Pupil.id <$> filter (fun p => hasTags p = true) remaining).
  set (untagged := Pupil.id <$> filter (fun p => hasTags p = false) remaining).
  destruct (length free <? length tagged + length untagged)%nat eqn:Hcap; [done|].
  apply Nat.ltb_ge in Hcap.
  pose proof (shuffleInPlace_perm free (mulberry32 (JS.toUint32 seed))) as Hperm.
  destruct (shuffleInPlace free _) as [free1 rng1]. cbn [fst] in Hperm.
  set (free2 := sortSeats (drop (length tagged) free1)).
  pose proof (shuffleRows_perm (length free2) free2 rng1) as Hperm2.
  pose proof (shuffleRows_rows (length free2) free2 rng1) as Hrows.
  destruct (shuffleRows (length free2) free2 rng1) as [free3 rng2]. cbn [fst] in Hperm2, Hrows.
  intros ?; simplify_eq.
  assert (Hlen3 : (length untagged <= length free3)%nat).
  { rewrite Hperm2. unfold free2. rewrite sortSeats_perm, length_drop.
    rewrite (Permutation_length Hperm). lia. }
  (* the two pupils in the list of the untagged: who has an entry and is
     not fixed was still to place *)
  assert (Hunseated : ∀ x s, x ∈ pupils → isFixedPupil x = false →
            assignInOrder untagged free3 (assignInOrder tagged free1 assign0) !! Pupil.id x
              = Some s →
            seated assign0 (Pupil.id x) = false ∧ Pupil.id x ≠ "__proto__").
  { intros x s Hx Hxf Hs.
    destruct (seated assign0 (Pupil.id x)) eqn:Hseated.
    - exfalso.
      assert (Hout : ∀ (P : Pupil.t → Prop) (HP : ∀ y, Decision (P y)),
                Pupil.id x ∉ Pupil.id <$> filter P remaining).
      { intros P HP (y & Hy & [_ [Hy' _]%list_elem_of_filter]%list_elem_of_filter)%list_elem_of_fmap.
        congruence. }
      rewrite !assignInOrder_other in Hs by apply Hout.
      by rewrite Hfree, lookup_empty in Hs.
    - split; [done|]. apply seated_false in Hseated as [Hseated|[_ Hn]].
      + by rewrite Hfree, lookup_empty in Hseated.
      + by apply not_protoNames_proto. }
  assert (Hpin : p ∈ pupils) by (by eapply list_elem_of_lookup_2).
  assert (Hqin : q ∈ pupils) by (by eapply list_elem_of_lookup_2).
  destruct (Hunseated p sp Hpin Hpf Hsp) as [Hpu Hpn].
  destruct (Hunseated q sq Hqin Hqf Hsq) as [Hqu Hqn].
  destruct (filter_keeps_order (fun p => seated assign0 (Pupil.id p) = false) pupils i j p q)
    as (i1 & j1 & Hij1 & Hi1 & Hj1); [done..|].
  fold remaining in Hi1, Hj1.
  destruct (filter_keeps_order (fun p => hasTags p = false) remaining i1 j1 p q)
    as (i2 & j2 & Hij2 & Hi2 & Hj2); [done..|].
  assert (Hpi : untagged !! i2 = Some (Pupil.id p)).
  { unfold untagged. by rewrite list_lookup_fmap, Hi2. }
  assert (Hqj : untagged !! j2 = Some (Pupil.id q)).
  { unfold untagged. by rewrite list_lookup_fmap, Hj2. }
  assert (Hnd : NoDup untagged).
  { eapply sublist_NoDup; [exact Hids|]. unfold untagged, remaining.
    apply fmap_sublist. etrans; apply sublist_filter. }
  (* their seats in the list of the free seats *)
  destruct (lookup_lt_is_Some_2 free3 j2) as [y Hy].
  { apply lookup_lt_Some in Hqj. lia. }
  destruct (lookup_lt_is_Some_2 free3 i2) as [x Hx].
  { apply lookup_lt_Some in Hy. lia. }
  rewrite (assignInOrder_nth untagged free3 _ i2 (Pupil.id p) x Hnd Hpn Hpi Hx) in Hsp.
  rewrite (assignInOrder_nth untagged free3 _ j2 (Pupil.id q) y Hnd Hqn Hqj Hy) in Hsq.
  simplify_eq.
  (* the rows are those of the sorted list *)
  assert (Hrx : ∃ x', free2 !! i2 = Some x' ∧ rowOf x' = rowOf sp).
  { pose proof (f_equal (fun l => l !! i2) Hrows) as Hl. cbn in Hl.
    rewrite !list_lookup_fmap, Hx in Hl. cbn in Hl.
    destruct (free2 !! i2) as [x'|]; [|done]. exists x'. split; [done|]. cbn in Hl. congruence. }
  assert (Hry : ∃ y', free2 !! j2 = Some y' ∧ rowOf y' = rowOf sq).
  { pose proof (f_equal (fun l => l !! j2) Hrows) as Hl. cbn in Hl.
    rewrite !list_lookup_fmap, Hy in Hl. cbn in Hl.
    destruct (free2 !! j2) as [y'|]; [|done]. exists y'. split; [done|]. cbn in Hl. congruence. }
  destruct Hrx as (x' & Hx' & Hrx), Hry as (y' & Hy' & Hry).
  assert (Hbefore : seatBefore x' y').
  { apply (sorted_lookup seatBefore free2 i2 j2); [apply sortSeats_sorted|done..]. }
  unfold seatBefore in Hbefore. unfold rowOf in Hrx, Hry.
  destruct (seatPosById x') as [a'|], (seatPosById y') as [b'|],
    (seatPosById sp) as [a|], (seatPosById sq) as [b|]; cbn in Hrx, Hry; try done.
  split; [|done]. intros ? ? [= <-] [= <-]. simplify_eq. lia.
Qed.

Lemma builder_fills_front_to_back_witness :
  (∀ a b, seatPosById "S00_02" = Some a → seatPosById "S01_01" = Some b →
          pos_r a <= pos_r b) ∧
  (seatPosById "S00_02" = None → seatPosById "S01_01" = None).
Proof.
  apply (builder_fills_front_to_back demoRoom fourPupils 3
           {[ "A" := "S00_02"; "B" := "S00_01"; "C" := "S00_00"; "D" := "S01_01" ]}
           0 3 (Pupil.mk "A" [] None) (Pupil.mk "D" [] None));
    [apply (bool_decide_unpack _); by vm_compute | by vm_compute | lia | reflexivity..].
Defined.

(** ** Repair *)

Lemma forEach_middle {A S} (body : A → S → outcome S) l1 x l2 s s'' :
  forEach body (l1 ++ x :: l2) s = Ok s'' →
  ∃ s1 s2, forEach body l1 s = Ok s1 ∧ body x s1 = Ok s2 ∧ forEach body l2 s2 = Ok s''.
Proof.
  rewrite forEach_app. destruct (forEach body l1 s) as [s1| |]; cbn; [|done..].
  destruct (body x s1) as [s2| |] eqn:Hx; cbn; [|done..]. by eauto.
Qed.

Lemma keepSeat_used_grows room fixed assign l st st' s :
  forEach (keepSeat (allSeatIds room) fixed assign) l st = Ok st' → s ∈ st.2 → s ∈ st'.2.
Proof.
  intros Hrun Hs.
  apply (forEach_invariant (keepSeat (allSeatIds room) fixed assign) (fun st => s ∈ st.2)
           l st st'); [|done..].
  intros p t t' _ Ht [(sid & _ & -> & _)|(-> & _)]%keepSeat_Ok; [|done].
  cbn. apply elem_of_union. by right.
Qed.

(** X20. Repair gives up when a fixed pupil declares a seat that a pupil
    earlier in the list, not fixed, holds in the assignment: the earlier
    pupil keeps the seat (or finds it taken), so the seat is in use when
    the fixed pupil comes, and the call throws. *)
Theorem repair_rejects_taken_fixed_seat room pupils assign seed i j p q sid :
  NoDup (Pupil.id <$> pupils) →
  (i < j)%nat → pupils !! i = Some p → pupils !! j = Some q →
  isFixedPupil p = false →
  assign !! Pupil.id p = Some sid → sid ≠ "" → sid ∈ allSeatIds room →
  resolvedSeat room q = Some sid →
  ∃ e, repairAssignment room pupils assign seed = Throw e.
Proof.
  intros Hids Hij Hi Hj Hpf Hsid Hne Hin Hq.
  destruct (repairAssignment room pupils assign seed) as [b|e|] eqn:Hb;
    [exfalso|by eexists|by apply repairAssignment_fuel in Hb].
  apply repairAssignment_Ok in Hb as (fixed & clean & used & free & idx & H1 & H2 & _ & _).
  destruct (resolveFixed_all room pupils fixed Hids H1) as (Hfixed & _ & _).
  assert (Hfq : fixed !! Pupil.id q = Some sid).
  { rewrite Hfixed; [done|by eapply list_elem_of_lookup_2]. }
  assert (Hfp : fixed !! Pupil.id p = None).
  { rewrite Hfixed by by eapply list_elem_of_lookup_2.
    destruct (resolvedSeat room p) eqn:Hr; [|done].
    apply resolvedSeat_fixed in Hr. congruence. }
  (* the list around the two pupils *)
  rewrite <-(take_drop_middle pupils j q Hj) in H2.
  apply forEach_middle in H2 as (st3 & st4 & Hbefore & Hstep & _).
  assert (Hi' : take j pupils !! i = Some p) by by rewrite lookup_take_lt.
  rewrite <-(take_drop_middle (take j pupils) i p Hi') in Hbefore.
  apply forEach_middle in Hbefore as (st1 & st2 & _ & Hp & Hrest).
  assert (Hused : sid ∈ st3.2).
  { eapply keepSeat_used_grows; [exact Hrest|].
    apply keepSeat_Ok in Hp as [(s & _ & -> & [Hf|(_ & Ha & _)])|(-> & _ & Htaken)].
    - congruence.
    - cbn. rewrite Hsid in Ha. simplify_eq. apply elem_of_union. left. by apply elem_of_singleton.
    - by apply Htaken. }
  apply keepSeat_Ok in Hstep as [(s & Hfresh & _ & [Hf|(Hf & _)])|(_ & Hf & _)]; congruence.
Qed.

Lemma repair_rejects_taken_fixed_seat_witness :
  ∃ e, repairAssignment demoRoom
         [Pupil.mk "A" [] None; Pupil.mk "B" [] (Some (FixedRC 0 1))]
         {[ "A" := "S00_01" ]} 5 = Throw e.
Proof.
  apply (repair_rejects_taken_fixed_seat demoRoom
           [Pupil.mk "A" [] None; Pupil.mk "B" [] (Some (FixedRC 0 1))]
           {[ "A" := "S00_01" ]} 5 0 1 (Pupil.mk "A" [] None)
           (Pupil.mk "B" [] (Some (FixedRC 0 1))) "S00_01");
    [apply (bool_decide_unpack _); by vm_compute | lia | reflexivity | reflexivity
    | reflexivity | reflexivity | discriminate
    | apply (bool_decide_unpack _); by vm_compute | reflexivity].
Defined.

(** X21. Repair cannot seat more pupils than the room has seats: when no
    pupil is named as a member of [Object.prototype], every seat a fixed
    pupil declares is a seat of the room and there are more pupils than
    seats, the call throws, whatever the assignment.  (A fixed pupil that
    names a seat outside the room takes none of the room's seats, which is
    why the condition on the fixed seats is needed; a pupil of such a name
    passes for seated.) *)
Theorem repair_needs_a_seat_each room pupils assign seed :
  NoDup (Pupil.id <$> pupils) →
  NoDup (allSeatIds room) →
  "" ∉ allSeatIds room →
  (∀ p, p ∈ pupils → Pupil.id p ∉ protoNames) →
  (∀ p sid, p ∈ pupils → resolvedSeat room p = Some sid → sid ∈ allSeatIds room) →
  (length (allSeatIds room) < length pupils)%nat →
  ∃ e, repairAssignment room pupils assign seed = Throw e.
Proof.
  intros Hids Hnd Hne Hnames Hfixed Hlen.
  destruct (repairAssignment room pupils assign seed) as [b|e|] eqn:Hb;
    [exfalso|by eexists|by apply repairAssignment_fuel in Hb].
  pose proof (repairAssignment_injective room pupils assign seed b Hnd Hb) as Hinj.
  destruct (repairAssignment_shape room pupils assign seed b Hids Hne Hb)
    as (Hfix & Hall & _ & Hfree).
  assert (Hseat : ∀ p, p ∈ pupils → ∃ s, b !! Pupil.id p = Some s ∧ s ∈ allSeatIds room).
  { intros p Hp. destruct (isFixedPupil p) eqn:Hf.
    - destruct (Hfix p Hp Hf (not_protoNames_proto _ (Hnames p Hp))) as (s & Hr & Hs).
      exists s. split; [done|]. by eapply Hfixed.
    - specialize (Hall p Hp). apply seated_plain in Hall as (s & Hs & _); [|by apply Hnames].
      exists s. split; [done|]. by apply (Hfree p s). }
  set (seatOf := fun k : string => default "" (b !! k)).
  assert (Hsub : seatOf <$> (Pupil.id <$> pupils) ⊆+ allSeatIds room).
  { apply NoDup_submseteq.
    - apply NoDup_fmap_2_strong; [|done].
      intros k k' (p & -> & Hp)%list_elem_of_fmap (p' & -> & Hp')%list_elem_of_fmap.
      unfold seatOf. destruct (Hseat p Hp) as (s & Hs & _), (Hseat p' Hp') as (s' & Hs' & _).
      rewrite Hs, Hs'. cbn. intros ->. by apply (Hinj _ _ s').
    - intros s (k & -> & (p & -> & Hp)%list_elem_of_fmap)%list_elem_of_fmap.
      unfold seatOf. destruct (Hseat p Hp) as (s & -> & Hs). done. }
  apply submseteq_length in Hsub. rewrite !length_fmap in Hsub. lia.
Qed.

Lemma repair_needs_a_seat_each_witness :
  ∃ e, repairAssignment oneSeatRoom [Pupil.mk "A" [] None; Pupil.mk "B" [] None]
         {[ "A" := "S00_00" ]} 5 = Throw e.
Proof.
  apply (repair_needs_a_seat_each oneSeatRoom [Pupil.mk "A" [] None; Pupil.mk "B" [] None]).
  - apply (bool_decide_unpack _). by vm_compute.
  - apply (bool_decide_unpack _). by vm_compute.
  - apply (bool_decide_unpack _). by vm_compute.
  - intros p Hp. apply (bool_decide_unpack _).
    rewrite !elem_of_cons, elem_of_nil in Hp. by destruct Hp as [->|[->|[]]].
  - intros p sid Hp Hr. apply resolvedSeat_fixed in Hr.
    repeat (apply elem_of_cons in Hp as [->|Hp]); try discriminate Hr.
    by apply elem_of_nil in Hp.
  - apply Nat.ltb_lt. by vm_compute.
Defined.

(** ** The solver *)

Section SolverScores.
Variable room : Room.
Variable pupils : list Pupil.t.
Variable rules : list Rule.t.
Variable metropolis : Z -> Z -> Z -> bool.
Variable whileBound : nat.
#[local] Abbreviation score := (scoreAssignment room pupils rules).


Lemma improveLoop_scores movable left i st st' :
  curSc st = score (cur st) → bestSc st = score (best st) →
  improveLoop room pupils rules metropolis whileBound movable left i st = Ok st' →
  curSc st' = score (cur st') ∧ bestSc st' = score (best st') ∧
  total (bestSc st') <= total (bestSc st) ∧
  ((length movable < 2)%nat ∨ left = O → best st' = best st).
Proof.
  revert i st. induction left as [|left IH]; intros i st Hc Hb.
  { cbn. intros ?; simplify_eq. split_and!; [done..|lia|done]. }
  cbn [improveLoop].
  destruct (Nat.ltb_spec (length movable) 2) as [Hlen|Hlen];
    [intros ?; simplify_eq; split_and!; [done..|lia|done]|].
  destruct (propose whileBound movable (cur st) (rngOf st))
    as [[[[a b] next] rng]| |]; cbn; [|done..].
  destruct (acceptMove _ _ _ _) as [accept rng2].
  assert (Hfew : ∀ st0 : annealState, (length movable < 2)%nat ∨ S left = O → best st' = best st0).
  { intros st0 [?|?]; [lia|done]. }
  destruct accept.
  - destruct (Z.ltb_spec (total (score next)) (total (bestSc st))) as [Hlt|Hge].
    + intros Hrun. apply IH in Hrun as (? & ? & Hle & _); [|done..]. cbn in Hle.
      split_and!; [done..|lia|apply Hfew].
    + intros Hrun. apply IH in Hrun as (? & ? & Hle & _); [|done..]. cbn in Hle.
      split_and!; [done..|apply Hfew].
  - intros Hrun. apply IH in Hrun as (? & ? & Hle & _); [|done..]. cbn in Hle.
    split_and!; [done..|apply Hfew].
Qed.


End SolverScores.



Lemma swapSeats_seatsThePupils pupils a b m :
  (∀ p, p ∈ pupils → Pupil.id p ∉ protoNames) →
  a ∈ Pupil.id <$> pupils → b ∈ Pupil.id <$> pupils →
  seatsThePupils pupils m → seatsThePupils pupils (swapSeats a b m).
Proof.
  intros Hnames (pa & -> & Hpa)%list_elem_of_fmap (pb & -> & Hpb)%list_elem_of_fmap [Hall Hdom].
  split.
  - intros p Hp. apply seated_plain; [by apply Hnames|]. rewrite swapSeats_lookup.
    destruct (decide (Pupil.id p = Pupil.id pb));
      [by apply seated_plain; [apply Hnames|apply Hall]|].
    destruct (decide (Pupil.id p = Pupil.id pa));
      by apply seated_plain; [apply Hnames|apply Hall].
  - intros k. rewrite swapSeats_lookup.
    destruct (decide (k = Pupil.id pb)) as [->|]; [intros _; by apply list_elem_of_fmap_2|].
    destruct (decide (k = Pupil.id pa)) as [->|]; [intros _; by apply list_elem_of_fmap_2|].
    apply Hdom.
Qed.

Lemma swapSeats_range (S : list string) a b (m : gmap string string) :
  (∀ k s, m !! k = Some s → s ∈ S) → ∀ k s, swapSeats a b m !! k = Some s → s ∈ S.
Proof.
  intros Hm k s. rewrite swapSeats_lookup.
  destruct (decide (k = b)); [apply Hm|]. destruct (decide (k = a)); apply Hm.
Qed.

(** X23. The plan [solve] returns, for pupils with distinct ids, none of
    them the name of a member of [Object.prototype], in a room with no
    empty seat identifier: it seats every pupil of the list and nobody
    else, and every seat it uses is a seat of the room.  The plan
    [quickImprove] returns seats every pupil of the list and nobody else as
    well. *)
Theorem solver_plans_seat_exactly_the_pupils room pupils rules metropolis whileBound :
  NoDup (Pupil.id <$> pupils) →
  "" ∉ allSeatIds room →
  (∀ p, p ∈ pupils → Pupil.id p ∉ protoNames) →
  (∀ restarts iters seed res m,
     solve room pupils rules metropolis whileBound restarts iters seed = Ok res →
     assignment res = Some m →
     seatsThePupils pupils m ∧ ∀ k s, m !! k = Some s → s ∈ allSeatIds room) ∧
  (∀ stateAssignment iters seed res m,
     quickImprove room pupils rules metropolis whileBound stateAssignment iters seed = Ok res →
     assignment res = Some m →
     seatsThePupils pupils m).
Proof.
  intros Hids Hne Hnames.
  assert (Hmov : ∀ k, k ∈ movableIds pupils → k ∈ Pupil.id <$> pupils).
  { intros k (p & Hp & <- & _)%movableIds_pupil. by apply list_elem_of_fmap_2. }
  split.
  - intros restarts iters seed res m Hrun Hm.
    apply (solve_inv room pupils rules metropolis whileBound
             (fun m => seatsThePupils pupils m ∧ ∀ k s, m !! k = Some s → s ∈ allSeatIds room))
      with (restarts := restarts) (itersPerRestart := iters) (seed := seed) (res := res);
      [| |done..].
    + intros a b m0 Ha Hb _ [Hseat Hrange]. split.
      * apply swapSeats_seatsThePupils; auto.
      * by apply swapSeats_range.
    + intros seed0 m0 Hb. split; [split|].
      * intros p Hp. by eapply buildInitialAssignment_total.
      * intros k [s Hs]. by eapply buildInitialAssignment_range.
      * intros k s Hs. by eapply buildInitialAssignment_range.
  - intros stateAssignment iters seed res m Hrun Hm.
    apply (quickImprove_inv room pupils rules metropolis whileBound (seatsThePupils pupils))
      with (stateAssignment := stateAssignment) (iters := iters) (seed := seed) (res := res);
      [| |done..].
    + intros a b m0 Ha Hb _ Hseat. apply swapSeats_seatsThePupils; auto.
    + intros a seed0 m0 Hr.
      destruct (repairAssignment_shape room pupils a seed0 m0 Hids Hne Hr) as (_ & Hall & Hdom & _).
      split; [done|]. intros k [s Hs]. by eapply Hdom.
Qed.

Lemma solver_plans_seat_exactly_the_pupils_witness :
  seatsThePupils demoPupils {[ "C" := "S01_01"; "A" := "S00_02"; "B" := "S00_01" ]} ∧
  ∀ k s, ({[ "C" := "S01_01"; "A" := "S00_02"; "B" := "S00_01" ]} : gmap string string) !! k
           = Some s → s ∈ allSeatIds demoRoom.
Proof.
  exact (proj1 (solver_plans_seat_exactly_the_pupils demoRoom demoPupils demoRules
                  (fun _ _ _ => false) 50 demoPupils_ok (proj2 demoRoom_ok) demoPupils_plain)
           3 20 12345 _ _ demo_solve eq_refl).
Defined.

(** X24. [quickImprove] never returns a plan worse than the one it starts
    from: the start is the stored assignment (or a fresh one from the
    builder when none is stored) after repair; the plan returned scores at
    most the total of the start; the score and the hard breaks reported are
    those of the plan returned; and with fewer than two movable pupils, or
    no iteration to run, the plan returned is the start itself. *)
Theorem quickImprove_never_worse
    room pupils rules metropolis whileBound stateAssignment iters seed res :
  quickImprove room pupils rules metropolis whileBound stateAssignment iters seed = Ok res →
  ∃ cur0 start m,
    (if bool_decide (stateAssignment = ∅) then buildInitialAssignment room pupils seed
     else Ok stateAssignment) = Ok cur0 ∧
    repairAssignment room pupils cur0 seed = Ok start ∧
    assignment res = Some m ∧
    bestScore res = Some (total (scoreAssignment room pupils rules m)) ∧
    bestHard res = Some (hardBreaks (scoreAssignment room pupils rules m)) ∧
    total (scoreAssignment room pupils rules m)
      <= total (scoreAssignment room pupils rules start) ∧
    ((length (movableIds pupils) < 2)%nat ∨ iters <= 0 → m = start).
Proof.
  unfold quickImprove.
  destruct (if bool_decide _ then _ else _) as [cur0| |]; cbn; [|done..].
  destruct (repairAssignment room pupils cur0 seed) as [start| |] eqn:Hr; cbn; [|done..].
  destruct (improveLoop _ _ _ _ _ _ _ _ _) as [st| |] eqn:Hst; cbn; [|done..].
  apply improveLoop_scores in Hst as (_ & Hbest & Hle & Hsame); [|done..].
  cbn in Hle, Hsame. intros ?; simplify_eq. cbn.
  exists cur0, start, (best st). rewrite Hbest in Hle. rewrite Hbest.
  split_and!; try done.
  intros [Hfew|Hzero]; apply Hsame; [by left|right]. lia.
Qed.

Lemma quickImprove_never_worse_witness :
  ∃ cur0 start m,
    (if bool_decide (({[ "A" := "S01_01"; "C" := "S00_00"; "B" := "S00_01" ]}
                        : gmap string string) = ∅)
     then buildInitialAssignment demoRoom demoPupils 7
     else Ok {[ "A" := "S01_01"; "C" := "S00_00"; "B" := "S00_01" ]}) = Ok cur0 ∧
    repairAssignment demoRoom demoPupils cur0 7 = Ok start ∧
    Some ({[ "C" := "S01_01"; "A" := "S00_00"; "B" := "S00_01" ]} : gmap string string)
      = Some m ∧
    Some 0 = Some (total (scoreAssignment demoRoom demoPupils demoRules m)) ∧
    Some 0 = Some (hardBreaks (scoreAssignment demoRoom demoPupils demoRules m)) ∧
    total (scoreAssignment demoRoom demoPupils demoRules m)
      <= total (scoreAssignment demoRoom demoPupils demoRules start) ∧
    ((length (movableIds demoPupils) < 2)%nat ∨ 10 <= 0 → m = start).
Proof.
  apply (quickImprove_never_worse demoRoom demoPupils demoRules
           (fun _ _ _ => false) 50 {[ "A" := "S01_01"; "C" := "S00_00"; "B" := "S00_01" ]} 10 7
           {| assignment := Some {[ "C" := "S01_01"; "A" := "S00_00"; "B" := "S00_01" ]};
              bestScore := Some 0; bestHard := Some 0 |}).
  by vm_compute.
Defined.

(** ** Map edits and the stored plan *)

Lemma repairOrClear_cases room pupils assign seed :
  NoDup (allSeatIds room) → NoDup (Pupil.id <$> pupils) → "" ∉ allSeatIds room →
  (∀ p, p ∈ pupils → Pupil.id p ∉ protoNames) →
  (repairOrClear room pupils assign seed = ∅ ∨
   (validAssignment room pupils (repairOrClear room pupils assign seed) ∧
    seatsInRoom room pupils (repairOrClear room pupils assign seed))) ∧
  (pupils ≠ [] → repairOrClear room pupils assign seed = ∅ →
   ∃ e, repairAssignment room pupils assign seed = Throw e).
Proof.
  intros Hnd Hids Hne Hnames. unfold repairOrClear.
  destruct (repairAssignment room pupils assign seed) as [b|e|] eqn:Hb.
  - pose proof (repairAssignment_injective room pupils assign seed b Hnd Hb) as Hinj.
    destruct (repairAssignment_shape room pupils assign seed b Hids Hne Hb)
      as (Hfix & Hall & _ & Hfree).
    assert (Hentry : ∀ p, p ∈ pupils → is_Some (b !! Pupil.id p)).
    { intros p Hp. specialize (Hall p Hp).
      apply seated_plain in Hall as (sid & -> & _); [done|by apply Hnames]. }
    split.
    + right. split; [split_and!|]; [done|done| |].
      * intros p Hp Hf. apply Hfix; [done..|]. by apply not_protoNames_proto, Hnames.
      * intros p sid Hp Hf Hs. by apply (Hfree p sid).
    + intros Hpupils ->. destruct pupils as [|p l]; [done|].
      destruct (Hentry p ltac:(by left)) as [sid Hsid].
      by rewrite lookup_empty in Hsid.
  - split; [by left|]. intros _ _. by eexists.
  - by apply repairAssignment_fuel in Hb.
Qed.

(** X25. After a click on a tile of rows and columns 0..99, in a room
    whose seats carry the identifier of their tile and with pupils of
    distinct ids, none of them the name of a member of [Object.prototype]:
    the seats of the new room still carry the identifier of their tile, and
    the stored plan is either valid for the new room (every pupil seated,
    no seat shared, fixed pupils in place, the others on seats of the room)
    or empty; with at least one pupil it is empty only when the repair
    threw. *)
Theorem click_leaves_valid_plan_or_none pupils seed t r c room assign :
  drawnRoom room → 0 <= r <= 99 → 0 <= c <= 99 →
  NoDup (Pupil.id <$> pupils) →
  (∀ p, p ∈ pupils → Pupil.id p ∉ protoNames) →
  drawnRoom (onCellClick pupils seed t r c (room, assign)).1 ∧
  ((onCellClick pupils seed t r c (room, assign)).2 = ∅ ∨
   (validAssignment (onCellClick pupils seed t r c (room, assign)).1 pupils
                    (onCellClick pupils seed t r c (room, assign)).2 ∧
    seatsInRoom (onCellClick pupils seed t r c (room, assign)).1 pupils
                (onCellClick pupils seed t r c (room, assign)).2)) ∧
  (pupils ≠ [] → (onCellClick pupils seed t r c (room, assign)).2 = ∅ →
   ∃ e, repairAssignment (classify t r c room) pupils assign seed = Throw e).
Proof.
  intros Hroom Hr Hc Hids Hnames. unfold onCellClick. cbn [fst snd].
  pose proof (classify_drawn t r c room Hr Hc Hroom) as Hdrawn.
  destruct (drawnRoom_seatIds _ Hdrawn) as [Hnd Hne].
  split; [done|]. by apply repairOrClear_cases.
Qed.

Lemma demoRoom_drawn : drawnRoom demoRoom.
Proof.
  split; [apply (bool_decide_unpack _); by vm_compute|].
  intros k v Hk. unfold demoRoom in Hk. vm_compute in Hk.
  repeat (apply elem_of_cons in Hk as [Hk|Hk]; [injection Hk as -> ->; by vm_compute|]).
  by apply elem_of_nil in Hk.
Defined.

Lemma click_leaves_valid_plan_or_none_witness :
  drawnRoom (onCellClick demoPupils 7 ToolBlocked 0 2 (demoRoom, {[ "A" := "S00_02" ]})).1 ∧
  ((onCellClick demoPupils 7 ToolBlocked 0 2 (demoRoom, {[ "A" := "S00_02" ]})).2 = ∅ ∨
   (validAssignment (onCellClick demoPupils 7 ToolBlocked 0 2 (demoRoom, {[ "A" := "S00_02" ]})).1
      demoPupils (onCellClick demoPupils 7 ToolBlocked 0 2 (demoRoom, {[ "A" := "S00_02" ]})).2 ∧
    seatsInRoom (onCellClick demoPupils 7 ToolBlocked 0 2 (demoRoom, {[ "A" := "S00_02" ]})).1
      demoPupils (onCellClick demoPupils 7 ToolBlocked 0 2 (demoRoom, {[ "A" := "S00_02" ]})).2)) ∧
  (demoPupils ≠ [] →
   (onCellClick demoPupils 7 ToolBlocked 0 2 (demoRoom, {[ "A" := "S00_02" ]})).2 = ∅ →
   ∃ e, repairAssignment (classify ToolBlocked 0 2 demoRoom) demoPupils {[ "A" := "S00_02" ]} 7
        = Throw e).
Proof.
  apply (click_leaves_valid_plan_or_none demoPupils 7 ToolBlocked 0 2 demoRoom
           {[ "A" := "S00_02" ]});
    [exact demoRoom_drawn|lia|lia|exact demoPupils_ok|exact demoPupils_plain].
Defined.

Lemma resizeRoom_drawn inpRows inpCols room :
  drawnRoom room → drawnRoom (resizeRoom inpRows inpCols room).
Proof.
  intros [Hnd Hall].
  assert (Hs : seats (resizeRoom inpRows inpCols room)
               = filter (fun kv => inBoundsKey (resizeRows inpRows) (resizeCols inpCols) kv.1 = true)
                        (seats room)).
  { unfold resizeRoom. cbn [seats]. rewrite foldl_mapSet_if.
    apply (mapOfEntries_id (filter _ (seats room))). by apply filter_keys_NoDup. }
  unfold drawnRoom. rewrite Hs. split; [by apply filter_keys_NoDup|].
  intros k v [_ Hkv]%list_elem_of_filter. by apply Hall.
Qed.

Lemma filter_all {A} (P : A → Prop) `{!∀ x, Decision (P x)} (l : list A) :
  (∀ x, x ∈ l → P x) → filter P l = l.
Proof.
  induction l as [|x l IH]; intros Hall; [done|].
  rewrite filter_cons_True by (apply Hall; by left).
  f_equal. apply IH. intros y Hy. apply Hall. by right.
Qed.

Lemma repairAssignment_seats room room' pupils assign seed :
  seats room' = seats room →
  repairAssignment room' pupils assign seed = repairAssignment room pupils assign seed.
Proof.
  intros Hs. unfold repairAssignment, resolveFixed, allSeatIds. by rewrite Hs.
Qed.

Lemma repairAssignment_valid room pupils assign seed :
  NoDup (Pupil.id <$> pupils) → "" ∉ allSeatIds room →
  "__proto__" ∉ Pupil.id <$> pupils →
  validAssignment room pupils assign → seatsInRoom room pupils assign →
  (∀ k, is_Some (assign !! k) → k ∈ Pupil.id <$> pupils) →
  repairAssignment room pupils assign seed = Ok assign.
Proof.
  intros Hids Hne Hproto (Htotal & Hinj & Hfix) Hin Hdom.
  destruct (repairAssignment_stable room pupils assign seed Hids Hne Hproto Hinj Hfix)
    as (b & Hb & Hlook).
  { intros p Hp Hf. destruct (Htotal p Hp) as [sid Hsid]. exists sid. split; [done|].
    by apply (Hin p sid). }
  rewrite Hb. f_equal. apply map_eq. intros k. rewrite Hlook.
  case_decide as Hk; [done|]. destruct (assign !! k) eqn:Ha; [|done].
  destruct Hk. apply Hdom. by rewrite Ha.
Qed.

(** X26. After a resize, in a room whose seats carry the identifier of
    their tile and with pupils of distinct ids, none of them the name of a
    member of [Object.prototype]: the seats that remain still carry the
    identifier of their tile, and the stored plan is either valid for the
    new room or empty.  When every seat lies inside the new bounds (the
    grid grows, or only loses tiles without seats), the seats are kept as
    they are and a plan that was valid and named pupils of the list only is
    stored again unchanged. *)
Theorem resize_leaves_valid_plan_or_none pupils seed inpRows inpCols room assign :
  drawnRoom room →
  NoDup (Pupil.id <$> pupils) →
  (∀ p, p ∈ pupils → Pupil.id p ∉ protoNames) →
  drawnRoom (onResize pupils seed inpRows inpCols (room, assign)).1 ∧
  ((onResize pupils seed inpRows inpCols (room, assign)).2 = ∅ ∨
   (validAssignment (onResize pupils seed inpRows inpCols (room, assign)).1 pupils
                    (onResize pupils seed inpRows inpCols (room, assign)).2 ∧
    seatsInRoom (onResize pupils seed inpRows inpCols (room, assign)).1 pupils
                (onResize pupils seed inpRows inpCols (room, assign)).2)) ∧
  ((∀ k v, (k, v) ∈ seats room →
           inBoundsKey (resizeRows inpRows) (resizeCols inpCols) k = true) →
   seats (onResize pupils seed inpRows inpCols (room, assign)).1 = seats room ∧
   (validAssignment room pupils assign → seatsInRoom room pupils assign →
    (∀ k, is_Some (assign !! k) → k ∈ Pupil.id <$> pupils) →
    (onResize pupils seed inpRows inpCols (room, assign)).2 = assign)).
Proof.
  intros Hroom Hids Hnames. unfold onResize. cbn [fst snd].
  pose proof (resizeRoom_drawn inpRows inpCols room Hroom) as Hdrawn.
  destruct (drawnRoom_seatIds _ Hdrawn) as [Hnd Hne].
  split; [done|]. split; [by apply repairOrClear_cases|].
  intros Hin.
  assert (Hs : seats (resizeRoom inpRows inpCols room) = seats room).
  { unfold resizeRoom. cbn [seats]. rewrite foldl_mapSet_if.
    rewrite filter_all by (intros [k v] Hkv; by apply (Hin k v)).
    apply mapOfEntries_id, Hroom. }
  split; [done|]. intros Hvalid Hseats Hdom.
  unfold repairOrClear. rewrite (repairAssignment_seats room) by done.
  rewrite repairAssignment_valid; [done|done|by apply drawnRoom_seatIds| |done..].
  intros (p & Hp & Hin')%list_elem_of_fmap.
  apply (Hnames p Hin'). rewrite <-Hp. apply proto_in_protoNames.
Qed.

Lemma resize_leaves_valid_plan_or_none_witness :
  let st' := onResize demoPupils 7 (Some 1) None (demoRoom, {[ "A" := "S00_02" ]}) in
  drawnRoom st'.1 ∧
  (st'.2 = ∅ ∨ (validAssignment st'.1 demoPupils st'.2 ∧ seatsInRoom st'.1 demoPupils st'.2)) ∧
  ((∀ k v, (k, v) ∈ seats demoRoom →
           inBoundsKey (resizeRows (Some 1)) (resizeCols None) k = true) →
   seats st'.1 = seats demoRoom ∧
   (validAssignment demoRoom demoPupils {[ "A" := "S00_02" ]} →
    seatsInRoom demoRoom demoPupils {[ "A" := "S00_02" ]} →
    (∀ k, is_Some (({[ "A" := "S00_02" ]} : gmap string string) !! k) →
          k ∈ Pupil.id <$> demoPupils) →
    st'.2 = {[ "A" := "S00_02" ]})).
Proof.
  apply (resize_leaves_valid_plan_or_none demoPupils 7 (Some 1) None demoRoom
           {[ "A" := "S00_02" ]});
    [exact demoRoom_drawn|exact demoPupils_ok|exact demoPupils_plain].
Defined.

(** X27. Export then import gives the whole state back: for a room of a
    size the import accepts whose sets hold every key once and whose seat
    identifiers are distinct and not empty, pupils with distinct ids, and a
    plan that is valid, uses seats of the room for the pupils that are not
    fixed, names pupils of the list only and, as every plan the script
    stores, has no entry named [__proto__], the import returns the same
    room and stores the same plan. *)
Theorem export_import_gives_state_back room pupils assign seed :
  keysOnce room →
  1 <= rows room <= 40 → 1 <= cols room <= 40 → 28 <= cell room <= 64 →
  "" ∉ allSeatIds room →
  NoDup (Pupil.id <$> pupils) →
  validAssignment room pupils assign → seatsInRoom room pupils assign →
  (∀ k, is_Some (assign !! k) → k ∈ Pupil.id <$> pupils) →
  assign !! "__proto__" = None →
  importJSON (exportRoom room) pupils assign seed = (room, assign).
Proof.
  intros Hkeys Hr Hc Hcell Hne Hids Hvalid Hseats Hdom Hproto.
  unfold importJSON. rewrite importRoom_exportRoom by done.
  unfold repairOrClear. rewrite repairAssignment_valid; [done..| |done|done|done].
  intros (p & Hp & Hin)%list_elem_of_fmap.
  destruct (proj1 Hvalid p Hin) as [sid Hsid]. congruence.
Qed.

Lemma demoPlan_valid :
  validAssignment demoRoom demoPupils {[ "C" := "S00_02"; "A" := "S01_01"; "B" := "S00_01" ]} ∧
  seatsInRoom demoRoom demoPupils {[ "C" := "S00_02"; "A" := "S01_01"; "B" := "S00_01" ]} ∧
  (∀ k s, ({[ "C" := "S00_02"; "A" := "S01_01"; "B" := "S00_01" ]}
             : gmap string string) !! k = Some s →
          k ∈ Pupil.id <$> demoPupils ∧ s ∈ allSeatIds demoRoom).
Proof.
  pose proof demo_build as Hb. destruct demoRoom_ok as [Hnd Hne].
  split_and!; [split_and!|..].
  - intros p Hp. pose proof (buildInitialAssignment_total _ _ _ _ p Hne Hb Hp) as Hs.
    apply seated_plain in Hs as (sid & Hsid & _); [|by apply demoPupils_plain].
    rewrite Hsid. by eexists.
  - exact (buildInitialAssignment_injective _ _ _ _ Hnd Hb).
  - intros p Hp Hf.
    exact (buildInitialAssignment_fixed _ _ _ _ p demoPupils_ok Hne Hb Hp Hf
             (not_protoNames_proto _ (demoPupils_plain p Hp))).
  - intros p sid Hp _ Hs.
    exact (proj2 (buildInitialAssignment_range _ _ _ _ _ _ demoPupils_ok Hb Hs)).
  - intros k s Hs.
    exact (buildInitialAssignment_range _ _ _ _ _ _ demoPupils_ok Hb Hs).
Defined.

Lemma export_import_gives_state_back_witness :
  importJSON (exportRoom demoRoom) demoPupils
             {[ "C" := "S00_02"; "A" := "S01_01"; "B" := "S00_01" ]} 99
  = (demoRoom, {[ "C" := "S00_02"; "A" := "S01_01"; "B" := "S00_01" ]}).
Proof.
  apply (export_import_gives_state_back demoRoom demoPupils
           {[ "C" := "S00_02"; "A" := "S01_01"; "B" := "S00_01" ]} 99).
  - split_and!; apply (bool_decide_unpack _); by vm_compute.
  - cbn; lia.
  - cbn; lia.
  - cbn; lia.
  - exact (proj2 demoRoom_ok).
  - exact demoPupils_ok.
  - exact (proj1 demoPlan_valid).
  - exact (proj1 (proj2 demoPlan_valid)).
  - intros k [s Hs]. exact (proj1 (proj2 (proj2 demoPlan_valid) k s Hs)).
  - reflexivity.
Defined.

(** ** Adding a pupil *)

Section AddPupil.
Variable room : Room.
Variable pupils : list Pupil.t.
Variable assign : gmap string string.
Variables (id : string) (tags : list string).
#[local] Abbreviation seatIds := (allSeatIds room).
#[local] Abbreviation ids := (Pupil.id <$> pupils).
#[local] Abbreviation newPupil := (Pupil.mk id tags None).

Hypothesis Hnd : NoDup seatIds.
Hypothesis Hne : "" ∉ seatIds.
Hypothesis Hids : NoDup ids.
Hypothesis Hproto : "__proto__" ∉ ids.
Hypothesis Hnew : id ∉ ids.
Hypothesis Hinj : injective assign.
Hypothesis Hfix : fixedInPlace room pupils assign.
Hypothesis Hseats : ∀ p, p ∈ pupils → ∃ sid, assign !! Pupil.id p = Some sid ∧ sid ∈ seatIds.
Hypothesis Hfree : assign !! id = None.


End AddPupil.



(** ** The default map *)

Section DefaultMap.

Lemma seatRow_fold r (l : list Z) room :
  blocked room = [] →
  let room' := foldl (fun room c => if c =? 5 then room else ensureSeat r c room) room l in
  blocked room' = [] ∧ teacher room' = teacher room ∧ cols room' = cols room ∧
  ∀ k, (k.1 = r ∧ k.2 ∈ l ∧ k.2 ≠ 5 → mapGet k (seats room') = Some (seatIdFor k.1 k.2)) ∧
       (¬ (k.1 = r ∧ k.2 ∈ l ∧ k.2 ≠ 5) → mapGet k (seats room') = mapGet k (seats room)).
Proof.
  revert room. induction l as [|c l IH]; intros room Hb; cbn [foldl].
  { split_and!; try done. intros k. split; [|done]. by intros (_ & ?%elem_of_nil & _). }
  set (room1 := if c =? 5 then room else ensureSeat r c room).
  assert (Hb1 : blocked room1 = []).
  { unfold room1. destruct (c =? 5); [done|]. unfold ensureSeat, isBlocked. cbn [blocked].
    by rewrite Hb. }
  assert (Ht1 : teacher room1 = teacher room) by (unfold room1; by destruct (c =? 5)).
  assert (Hc1 : cols room1 = cols room) by (unfold room1; by destruct (c =? 5)).
  assert (Hs1 : ∀ k, mapGet k (seats room1)
                     = if decide (c ≠ 5 ∧ keyRC r c = k) then Some (seatIdFor r c)
                       else mapGet k (seats room)).
  { intros k. unfold room1. destruct (Z.eqb_spec c 5) as [->|Hc].
    - by rewrite decide_False by by intros [? _].
    - cbn [ensureSeat seats]. rewrite mapGet_mapSet.
      destruct (decide (keyRC r c = k)); [by rewrite decide_True|].
      by rewrite decide_False by by intros [_ ?]. }
  destruct (IH room1 Hb1) as (Hb' & Ht' & Hc' & Hs'). cbv zeta in *.
  split_and!; [done|congruence|congruence|].
  intros [kr kc]. cbn [fst snd]. destruct (Hs' (kr, kc)) as [Hin Hout]. cbn [fst snd] in *.
  specialize (Hs1 (kr, kc)). unfold keyRC in Hs1.
  split.
  - intros (-> & Hk & Hne). destruct (decide (kc ∈ l)) as [Hl|Hl]; [by apply Hin|].
    rewrite Hout by tauto. apply elem_of_cons in Hk as [->|?]; [|done].
    etrans; [apply Hs1|]. by rewrite decide_True.
  - intros Hno. rewrite Hout.
    + etrans; [apply Hs1|]. rewrite decide_False; [done|]. intros [Hc [= -> ->]].
      apply Hno. split_and!; [done|by left|done].
    + intros (-> & Hk & Hne). apply Hno. split_and!; [done|by right|done].
Qed.

Lemma seatRows_fold (rs : list Z) room :
  blocked room = [] →
  let room' :=
    foldl (fun room r =>
             foldl (fun room c => if c =? 5 then room else ensureSeat r c room)
                   room (seqZ 0 (cols room)))
          room rs in
  blocked room' = [] ∧ teacher room' = teacher room ∧ cols room' = cols room ∧
  ∀ k, (k.1 ∈ rs ∧ 0 <= k.2 < cols room ∧ k.2 ≠ 5 →
        mapGet k (seats room') = Some (seatIdFor k.1 k.2)) ∧
       (¬ (k.1 ∈ rs ∧ 0 <= k.2 < cols room ∧ k.2 ≠ 5) →
        mapGet k (seats room') = mapGet k (seats room)).
Proof.
  revert room. induction rs as [|r rs IH]; intros room Hb; cbn [foldl].
  { split_and!; try done. intros k. split; [|done]. by intros (?%elem_of_nil & _). }
  destruct (seatRow_fold r (seqZ 0 (cols room)) room Hb) as (Hb1 & Ht1 & Hc1 & Hs1).
  cbv zeta in *.
  set (room1 := foldl _ room (seqZ 0 (cols room))) in *.
  destruct (IH room1 Hb1) as (Hb' & Ht' & Hc' & Hs'). cbv zeta in *.
  split_and!; [done|congruence|congruence|].
  intros k. destruct (Hs' k) as [Hin Hout], (Hs1 k) as [Hin1 Hout1].
  rewrite Hc1 in Hin, Hout. rewrite elem_of_seqZ in Hin1, Hout1.
  split.
  - intros (Hk & Hc & Hne). destruct (decide (k.1 ∈ rs)) as [Hl|Hl]; [by apply Hin|].
    rewrite Hout by tauto. apply elem_of_cons in Hk as [Hr|?]; [|done].
    apply Hin1. lia.
  - intros Hno. rewrite Hout.
    + apply Hout1. intros (Hr & Hc & Hne). apply Hno.
      split; [rewrite Hr; by left|]. lia.
    + intros (Hk & Hc & Hne). apply Hno. split; [by right|]. lia.
Qed.

Lemma blockedRow_fold r (l : list Z) room :
  let room' := foldl (fun room c => ensureBlocked r c room) room l in
  (∀ k, k ∈ blocked room' ↔ k ∈ blocked room ∨ (k.1 = r ∧ k.2 ∈ l)) ∧
  (∀ k, k ∈ teacher room' ↔ k ∈ teacher room ∧ ¬ (k.1 = r ∧ k.2 ∈ l)) ∧
  (∀ k, (k.1 = r ∧ k.2 ∈ l → mapGet k (seats room') = None) ∧
        (¬ (k.1 = r ∧ k.2 ∈ l) → mapGet k (seats room') = mapGet k (seats room))).
Proof.
  revert room. induction l as [|c l IH]; intros room; cbn [foldl].
  { refine (conj _ (conj _ _)); intros k; rewrite ?elem_of_nil; [tauto|tauto|].
    split; [by intros [_ []]|done]. }
  destruct (IH (ensureBlocked r c room)) as (Hb & Ht & Hs). cbv zeta in *.
  split_and!.
  - intros [kr kc]. rewrite Hb. cbn [ensureBlocked blocked fst snd].
    rewrite elem_of_setAdd, elem_of_cons. unfold keyRC. split.
    + intros [[[= -> ->]|?]|[? ?]]; tauto.
    + intros [?|[-> [->|?]]]; tauto.
  - intros [kr kc]. rewrite Ht. cbn [ensureBlocked teacher fst snd].
    rewrite elem_of_setDelete, elem_of_cons. unfold keyRC. split.
    + intros [[Hne ?] Hno]. split; [done|]. intros [-> [->|?]]; tauto.
    + intros [? Hno]. split; [split; [|done]|].
      * intros [= -> ->]. apply Hno. split; [done|by left].
      * intros [-> ?]. apply Hno. split; [done|by right].
  - intros [kr kc]. destruct (Hs (kr, kc)) as [Hin Hout]. cbn [fst snd] in *.
    assert (Hstep : mapGet (kr, kc) (seats (ensureBlocked r c room))
                    = if decide (keyRC r c = (kr, kc)) then None
                      else mapGet (kr, kc) (seats room)).
    { cbn [ensureBlocked seats]. apply mapGet_mapDelete. }
    unfold keyRC in Hstep. split.
    + intros [-> Hk]. destruct (decide (kc ∈ l)) as [Hl|Hl]; [by apply Hin|].
      rewrite Hout by tauto. apply elem_of_cons in Hk as [->|?]; [|done].
      etrans; [apply Hstep|]. by rewrite decide_True.
    + intros Hno. rewrite Hout.
      * etrans; [apply Hstep|]. rewrite decide_False; [done|].
        intros [= -> ->]. apply Hno. split; [done|by left].
      * intros [-> ?]. apply Hno. split; [done|by right].
Qed.

Lemma blockedRow_dims r (l : list Z) room :
  rows (foldl (fun room c => ensureBlocked r c room) room l) = rows room ∧
  cols (foldl (fun room c => ensureBlocked r c room) room l) = cols room.
Proof.
  revert room. induction l as [|c l IH]; intros room; [done|].
  cbn [foldl]. destruct (IH (ensureBlocked r c room)) as [-> ->]. done.
Qed.

Lemma seatRows_rows (rs : list Z) room :
  rows (foldl (fun room r =>
                 foldl (fun room c => if c =? 5 then room else ensureSeat r c room)
                       room (seqZ 0 (cols room)))
              room rs) = rows room.
Proof.
  assert (Hin : ∀ r (l : list Z) rm,
            rows (foldl (fun room c => if c =? 5 then room else ensureSeat r c room) rm l)
            = rows rm).
  { intros r l. induction l as [|x l IH]; intros rm; [done|].
    cbn [foldl]. rewrite IH. by destruct (x =? 5). }
  revert room. induction rs as [|r rs IH]; intros room; [done|].
  cbn [foldl]. by rewrite IH, Hin.
Qed.

End DefaultMap.

(** X29. The default map, built on the empty room for [n] columns asked
    (10 when the field is empty): the seats are the tiles of rows 1 to 6
    and columns 0 to [n - 1] but for column 5, each with the identifier of
    its tile; the blocked tiles are those of row 7 in columns 0 to [n - 1];
    the teacher tiles are (0,4) and (0,5).  The number of rows asked for
    plays no part in the layout. *)
Theorem initDefaultMap_layout inpRows inpCols inpCell r c :
  let room := initDefaultMap inpRows inpCols inpCell emptyRoom in
  let n := default 10 inpCols in
  (isSeat room r c = true ↔ 1 <= r <= 6 ∧ 0 <= c < n ∧ c ≠ 5) ∧
  (isSeat room r c = true → mapGet (keyRC r c) (seats room) = Some (seatIdFor r c)) ∧
  (isBlocked room r c = true ↔ r = 7 ∧ 0 <= c < n) ∧
  (isTeacher room r c = true ↔ r = 0 ∧ (c = 4 ∨ c = 5)) ∧
  rows room = default 8 inpRows ∧ cols room = n.
Proof.
  intros room n. unfold room, initDefaultMap.
  set (room0 := {| rows := default 8 inpRows; cols := default 10 inpCols;
                   cell := default 42 inpCell; blocked := blocked emptyRoom;
                   teacher := setAdd (keyRC 0 5) (setAdd (keyRC 0 4) (teacher emptyRoom));
                   seats := seats emptyRoom |}).
  destruct (seatRows_fold (seqZ 1 6) room0 eq_refl) as (Hb1 & Ht1 & Hc1 & Hs1).
  cbv zeta in *. set (room1 := foldl _ room0 (seqZ 1 6)) in *.
  destruct (blockedRow_fold 7 (seqZ 0 (cols room1)) room1) as (Hb2 & Ht2 & Hs2).
  cbv zeta in *. set (room2 := foldl _ room1 (seqZ 0 (cols room1))) in *.
  change (cols room0) with n in *. rewrite Hc1 in *.
  assert (Hseat : mapGet (keyRC r c) (seats room2)
                  = if decide (1 <= r <= 6 ∧ 0 <= c < n ∧ c ≠ 5) then Some (seatIdFor r c)
                    else None).
  { destruct (Hs2 (keyRC r c)) as [Hin2 Hout2], (Hs1 (keyRC r c)) as [Hin1 Hout1].
    unfold keyRC in *. cbn [fst snd] in *. rewrite elem_of_seqZ in *.
    destruct (decide (1 <= r <= 6 ∧ 0 <= c < n ∧ c ≠ 5)) as [Hyes|Hno].
    - etrans; [apply Hout2; lia|]. apply Hin1. lia.
    - destruct (decide (r = 7 ∧ 0 <= c < 0 + n)) as [H7|H7]; [by apply Hin2|].
      etrans; [by apply Hout2|]. etrans; [apply Hout1; lia|]. done. }
  assert (Hcols : cols room2 = n).
  { unfold room2. rewrite (proj2 (blockedRow_dims 7 _ room1)). done. }
  assert (Hrows : rows room2 = default 8 inpRows).
  { unfold room2. rewrite (proj1 (blockedRow_dims 7 _ room1)).
    unfold room1. by rewrite seatRows_rows. }
  unfold isSeat, isBlocked, isTeacher. rewrite mapHas_mapGet, Hseat.
  split_and!; [| | | |done..].
  - rewrite bool_decide_eq_true. case_decide; [by split; eauto|]. split; [by intros [? ?]|done].
  - rewrite bool_decide_eq_true. case_decide; [done|]. by intros [? ?].
  - rewrite setHas_true, Hb2, Hb1, elem_of_seqZ. cbn [keyRC fst snd].
    rewrite elem_of_nil. lia.
  - rewrite setHas_true, Ht2, Ht1, elem_of_seqZ. cbn [keyRC fst snd room0 teacher].
    rewrite !elem_of_setAdd. cbn [emptyRoom teacher]. rewrite elem_of_nil. unfold keyRC.
    split.
    + intros [ [Hk|[Hk|[]]] _]; injection Hk as -> ->; lia.
    + intros [-> [-> | ->]]; (split; [auto|lia]).
Qed.
